(** * sora2api registration services: a shallow embedding and its properties

    The development follows the Python sources
      - src/services/tempmail_service.py   (TempMailService)
      - src/services/sms_service.py        (GrizzlySMSService)
      - src/services/register_service.py   (OpenAIRegister)
      - src/services/register_flow.py      (RegisterFlowService)

    Python strings are modelled as [string] (a sequence of 8-bit
    characters; non-ASCII text is held in its UTF-8 encoding), integers
    as [Z] or [nat], [None]-able values as [option], exceptions as values
    of type [exn], and every external collaborator (HTTP endpoints,
    browser, random generator, account store) as an oracle that is read
    in call order. *)

From Stdlib Require Import String Ascii List ZArith Lia Bool Arith Permutation PeanoNat DecimalString RelationClasses.
Import ListNotations.
Open Scope string_scope.

(* ================================================================== *)
(** * Part I. The model                                                *)
(* ================================================================== *)

(** ** Python string primitives *)

Module Py.

Definition chars (s : string) : list ascii := list_ascii_of_string s.
Definition join (l : list ascii) : string := string_of_list_ascii l.

Definition code (c : ascii) : nat := nat_of_ascii c.

Definition between (lo hi : nat) (c : ascii) : bool :=
  (lo <=? code c)%nat && (code c <=? hi)%nat.

(** [str.lower] on one character: the ASCII capitals and the Latin-1
    capitals (all of 0xC0-0xDE but the multiplication sign 0xD7). *)
Definition lower_char (c : ascii) : ascii :=
  if between 65 90 c then ascii_of_nat (code c + 32)
  else if between 192 222 c && negb (code c =? 215)%nat
       then ascii_of_nat (code c + 32)
       else c.

Definition lower (s : string) : string := join (map lower_char (chars s)).

(** [str.lower] of a text held as UTF-8, as far as ASCII goes.  Two
    characters outside ASCII have an ASCII letter in their lower case:
    KELVIN SIGN (U+212A, bytes E2 84 AA) becomes [k], and LATIN CAPITAL
    LETTER I WITH DOT ABOVE (U+0130, bytes C4 B0) becomes [i] followed by
    U+0307 (bytes CC 87).  Every other character outside ASCII is left as
    it stands: its lower case holds no ASCII character, so whether an
    ASCII word occurs in the result does not depend on it. *)
Fixpoint lower_utf8 (s : list ascii) : list ascii :=
  match s with
  | [] => []
  | a :: t =>
      if (code a =? 226)%nat then
        match t with
        | b :: c :: rest =>
            if (code b =? 132)%nat && (code c =? 170)%nat
            then ascii_of_nat 107 :: lower_utf8 rest
            else a :: lower_utf8 t
        | _ => a :: lower_utf8 t
        end
      else if (code a =? 196)%nat then
        match t with
        | b :: rest =>
            if (code b =? 176)%nat
            then ascii_of_nat 105 :: ascii_of_nat 204 :: ascii_of_nat 135
                   :: lower_utf8 rest
            else a :: lower_utf8 t
        | [] => a :: lower_utf8 t
        end
      else (if between 65 90 a then ascii_of_nat (code a + 32) else a)
             :: lower_utf8 t
  end.

Definition lower_text (s : string) : string := join (lower_utf8 (chars s)).

Fixpoint starts_with (p s : list ascii) : bool :=
  match p, s with
  | [], _ => true
  | _ :: _, [] => false
  | a :: p', b :: s' => Ascii.eqb a b && starts_with p' s'
  end.

(** [s.startswith(p)] *)
Definition startswith (s p : string) : bool := starts_with (chars p) (chars s).

(** [s.endswith(p)] *)
Definition endswith (s p : string) : bool :=
  starts_with (rev (chars p)) (rev (chars s)).

Fixpoint contains_list (p s : list ascii) : bool :=
  starts_with p s ||
  match s with
  | [] => false
  | _ :: s' => contains_list p s'
  end.

(** [p in s] *)
Definition contains (p s : string) : bool := contains_list (chars p) (chars s).

(** Truth value of a string ([if s:] / [not s]). *)
Definition truthy (s : string) : bool :=
  match s with EmptyString => false | _ => true end.

(** A Python [str] as the sequence of its code points. *)
Definition text := list N.

(** The text of an ASCII literal. *)
Definition codes (s : string) : text := map N_of_ascii (chars s).

(** [if content:] / [not content] on a text. *)
Definition nonempty (t : text) : bool :=
  match t with [] => false | _ => true end.

End Py.

(** ** The random generator

    [random.choice] and [random.shuffle] draw from the generator through
    [_randbelow]; the generator is an oracle read in order. *)

Module Random.

Record gen := { draws : nat -> nat; pos : nat }.

Definition Rand (A : Type) : Type := gen -> A * gen.

Definition ret {A} (a : A) : Rand A := fun g => (a, g).
Definition bind {A B} (m : Rand A) (k : A -> Rand B) : Rand B :=
  fun g => let (a, g') := m g in k a g'.

(** [_randbelow(n)] for [n > 0]: a number below [n]. *)
Definition randbelow (n : nat) : Rand nat :=
  fun g => (draws g (pos g) mod n, {| draws := draws g; pos := S (pos g) |}).

(** [random.choice(seq)] is [seq[_randbelow(len(seq))]]. *)
Definition choice (seq : list ascii) : Rand ascii :=
  bind (randbelow (length seq)) (fun i => ret (nth i seq zero)).

Fixpoint upd {A} (n : nat) (v : A) (l : list A) : list A :=
  match l, n with
  | [], _ => []
  | _ :: t, O => v :: t
  | h :: t, S n' => h :: upd n' v t
  end.

(** [x[i], x[j] = x[j], x[i]] *)
Definition swap (i j : nat) (x : list ascii) : list ascii :=
  upd j (nth i x zero) (upd i (nth j x zero) x).

(** The loop of [random.shuffle]:
    [for i in reversed(range(1, len(x))): j = randbelow(i + 1); swap]. *)
Fixpoint shuffle_from (i : nat) (x : list ascii) : Rand (list ascii) :=
  match i with
  | O => ret x
  | S i' => bind (randbelow (S i)) (fun j => shuffle_from i' (swap i j x))
  end.

Definition shuffle (x : list ascii) : Rand (list ascii) :=
  shuffle_from (length x - 1) x.

(** [n] successive [random.choice(seq)], in call order. *)
Fixpoint choices (n : nat) (seq : list ascii) : Rand (list ascii) :=
  match n with
  | O => ret []
  | S n' => bind (choice seq) (fun c =>
            bind (choices n' seq) (fun cs => ret (c :: cs)))
  end.

End Random.

(** ** OpenAIRegister._generate_password (register_service.py) *)

Module Password.
Import Random.

Definition upper : string := "ABCDEFGHJKLMNPQRSTUVWXYZ".
Definition lower : string := "abcdefghjkmnpqrstuvwxyz".
Definition digits : string := "23456789".
Definition specials : string := "!@#$%^&*".
Definition all_chars : string := upper ++ lower ++ digits.

Definition _generate_password : Rand string :=
  bind (choice (Py.chars upper)) (fun u =>
  bind (choice (Py.chars lower)) (fun l =>
  bind (choice (Py.chars digits)) (fun d =>
  bind (choice (Py.chars specials)) (fun s =>
  bind (choices 10 (Py.chars all_chars)) (fun fill =>
  bind (shuffle ([u; l; d; s] ++ fill)) (fun password_list =>
  ret (Py.join password_list))))))).

(** Character classes named by the password policy. *)
Definition is_uppercase (c : ascii) : bool := Py.between 65 90 c.
Definition is_lowercase (c : ascii) : bool := Py.between 97 122 c.
Definition is_digit (c : ascii) : bool := Py.between 48 57 c.
Definition is_special (c : ascii) : bool :=
  existsb (Ascii.eqb c) (Py.chars specials).
Definition ambiguous : list ascii := Py.chars "IOilo01".
Definition is_ambiguous (c : ascii) : bool := existsb (Ascii.eqb c) ambiguous.

End Password.

(** ** Exceptions, results and the environment *)

Module Exn.

(** The exception classes the sources distinguish.  Every one of them is
    caught by [except Exception] and by a bare [except]; only
    [ValueError] is singled out (by the account store's caller). *)
Inductive exn_class := Exception | ValueError | AttributeError | OtherError.

Record exn := mkExn { class : exn_class; str : string }.

Definition is_ValueError (e : exn) : bool :=
  match class e with ValueError => true | _ => false end.

End Exn.
Export Exn.

(** What a call into a collaborator does: return a value or raise. *)
Inductive outcome (A : Type) : Type :=
| Returns (a : A)
| Raises (e : exn).
Arguments Returns {A} a.
Arguments Raises {A} e.

(** *** The SMS provider (hero-sms.com handler API) *)

(** [HERO_SMS_STATUS] *)
Definition READY : Z := 1.
Definition RESEND : Z := 3.
Definition COMPLETE : Z := 6.
Definition CANCEL : Z := 8.

(** The query of one GET request, by [action]. *)
Inductive sms_request :=
| getNumberV2 (service country : option string) (maxPrice : option string)
| setStatus (status : Z) (id : Z)
| getStatus (id : Z).

(** A reply body.  [Text] is a plain-text answer (the status words of the
    API).  The others are what [get_number] makes of a reply that parses
    as data: the object answering [getNumberV2], of which the code reads
    [activationId] and [phoneNumber] ([NumberInfo]); an object that holds
    [activationId] but whose [phoneNumber] cannot be read
    ([NumberWithoutPhone], with the error that lookup raises); and data
    whose [activationId] cannot be read ([NoNumber], with the error that
    lookup raises). *)
Inductive body :=
| Text (s : string)
| NumberInfo (activationId : Z) (phoneNumber : string)
| NumberWithoutPhone (activationId : Z) (error : exn)
| NoNumber (error : exn).

(** One HTTP exchange: how long it took (ms) and how it ended. [HttpFail]
    carries [str(error)] of the exception raised inside [_api_request]'s
    [try] (transport errors, and [HTTP <status>: <text>] for a reply that
    is not [response.ok]). *)
Inductive http_reply :=
| HttpOk (b : body)
| HttpFail (msg : string).

Record http_exchange := { latency : N; reply : http_reply }.

(** *** The mailbox provider: what one [create] request yields *)
Inductive create_response :=
| CreateError (e : exn)
| CreateHttp (status : Z) (reason : string)
| CreateRefused (msg : string)
| CreateEmail (email : option string).

(** *** The browser page of one [OpenAIRegister] instance *)

Inductive onboarding_page :=
| OnboardingDone
| NoUsernameInput
| NoSubmitButton
| OnboardingError (e : exn).

(** Result of an in-page [fetch]: the [ok] flag and the error text. *)
Record fetch_result := { ok : bool; error_msg : string }.

Record page_script := {
  init_page : outcome unit;
  register_page : outcome bool;
  onboarding : onboarding_page;
  load_state : outcome unit;
  page_session_token : option string;
  page_access_token : option string;
  enroll_start : nat -> outcome fetch_result;
  reload_page : nat -> outcome unit;
  enroll_finish : outcome fetch_result;
  latest_access_token : option string;
  session_cookie : option string
}.

(** *** The account store (TokenManager and Database) *)

Record token_obj := {
  token_id : Z;
  token_email : string;
  token_st : option string;
  token_value : string
}.

Record store_script := {
  add_token : outcome token_obj;
  get_token_by_email : outcome (option token_obj);
  update_token : outcome unit;
  get_token : outcome token_obj
}.

(** *** The whole environment

    The collaborators are read in call order.  Two answers of the
    interpreter are taken from the environment as well: [float_of s] is
    [float(s)] as an f-string prints it, or the [ValueError] it raises;
    [no_data s] is the exception in which [eval(s)] followed by
    [json.loads(s)] ends for a text [s] that is no data. *)
Record World := {
  mail_create : nat -> create_response;
  sms_http : nat -> http_exchange;
  launch : nat -> outcome unit;
  page : nat -> page_script;
  store : nat -> store_script;
  random_draws : nat -> nat;
  float_of : string -> outcome string;
  no_data : string -> exn
}.

(** What the program did to the outside, most recent first. *)
Inductive event :=
| SmsGet (r : sms_request)
| MailCreate
| BrowserLaunch
| EnrollStart (phone : string)
| EnrollFinish (phone code : string)
| AddToken (email : string)
| UpdateToken (email : string).

(** The class of the SMS service object: [SourceClass] is
    [GrizzlySMSService] exactly as sms_service.py defines it; [AliasedClass]
    stands for a subclass that also binds the name [getNumber] to
    [get_number]. *)
Inductive sms_class := SourceClass | AliasedClass.

(** Fields of a [GrizzlySMSService] object. *)
Record sms_object := {
  klass : sms_class;
  api_key : string;
  service : option string;
  country : option string;
  max_price : option string;
  activation_id : option Z;
  phone_number : option string
}.

(** The mutable state: the clock (ms), how far each oracle has been read,
    the objects the flow works on, and the trace.  [sms_service_bound]
    tells whether the local variable [sms_service] of [register_one] is
    bound to the service object (it is [None] before the object is built
    and after the 1绑3 branch hands it to [shared_sms_service]). *)
Record State := {
  now : Z;
  mail_requests : nat;
  sms_exchanges : nat;
  launches : nat;
  starts : nat;
  reloads : nat;
  store_calls : nat;
  rng_pos : nat;
  temp_mail_email : option string;
  sms : sms_object;
  sms_service_bound : bool;
  trace : list event
}.

(** ** The state-and-exception monad *)

Inductive result (A : Type) : Type :=
| Ok (a : A)
| Raise (e : exn)
| Diverge.
Arguments Ok {A} a.
Arguments Raise {A} e.
Arguments Diverge {A}.

Definition M (A : Type) : Type := State -> result A * State.

Definition ret {A} (a : A) : M A := fun s => (Ok a, s).

Definition bind {A B} (m : M A) (k : A -> M B) : M B :=
  fun s => match m s with
           | (Ok a, s') => k a s'
           | (Raise e, s') => (Raise e, s')
           | (Diverge, s') => (Diverge, s')
           end.

Definition raise {A} (e : exn) : M A := fun s => (Raise e, s).

(** [try: m  except Exception as e: h e] (also the bare [except:]). *)
Definition try_except {A} (m : M A) (h : exn -> M A) : M A :=
  fun s => match m s with
           | (Raise e, s') => h e s'
           | r => r
           end.

(** [try: m  finally: f]: [f] runs on every way out; an exception of [f]
    replaces the pending outcome. *)
Definition try_finally {A} (m : M A) (f : M unit) : M A :=
  fun s => match m s with
           | (Diverge, s') => (Diverge, s')
           | (r, s') => match f s' with
                        | (Ok _, s'') => (r, s'')
                        | (Raise e, s'') => (Raise e, s'')
                        | (Diverge, s'') => (Diverge, s'')
                        end
           end.

Definition get : M State := fun s => (Ok s, s).
Definition modify (f : State -> State) : M unit := fun s => (Ok tt, f s).

Definition of_outcome {A} (o : outcome A) : M A :=
  match o with Returns a => ret a | Raises e => raise e end.

Declare Scope monad_scope.
Delimit Scope monad_scope with monad.
Notation "x <- m ;; k" := (bind m (fun x => k))
  (at level 61, m at next level, right associativity) : monad_scope.
Notation "m ;; k" := (bind m (fun _ => k))
  (at level 61, right associativity) : monad_scope.
Open Scope monad_scope.

Definition set_now (v : Z) (s : State) : State :=
  {| now := v;
     mail_requests := mail_requests s;
     sms_exchanges := sms_exchanges s;
     launches := launches s;
     starts := starts s;
     reloads := reloads s;
     store_calls := store_calls s;
     rng_pos := rng_pos s;
     temp_mail_email := temp_mail_email s;
     sms := sms s;
     sms_service_bound := sms_service_bound s;
     trace := trace s |}.

Definition set_mail_requests (v : nat) (s : State) : State :=
  {| now := now s;
     mail_requests := v;
     sms_exchanges := sms_exchanges s;
     launches := launches s;
     starts := starts s;
     reloads := reloads s;
     store_calls := store_calls s;
     rng_pos := rng_pos s;
     temp_mail_email := temp_mail_email s;
     sms := sms s;
     sms_service_bound := sms_service_bound s;
     trace := trace s |}.

Definition set_sms_exchanges (v : nat) (s : State) : State :=
  {| now := now s;
     mail_requests := mail_requests s;
     sms_exchanges := v;
     launches := launches s;
     starts := starts s;
     reloads := reloads s;
     store_calls := store_calls s;
     rng_pos := rng_pos s;
     temp_mail_email := temp_mail_email s;
     sms := sms s;
     sms_service_bound := sms_service_bound s;
     trace := trace s |}.

(** A new browser: its page starts from the beginning of its script. *)
Definition set_launches (v : nat) (s : State) : State :=
  {| now := now s;
     mail_requests := mail_requests s;
     sms_exchanges := sms_exchanges s;
     launches := v;
     starts := 0%nat;
     reloads := 0%nat;
     store_calls := store_calls s;
     rng_pos := rng_pos s;
     temp_mail_email := temp_mail_email s;
     sms := sms s;
     sms_service_bound := sms_service_bound s;
     trace := trace s |}.

Definition set_starts (v : nat) (s : State) : State :=
  {| now := now s;
     mail_requests := mail_requests s;
     sms_exchanges := sms_exchanges s;
     launches := launches s;
     starts := v;
     reloads := reloads s;
     store_calls := store_calls s;
     rng_pos := rng_pos s;
     temp_mail_email := temp_mail_email s;
     sms := sms s;
     sms_service_bound := sms_service_bound s;
     trace := trace s |}.

Definition set_reloads (v : nat) (s : State) : State :=
  {| now := now s;
     mail_requests := mail_requests s;
     sms_exchanges := sms_exchanges s;
     launches := launches s;
     starts := starts s;
     reloads := v;
     store_calls := store_calls s;
     rng_pos := rng_pos s;
     temp_mail_email := temp_mail_email s;
     sms := sms s;
     sms_service_bound := sms_service_bound s;
     trace := trace s |}.

Definition set_store_calls (v : nat) (s : State) : State :=
  {| now := now s;
     mail_requests := mail_requests s;
     sms_exchanges := sms_exchanges s;
     launches := launches s;
     starts := starts s;
     reloads := reloads s;
     store_calls := v;
     rng_pos := rng_pos s;
     temp_mail_email := temp_mail_email s;
     sms := sms s;
     sms_service_bound := sms_service_bound s;
     trace := trace s |}.

Definition set_rng_pos (v : nat) (s : State) : State :=
  {| now := now s;
     mail_requests := mail_requests s;
     sms_exchanges := sms_exchanges s;
     launches := launches s;
     starts := starts s;
     reloads := reloads s;
     store_calls := store_calls s;
     rng_pos := v;
     temp_mail_email := temp_mail_email s;
     sms := sms s;
     sms_service_bound := sms_service_bound s;
     trace := trace s |}.

Definition set_temp_mail_email (v : option string) (s : State) : State :=
  {| now := now s;
     mail_requests := mail_requests s;
     sms_exchanges := sms_exchanges s;
     launches := launches s;
     starts := starts s;
     reloads := reloads s;
     store_calls := store_calls s;
     rng_pos := rng_pos s;
     temp_mail_email := v;
     sms := sms s;
     sms_service_bound := sms_service_bound s;
     trace := trace s |}.

Definition set_sms (v : sms_object) (s : State) : State :=
  {| now := now s;
     mail_requests := mail_requests s;
     sms_exchanges := sms_exchanges s;
     launches := launches s;
     starts := starts s;
     reloads := reloads s;
     store_calls := store_calls s;
     rng_pos := rng_pos s;
     temp_mail_email := temp_mail_email s;
     sms := v;
     sms_service_bound := sms_service_bound s;
     trace := trace s |}.

Definition set_sms_service_bound (v : bool) (s : State) : State :=
  {| now := now s;
     mail_requests := mail_requests s;
     sms_exchanges := sms_exchanges s;
     launches := launches s;
     starts := starts s;
     reloads := reloads s;
     store_calls := store_calls s;
     rng_pos := rng_pos s;
     temp_mail_email := temp_mail_email s;
     sms := sms s;
     sms_service_bound := v;
     trace := trace s |}.

Definition set_trace (v : list event) (s : State) : State :=
  {| now := now s;
     mail_requests := mail_requests s;
     sms_exchanges := sms_exchanges s;
     launches := launches s;
     starts := starts s;
     reloads := reloads s;
     store_calls := store_calls s;
     rng_pos := rng_pos s;
     temp_mail_email := temp_mail_email s;
     sms := sms s;
     sms_service_bound := sms_service_bound s;
     trace := v |}.

(** [await asyncio.sleep(ms / 1000)]: a non-positive delay returns at once. *)
Definition sleep (ms : Z) : M unit :=
  modify (fun s => set_now (now s + Z.max 0 ms) s).

Definition emit (e : event) : M unit :=
  modify (fun s => set_trace (e :: trace s) s).

(** [str(n)] for an integer. *)
Definition str_of_Z (z : Z) : string := NilZero.string_of_int (Z.to_int z).


(** ** TempMailService (tempmail_service.py) *)

Module TempMailService.

Definition BLOCKED_SUFFIXES : list string := [".top"].

(** [is_email_supported]: [None] stands for a JSON [null] address. *)
Definition is_email_supported (email : option string) : bool :=
  match email with
  | None => false
  | Some e =>
      if negb (Py.truthy e) then false
      else forallb (fun suffix => negb (Py.endswith (Py.lower e) suffix))
                   BLOCKED_SUFFIXES
  end.

(** What the body of the [try] of one attempt comes to. *)
Inductive attempt_result :=
| Return (email : string)
| Continue
| Failed (e : exn).

Definition attempt_body (r : create_response) : attempt_result :=
  match r with
  | CreateError e => Failed e
  | CreateHttp status reason =>
      Failed (mkExn Exception ("HTTP " ++ str_of_Z status ++ ": " ++ reason))
  | CreateRefused msg => Failed (mkExn Exception ("API 错误: " ++ msg))
  | CreateEmail email =>
      if negb (is_email_supported email) then Continue
      else match email with Some e => Return e | None => Continue end
  end.

Section WithWorld.
Variable w : World.

(** One [GET .../create]. *)
Definition create : M create_response :=
  s <- get ;;
  modify (set_mail_requests (S (mail_requests s))) ;;
  emit MailCreate ;;
  ret (mail_create w (mail_requests s)).

(** The [for attempt in range(1, max_retries + 1)] loop, with [remaining]
    iterations to go; [attempt] is [max_retries - remaining + 1]. *)
Fixpoint get_email_loop (max_retries remaining : nat) : M string :=
  match remaining with
  | O => raise (mkExn Exception "获取有效邮箱失败，已达最大重试次数")
  | S remaining' =>
      let attempt := (max_retries - remaining')%nat in
      r <- create ;;
      match attempt_body r with
      | Return email =>
          modify (set_temp_mail_email (Some email)) ;;
          ret email
      | Continue => get_email_loop max_retries remaining'
      | Failed error =>
          if (attempt =? max_retries)%nat then raise error
          else sleep 1000 ;; get_email_loop max_retries remaining'
      end
  end.

Definition get_email_address (max_retries : nat) : M string :=
  get_email_loop max_retries max_retries.

End WithWorld.

(** [init] of a service built with [api_key]. *)
Definition init (api_key : string) : M unit :=
  if negb (Py.truthy api_key) || String.eqb api_key "YOUR_API_KEY"
  then raise (mkExn Exception "JUHE_API_KEY 未设置，请在配置中设置")
  else ret tt.

(** [close]: forget the address. *)
Definition close : M unit := modify (set_temp_mail_email None).

(** *** extract_code_from_content

    A content is a Python [str], a sequence of code points.  The nine
    patterns use literals, the classes [\d], [\s] and [[:\s]], greedy
    [*] and [+] on a class, the group [(\d{6})] and [\b].  On ASCII the
    classes are written out; beyond ASCII they are what the Unicode
    database of the running Python says, which the model takes as
    [db]. *)

Record unicode := {
  isdecimal : N -> bool;   (* [str.isdecimal]: beyond ASCII, [\d] *)
  isspace : N -> bool;     (* [str.isspace]: beyond ASCII, [\s] *)
  isalnum : N -> bool      (* [str.isalnum]: beyond ASCII, [\w] *)
}.

Definition within (lo hi c : N) : bool := (lo <=? c)%N && (c <=? hi)%N.

(** The lower-case form of an ASCII capital. *)
Definition fold_ascii (c : N) : N :=
  if within 65 90 c then (c + 32)%N else c.

(** With [re.IGNORECASE] an ASCII letter of a pattern matches, beyond its
    two ASCII cases: for [i], the dotted capital U+0130 and the dotless
    small U+0131; for [s], the long s U+017F; for [k], the Kelvin sign
    U+212A. *)
Definition also_matches (l c : N) : bool :=
  (N.eqb (fold_ascii l) 105 && (N.eqb c 304 || N.eqb c 305)) ||
  (N.eqb (fold_ascii l) 115 && N.eqb c 383) ||
  (N.eqb (fold_ascii l) 107 && N.eqb c 8490).

(** A literal [l] of a pattern against the character [c], case ignored.
    The literals beyond ASCII are the three of [验证码], which have no
    case. *)
Definition lit_match (l c : N) : bool :=
  if (l <? 128)%N then
    if (c <? 128)%N then N.eqb (fold_ascii l) (fold_ascii c)
    else also_matches l c
  else N.eqb l c.

Inductive char_class := Digit | Space | ColonOrSpace.

Inductive item :=
| Lit (c : N)                (* a literal of the pattern, case ignored *)
| Star (k : char_class)      (* k* , greedy *)
| Plus (k : char_class)      (* k+ , greedy *)
| Group6                     (* (\d{6}) *)
| WordB.                     (* \b *)

Definition pattern := list item.

Definition lits (s : string) : pattern := map Lit (Py.codes s).

(** [验证码] *)
Definition yanzhengma : pattern := [Lit 39564; Lit 35777; Lit 30721].

Definition code_patterns : list pattern :=
  [ (lits "code is " ++ [Group6])%list;
    (lits "code" ++ [Plus ColonOrSpace; Group6])%list;
    (lits "verification code" ++ [Plus ColonOrSpace; Group6])%list;
    (lits "verify" ++ [Plus ColonOrSpace; Group6])%list;
    (yanzhengma ++ [Star ColonOrSpace; Group6])%list;
    (lits "Your code is" ++ [Star ColonOrSpace; Group6])%list;
    (lits "Enter this code" ++ [Star ColonOrSpace; Group6])%list;
    [Lit 62; Star Space; Group6; Star Space; Lit 60];
    [WordB; Group6; WordB] ].

(** Fewest characters a match of the pattern consumes. *)
Definition min_len_item (i : item) : nat :=
  match i with
  | Lit _ | Plus _ => 1
  | Star _ | WordB => 0
  | Group6 => 6
  end.

Definition min_len (p : pattern) : nat :=
  fold_right (fun i n => (min_len_item i + n)%nat) 0%nat p.

Definition has_group (p : pattern) : bool :=
  existsb (fun i => match i with Group6 => true | _ => false end) p.

Section Regex.
Variable db : unicode.

(** [\d] *)
Definition is_digit (c : N) : bool :=
  if (c <? 128)%N then within 48 57 c else isdecimal db c.

(** [\s] *)
Definition is_space (c : N) : bool :=
  if (c <? 128)%N then within 9 13 c || within 28 32 c else isspace db c.

(** [\w]: alphanumerics and the underscore; a decimal digit is
    alphanumeric. *)
Definition is_word (c : N) : bool :=
  if (c <? 128)%N then
    within 48 57 c || within 65 90 c || within 97 122 c || N.eqb c 95
  else isdecimal db c || isalnum db c.

Definition in_class (k : char_class) (c : N) : bool :=
  match k with
  | Digit => is_digit c
  | Space => is_space c
  | ColonOrSpace => N.eqb c 58 || is_space c
  end.

Definition word_before (prev : option N) : bool :=
  match prev with Some c => is_word c | None => false end.

Definition word_after (s : Py.text) : bool :=
  match s with c :: _ => is_word c | [] => false end.

(** Six digits at the head of [s]: the digits and the rest. *)
Definition six_digits (s : Py.text) : option (Py.text * Py.text) :=
  match s with
  | a :: b :: c :: d :: e :: f :: rest =>
      if forallb is_digit [a; b; c; d; e; f]
      then Some ([a; b; c; d; e; f], rest) else None
  | _ => None
  end.

(** Greedy repetition with backtracking: take one more character of the
    class if that lets the rest match, else stop here. *)
Fixpoint star (k : char_class)
         (cont : option N -> Py.text -> option Py.text)
         (prev : option N) (s : Py.text) : option Py.text :=
  match s with
  | c :: s' =>
      if in_class k c then
        match star k cont (Some c) s' with
        | Some g => Some g
        | None => cont prev s
        end
      else cont prev s
  | [] => cont prev s
  end.

(** Match [p] at the head of [s]; [prev] is the character before, [cap]
    the group captured so far.  Returns group 1. *)
Fixpoint match_here (p : pattern) (cap : Py.text)
         (prev : option N) (s : Py.text) : option Py.text :=
  match p with
  | [] => Some cap
  | Lit l :: p' =>
      match s with
      | c :: s' => if lit_match l c then match_here p' cap (Some c) s' else None
      | [] => None
      end
  | Star k :: p' => star k (match_here p' cap) prev s
  | Plus k :: p' =>
      match s with
      | c :: s' =>
          if in_class k c then star k (match_here p' cap) (Some c) s' else None
      | [] => None
      end
  | Group6 :: p' =>
      match six_digits s with
      | Some (g, rest) => match_here p' g (Some (last g 0%N)) rest
      | None => None
      end
  | WordB :: p' =>
      if xorb (word_before prev) (word_after s)
      then match_here p' cap prev s else None
  end.

(** [re.search(pattern, content, re.IGNORECASE)] then [match.group(1)]:
    the leftmost position where the pattern matches. *)
Fixpoint search_from (p : pattern) (prev : option N) (s : Py.text)
  : option Py.text :=
  match match_here p [] prev s with
  | Some g => Some g
  | None =>
      match s with
      | [] => None
      | c :: s' => search_from p (Some c) s'
      end
  end.

Definition re_search (p : pattern) (content : Py.text) : option Py.text :=
  search_from p None content.

(** The [for pattern in code_patterns] loop. *)
Fixpoint first_match (ps : list pattern) (content : Py.text) : option Py.text :=
  match ps with
  | [] => None
  | p :: ps' =>
      match re_search p content with
      | Some g => Some g
      | None => first_match ps' content
      end
  end.

Definition extract_code_from_content (content : Py.text) : option Py.text :=
  if negb (Py.nonempty content) then None
  else first_match code_patterns content.

(** [match.start()] of [re.search]: offset of the leftmost match. *)
Fixpoint search_start (p : pattern) (prev : option N) (s : Py.text)
  : option nat :=
  match match_here p [] prev s with
  | Some _ => Some 0%nat
  | None =>
      match s with
      | [] => None
      | c :: s' => option_map S (search_start p (Some c) s')
      end
  end.

(** A captured code: exactly six decimal digits. *)
Definition is_six (g : Py.text) : Prop :=
  length g = 6%nat /\ forallb is_digit g = true.

End Regex.

End TempMailService.

(** ** GrizzlySMSService (sms_service.py) *)

Module GrizzlySMSService.

(** Names bound in the body of [class GrizzlySMSService]. *)
Definition class_names : list string :=
  [ "__init__"; "init"; "_api_request"; "get_balance"; "get_number";
    "set_status"; "get_status"; "set_ready"; "resend_sms"; "set_complete";
    "cancel"; "wait_for_verification_code"; "get_phone_number";
    "get_activation_id"; "close" ].

(** Attribute lookup on an instance of the given class. *)
Definition has_attr (c : sms_class) (name : string) : bool :=
  existsb (String.eqb name) class_names ||
  match c with
  | SourceClass => false
  | AliasedClass => String.eqb name "getNumber"
  end.

(** [HERO_SMS_RESPONSE_STATUS] *)
Definition STATUS_WAIT_CODE : string := "STATUS_WAIT_CODE".
Definition STATUS_WAIT_RETRY : string := "STATUS_WAIT_RETRY".
Definition STATUS_WAIT_RESEND : string := "STATUS_WAIT_RESEND".
Definition STATUS_CANCEL : string := "STATUS_CANCEL".
Definition STATUS_OK : string := "STATUS_OK".

(** The dict returned by [get_status], by its [status] entry. *)
Inductive status_info :=
| WAIT_CODE
| WAIT_RETRY (lastCode : option string)
| WAIT_RESEND
| CANCELLED
| OK (code : option string)
| UNKNOWN (message : string).

Record number_info := { activationId : Z; phoneNumber : string }.

(** The text of a reply; a JSON object is none of the words compared. *)
Definition text_of (b : body) : string :=
  match b with
  | Text s => s
  | NumberInfo _ _ => "{activationId, phoneNumber}"
  | NumberWithoutPhone _ _ => "{activationId}"
  | NoNumber _ => "{}"
  end.

(** [a or b] on optional strings. *)
Definition py_or (a b : option string) : option string :=
  match a with
  | Some x => if Py.truthy x then a else b
  | None => b
  end.

(** [activation_id or self.activation_id] followed by [if not id]. *)
Definition truthy_id (id : option Z) : option Z :=
  match id with
  | Some z => if (z =? 0)%Z then None else Some z
  | None => None
  end.

(** [s.split(":")[1]] when there is a second part. *)
Fixpoint until_colon (s : list ascii) : list ascii :=
  match s with
  | [] => []
  | c :: s' => if Ascii.eqb c ":" then [] else c :: until_colon s'
  end.

Fixpoint after_colon (s : list ascii) : option (list ascii) :=
  match s with
  | [] => None
  | c :: s' => if Ascii.eqb c ":" then Some s' else after_colon s'
  end.

Definition second_part (s : string) : option string :=
  match after_colon (Py.chars s) with
  | Some rest => Some (Py.join (until_colon rest))
  | None => None
  end.

(** [timeout / 1000] as the f-string prints it, for a whole number of
    milliseconds. *)
Definition seconds_text (timeout : Z) : string :=
  let a := Z.abs timeout in
  let frac := (a mod 1000)%Z in
  let d1 := (frac / 100)%Z in
  let d2 := ((frac / 10) mod 10)%Z in
  let d3 := (frac mod 10)%Z in
  ((if (timeout <? 0)%Z then "-" else "") ++ str_of_Z (a / 1000) ++ "." ++
   (if (d3 =? 0)%Z then
      if (d2 =? 0)%Z then str_of_Z d1 else str_of_Z d1 ++ str_of_Z d2
    else str_of_Z d1 ++ str_of_Z d2 ++ str_of_Z d3))%string.

Definition network_keywords : list string :=
  ["network"; "connection"; "timeout"; "econnrefused"; "etimedout"].

(** [any(keyword in str(error).lower() for keyword in [...])] *)
Definition is_network_error (msg : string) : bool :=
  existsb (fun keyword => Py.contains keyword (Py.lower_text msg)) network_keywords.

(** ["超时" in str(error) or "timeout" in str(error).lower()] *)
Definition is_timeout_error (error : exn) : bool :=
  Py.contains "超时" (str error) || Py.contains "timeout" (Py.lower (str error)).

Definition diverge {A} : M A := fun s => (Diverge, s).

Definition set_fields (id : option Z) (phone : option string)
           (svc ctry : option string) (o : sms_object) : sms_object :=
  {| klass := klass o; api_key := api_key o; service := svc; country := ctry;
     max_price := max_price o; activation_id := id; phone_number := phone |}.

Section WithWorld.
Variable w : World.

Definition init : M unit :=
  s <- get ;;
  if negb (Py.truthy (api_key (sms s)))
  then raise (mkExn Exception "HERO_SMS_API_KEY 未设置，请在配置中设置")
  else ret tt.

(** One [session.get]: the request goes out, the exchange takes its time. *)
Definition http_get (r : sms_request) : M http_reply :=
  s <- get ;;
  modify (set_sms_exchanges (S (sms_exchanges s))) ;;
  emit (SmsGet r) ;;
  sleep (Z.of_N (latency (sms_http w (sms_exchanges s)))) ;;
  ret (reply (sms_http w (sms_exchanges s))).

(** The [for attempt in range(1, retries + 1)] loop of [_api_request];
    [attempt] is [retries - remaining + 1]. *)
Fixpoint api_attempts (r : sms_request) (retries remaining : nat) : M body :=
  match remaining with
  | O => raise (mkExn Exception "API 请求失败")
  | S remaining' =>
      let attempt := (retries - remaining')%nat in
      x <- http_get r ;;
      match x with
      | HttpOk b => ret b
      | HttpFail msg =>
          let error := mkExn Exception msg in
          if (attempt =? retries)%nat then raise error
          else if is_network_error msg then
                 sleep (Z.of_nat attempt * 1000) ;;
                 api_attempts r retries remaining'
               else raise error
      end
  end.

(** [_api_request(params)] with the default [retries = 3]. *)
Definition _api_request (r : sms_request) : M body := api_attempts r 3 3.

(** [get_number(service, country, max_price)].  A [Text] reply that is
    none of the error words is a text that yields no data: parsing it
    ends in [no_data]. *)
Definition get_number (service_arg country_arg max_price_arg : option string)
  : M number_info :=
  s <- get ;;
  let final_service := py_or service_arg (service (sms s)) in
  let final_country := py_or country_arg (country (sms s)) in
  let final_max_price :=
    match max_price_arg with
    | Some p => Some p
    | None => max_price (sms s)
    end in
  response <- _api_request (getNumberV2 final_service final_country final_max_price) ;;
  match response with
  | Text t =>
      if String.eqb t "BAD_KEY" then
        raise (mkExn Exception "API 密钥不正确")
      else if String.eqb t "NO_NUMBERS" then
        raise (mkExn Exception "没有可用号码，请稍后重试或更换国家")
      else if Py.contains "prohibited for sale" t then
        raise (mkExn Exception "该服务被禁止销售，请选择其他服务")
      else if String.eqb t "SERVICE_UNAVAILABLE_REGION" then
        raise (mkExn Exception "您所在地区的访问受限，请使用其他地区的 IP 地址")
      else if Py.startswith t "WRONG_MAX_PRICE:" then
        match second_part t with
        | Some price =>
            actual_price <- of_outcome (float_of w price) ;;
            raise (mkExn Exception
              ("最高价格设置过低，实际价格为 " ++ actual_price ++
               "，请提高 maxPrice 参数或设置为 null"))
        | None => raise (mkExn OtherError "list index out of range")
        end
      else raise (no_data w t)
  | NumberInfo id phone =>
      modify (fun s' => set_sms
                (set_fields (Some id) (Some phone) final_service final_country
                            (sms s')) s') ;;
      ret {| activationId := id; phoneNumber := phone |}
  | NumberWithoutPhone id error =>
      (* [self.activation_id = data["activationId"]] has run when
         [data["phoneNumber"]] raises *)
      modify (fun s' => set_sms
                (set_fields (Some id) (phone_number (sms s')) (service (sms s'))
                            (country (sms s')) (sms s')) s') ;;
      raise error
  | NoNumber error => raise error
  end.

(** [set_status(status)]; no caller passes [activation_id] or [forward]. *)
Definition set_status (status : Z) : M body :=
  s <- get ;;
  match truthy_id (activation_id (sms s)) with
  | None => raise (mkExn Exception "激活ID不存在，请先申请号码")
  | Some id =>
      response <- _api_request (setStatus status id) ;;
      if String.eqb (text_of response) "BAD_KEY" then
        raise (mkExn Exception "API 密钥不正确")
      else if String.eqb (text_of response) "NO_ACTIVATION" then
        raise (mkExn Exception "激活ID不存在")
      else if String.eqb (text_of response) "BAD_STATUS" then
        raise (mkExn Exception "状态不正确")
      else ret response
  end.

Definition get_status : M status_info :=
  s <- get ;;
  match truthy_id (activation_id (sms s)) with
  | None => raise (mkExn Exception "激活ID不存在，请先申请号码")
  | Some id =>
      b <- _api_request (getStatus id) ;;
      let response := text_of b in
      if String.eqb response "BAD_KEY" then
        raise (mkExn Exception "API 密钥不正确")
      else if String.eqb response "NO_ACTIVATION" then
        raise (mkExn Exception "激活ID不存在")
      else if String.eqb response "BAD_ACTION" then
        raise (mkExn Exception "操作不正确")
      else if String.eqb response "SERVICE_UNAVAILABLE_REGION" then
        raise (mkExn Exception "您所在地区的访问受限")
      else if String.eqb response STATUS_WAIT_CODE then ret WAIT_CODE
      else if Py.startswith response STATUS_WAIT_RETRY then
        ret (WAIT_RETRY (second_part response))
      else if String.eqb response STATUS_WAIT_RESEND then ret WAIT_RESEND
      else if String.eqb response STATUS_CANCEL then ret CANCELLED
      else if Py.startswith response STATUS_OK then ret (OK (second_part response))
      else ret (UNKNOWN response)
  end.

Definition set_ready : M body := set_status READY.

Definition resend_sms : M body := set_status RESEND.

(** [set_complete] and [cancel] swallow a failure and return [None]. *)
Definition set_complete : M (option body) :=
  try_except (response <- set_status COMPLETE ;; ret (Some response))
             (fun _ => ret None).

Definition cancel : M (option body) :=
  try_except (response <- set_status CANCEL ;; ret (Some response))
             (fun _ => ret None).

Definition get_phone_number : M (option string) :=
  s <- get ;; ret (phone_number (sms s)).

(** One turn of the [while] body of [wait_for_verification_code]:
    [Some code] returns, [None] goes round again. *)
Definition poll_once (poll_interval : Z) : M (option string) :=
  try_except
    (status_info <- get_status ;;
     match status_info with
     | OK (Some code) =>
         if Py.truthy code then ret (Some code)
         else sleep poll_interval ;; ret None
     | WAIT_RESEND =>
         try_except (set_status RESEND ;; ret tt) (fun _ => ret tt) ;;
         sleep poll_interval ;; ret None
     | CANCELLED => raise (mkExn Exception "接码已被取消")
     | _ => sleep poll_interval ;; ret None
     end)
    (fun error =>
       if is_timeout_error error then sleep poll_interval ;; ret None
       else raise error).

(** The [while elapsed < timeout] loop, run for at most [fuel] turns. *)
Fixpoint wait_loop (fuel : nat) (start_time timeout poll_interval : Z)
  : M string :=
  s <- get ;;
  if (now s - start_time <? timeout)%Z then
    match fuel with
    | O => diverge
    | S fuel' =>
        r <- poll_once poll_interval ;;
        match r with
        | Some code => ret code
        | None => wait_loop fuel' start_time timeout poll_interval
        end
    end
  else raise (mkExn Exception
                ("等待验证码超时 (" ++ seconds_text timeout ++ " 秒)")).

Definition wait_for_verification_code (fuel : nat) (timeout poll_interval : Z)
  : M string :=
  s <- get ;;
  match truthy_id (activation_id (sms s)) with
  | None => raise (mkExn Exception "激活ID不存在，请先申请号码")
  | Some _ => wait_loop fuel (now s) timeout poll_interval
  end.

Definition close : M unit :=
  s <- get ;;
  match truthy_id (activation_id (sms s)) with
  | Some _ => cancel ;; ret tt
  | None => ret tt
  end ;;
  modify (fun s' => set_sms (set_fields None None None None (sms s')) s').

End WithWorld.

(** Turns of the polling loop that can start within [timeout] when every
    turn sleeps [poll_interval > 0]. *)
Definition turns (timeout poll_interval : Z) : nat :=
  Z.to_nat (Z.max 0 timeout / poll_interval + 1).

End GrizzlySMSService.

(** ** OpenAIRegister (register_service.py)

    The browser-driving steps are read from the page script of the
    current browser; what the methods do with the outcomes follows the
    source. *)

Module OpenAIRegister.

(** The dict returned by [_handle_phone_verification]. *)
Record phone_result := {
  accessToken : option string;
  sessionToken : option string
}.

Definition truthy_opt (o : option string) : bool :=
  match o with Some x => Py.truthy x | None => false end.

Section WithWorld.
Variable w : World.

(** The page of the browser launched last. *)
Definition current_page : M page_script :=
  s <- get ;; ret (page w (launches s - 1)).

Definition init : M unit :=
  pg <- current_page ;; of_outcome (init_page pg).

(** [register(email, password, get_verification_code)] *)
Definition register (email password : string) : M bool :=
  pg <- current_page ;; of_outcome (register_page pg).

(** [close] logs its own failures and never raises. *)
Definition close : M unit := ret tt.

(** [_handle_sora_onboarding]: the [except] clause takes a screenshot and
    re-raises. *)
Definition _handle_sora_onboarding (email : string) : M bool :=
  pg <- current_page ;;
  match onboarding pg with
  | OnboardingDone => ret true
  | NoUsernameInput => raise (mkExn Exception "找不到用户名输入框")
  | NoSubmitButton => raise (mkExn Exception "找不到提交按钮")
  | OnboardingError e => raise e
  end.

(** [get_session_token()["sessionToken"]] *)
Definition get_session_token : M (option string) :=
  pg <- current_page ;; ret (page_session_token pg).

(** [session_to_access_token(session_token)["accessToken"]] *)
Definition session_to_access_token (session_token : option string)
  : M (option string) :=
  if negb (truthy_opt session_token) then ret None
  else pg <- current_page ;; ret (page_access_token pg).

(** [sms_service.getNumber(...)], as the three call sites spell it: the
    attribute is looked up on the service object; where it is bound it is
    [get_number], called with [max_price] only. *)
Definition getNumber (max_price_arg : option string)
  : M GrizzlySMSService.number_info :=
  s <- get ;;
  if GrizzlySMSService.has_attr (klass (sms s)) "getNumber"
  then GrizzlySMSService.get_number w None None max_price_arg
  else raise (mkExn AttributeError
                "'GrizzlySMSService' object has no attribute 'getNumber'").

(** The in-page [fetch] of [.../phone_number/enroll/start]. *)
Definition start_request (formatted_phone : string) : M fetch_result :=
  s <- get ;;
  pg <- current_page ;;
  modify (set_starts (S (starts s))) ;;
  emit (EnrollStart formatted_phone) ;;
  of_outcome (enroll_start pg (starts s)).

(** The in-page [fetch] of [.../phone_number/enroll/finish]. *)
Definition finish_request (formatted_phone verification_code : string)
  : M fetch_result :=
  pg <- current_page ;;
  emit (EnrollFinish formatted_phone verification_code) ;;
  of_outcome (enroll_finish pg).

Definition reload : M unit :=
  s <- get ;;
  pg <- current_page ;;
  modify (set_reloads (S (reloads s))) ;;
  of_outcome (reload_page pg (reloads s)).

(** Step 2 of [_handle_phone_verification]: the number to verify. *)
Definition obtain_number (reuse_phone : bool) : M string :=
  if reuse_phone then
    phone_number <- GrizzlySMSService.get_phone_number ;;
    if negb (truthy_opt phone_number) then
      raise (mkExn Exception "复用手机号失败：SMS 服务中没有已激活的手机号")
    else
      GrizzlySMSService.resend_sms w ;;
      sleep 3000 ;;
      ret (match phone_number with Some p => p | None => "" end)
  else
    number_info <-
      try_except (getNumber None)
        (fun error =>
           if Py.contains "最高价格设置过低" (str error)
           then getNumber None
           else raise error) ;;
    GrizzlySMSService.set_ready w ;;
    ret (GrizzlySMSService.phoneNumber number_info).

(** What a timed-out wait is followed by when retries remain: cancel,
    lease again, announce, reload, start again.  Returns the new
    [formatted_phone]. *)
Definition rotate_number : M string :=
  try_except (GrizzlySMSService.cancel w ;; ret tt) (fun _ => ret tt) ;;
  number_info <- getNumber None ;;
  let formatted_phone := "+" ++ GrizzlySMSService.phoneNumber number_info in
  GrizzlySMSService.set_ready w ;;
  reload ;;
  sleep 2000 ;;
  start_response <- start_request formatted_phone ;;
  if negb (ok start_response)
  then raise (mkExn Exception "重新发起 Start 请求失败")
  else ret formatted_phone.

Definition max_retries : nat := 3.

(** The [while not verification_code and retry_count < max_retries] loop,
    entered with [retry_count = max_retries - remaining].  Returns the
    code and the number it was sent to. *)
Fixpoint await_code (remaining : nat) (formatted_phone : string)
  : M (string * string) :=
  match remaining with
  | O => raise (mkExn Exception "未能获取验证码")
  | S remaining' =>
      try_except
        (verification_code <-
           GrizzlySMSService.wait_for_verification_code w
             (GrizzlySMSService.turns 60000 3000) 60000 3000 ;;
         ret (verification_code, formatted_phone))
        (fun error =>
           if GrizzlySMSService.is_timeout_error error then
             let retry_count := (max_retries - remaining')%nat in
             if (retry_count <? max_retries)%nat then
               formatted_phone' <- rotate_number ;;
               await_code remaining' formatted_phone'
             else
               raise (mkExn Exception
                        ("等待验证码超时，已重试 " ++
                         str_of_Z (Z.of_nat max_retries) ++ " 次"))
           else raise error)
  end.

(** Steps 4 to 12 of [_handle_phone_verification]: tokens, start request,
    wait for the code, finish request, completion, token refresh.  (The
    refresh waits up to 15 s for the page; only its outcome is read.) *)
Definition enroll (phone_number : string) (set_complete : bool)
  : M phone_result :=
  pg <- current_page ;;
  let formatted_phone := "+" ++ phone_number in
  session_token0 <- get_session_token ;;
  if negb (truthy_opt session_token0) then
    raise (mkExn Exception "无法获取 Session Token")
  else
  access_token <- session_to_access_token session_token0 ;;
  if negb (truthy_opt access_token) then
    raise (mkExn Exception "无法获取 Access Token")
  else
  start_response <- start_request formatted_phone ;;
  if negb (ok start_response) then
    raise (mkExn Exception ("Start 请求失败: " ++ error_msg start_response))
  else
  found <- await_code max_retries formatted_phone ;;
  let (verification_code, formatted_phone') := found in
  finish_response <- finish_request formatted_phone' verification_code ;;
  if negb (ok finish_response) then
    raise (mkExn Exception ("Finish 请求失败: " ++ error_msg finish_response))
  else
  (if set_complete then GrizzlySMSService.set_complete w ;; ret tt else ret tt) ;;
  sleep 2000 ;;
  let session_token := session_cookie pg in
  if truthy_opt (latest_access_token pg) then
    ret {| accessToken := latest_access_token pg; sessionToken := session_token |}
  else if truthy_opt access_token then
    ret {| accessToken := access_token; sessionToken := session_token |}
  else raise (mkExn Exception "无法获取 accessToken，无法保存账号信息").

Definition _handle_phone_verification
           (email : string) (reuse_phone set_complete : bool)
  : M phone_result :=
  sleep 10000 ;;
  pg <- current_page ;;
  of_outcome (load_state pg) ;;
  GrizzlySMSService.init ;;
  phone_number <- obtain_number reuse_phone ;;
  enroll phone_number set_complete.

End WithWorld.

End OpenAIRegister.

(** ** RegisterFlowService.register_one (register_flow.py) *)

Module RegisterFlowService.

(** The fields of [self] that [register_one] reads.  After [__init__]
    the three SMS settings are never [None]. *)
Record self_fields := {
  tempmail_api_key : string;
  sms_api_key : string;
  sms_service : string;
  sms_country : string;
  sms_max_price : string
}.

(** The entries of an account dict that the statements refer to. *)
Record account_info := {
  email : string;
  session_token : option string;
  access_token : string
}.

(** The dict [register_one] returns. *)
Record register_result := {
  success : bool;
  accounts : list account_info;
  count : nat
}.

Definition account_of (token_obj : token_obj) : account_info :=
  {| email := token_email token_obj;
     session_token := token_st token_obj;
     access_token := token_value token_obj |}.

(** [accounts[-3:] if len(accounts) >= 3 else accounts] *)
Definition result_accounts (accounts : list account_info) : list account_info :=
  if (3 <=? length accounts)%nat
  then skipn (length accounts - 3) accounts
  else accounts.

Section WithWorld.
Variable w : World.
(** The class the name [GrizzlySMSService] is bound to. *)
Variable sms_cls : sms_class.
Variable self : self_fields.

(** [browser = await p.chromium.launch(...)] *)
Definition launch_browser : M unit :=
  s <- get ;;
  modify (set_launches (S (launches s))) ;;
  emit BrowserLaunch ;;
  of_outcome (launch w (launches s)).

(** [temp_mail = TempMailService(self.tempmail_api_key); await temp_mail.init()] *)
Definition new_temp_mail : M unit :=
  modify (set_temp_mail_email None) ;;
  TempMailService.init (tempmail_api_key self).

(** [sms_service = GrizzlySMSService(self.sms_api_key, ...)] *)
Definition new_sms_service (final_service final_country final_max_price : option string)
  : M unit :=
  modify (fun s =>
    set_sms_service_bound true
      (set_sms {| klass := sms_cls; api_key := sms_api_key self;
                  service := final_service; country := final_country;
                  max_price := final_max_price;
                  activation_id := None; phone_number := None |} s)).

(** [register._generate_password()], drawing from the world's generator. *)
Definition _generate_password : M string :=
  s <- get ;;
  let (password, g) :=
    Password._generate_password
      {| Random.draws := random_draws w; Random.pos := rng_pos s |} in
  modify (set_rng_pos (Random.pos g)) ;;
  ret password.

(** [token_manager.add_token(...)] with its [except ValueError] fallback
    to [update_token] for an account that is already stored. *)
Definition save_account (email : string) : M token_obj :=
  s <- get ;;
  let st := store w (store_calls s) in
  modify (set_store_calls (S (store_calls s))) ;;
  emit (AddToken email) ;;
  try_except (of_outcome (add_token st))
    (fun e =>
       if is_ValueError e then
         if Py.contains "已存在" (str e) then
           existing_token <- of_outcome (get_token_by_email st) ;;
           match existing_token with
           | Some _ =>
               emit (UpdateToken email) ;;
               of_outcome (update_token st) ;;
               of_outcome (get_token st)
           | None => raise e
           end
         else raise e
       else raise e).

(** Steps 1 to 6 for the first account (lines 203-313). *)
Definition first_task (binding_rule : string) : M account_info :=
  email <- TempMailService.get_email_address w 10 ;;
  password <- _generate_password ;;
  success <- OpenAIRegister.register w email password ;;
  if negb success then raise (mkExn Exception "注册失败") else
  try_except (OpenAIRegister._handle_sora_onboarding w email ;; ret tt)
             (fun _ => ret tt) ;;
  let set_complete := String.eqb binding_rule "1绑1" in
  phone_result <-
    OpenAIRegister._handle_phone_verification w email false set_complete ;;
  if negb (OpenAIRegister.truthy_opt (OpenAIRegister.accessToken phone_result))
  then raise (mkExn Exception "无法获取 accessToken") else
  token_obj <- save_account email ;;
  ret (account_of token_obj).

(** From the browser launch to the first account (lines 99-313), with
    the settings resolved in lines 88-91. *)
Definition first_account (country_code service_code max_price : option string)
           (binding_rule : string) : M account_info :=
  let final_country :=
    GrizzlySMSService.py_or country_code (Some (sms_country self)) in
  let final_service :=
    GrizzlySMSService.py_or service_code (Some (sms_service self)) in
  let final_max_price :=
    match max_price with
    | Some p => Some p
    | None => Some (sms_max_price self)
    end in
  launch_browser ;;
  new_temp_mail ;;
  OpenAIRegister.init w ;;
  new_sms_service final_service final_country final_max_price ;;
  first_task binding_rule.

(** The [try] body of one turn of [for i in range(remaining)]
    (lines 332-437). *)
Definition later_task (i remaining : nat) : M account_info :=
  OpenAIRegister.close ;;
  TempMailService.close ;;
  launch_browser ;;
  new_temp_mail ;;
  OpenAIRegister.init w ;;
  email <- TempMailService.get_email_address w 10 ;;
  password <- _generate_password ;;
  success <- OpenAIRegister.register w email password ;;
  if negb success then raise (mkExn Exception "注册失败") else
  OpenAIRegister._handle_sora_onboarding w email ;;
  let is_last_account := (i + 1 =? remaining)%nat in
  phone_result <-
    OpenAIRegister._handle_phone_verification w email true is_last_account ;;
  if negb (OpenAIRegister.truthy_opt (OpenAIRegister.accessToken phone_result))
  then raise (mkExn Exception "无法获取 accessToken") else
  token_obj <- save_account email ;;
  ret (account_of token_obj).

(** [try: await shared_sms_service.close()  except: pass] *)
Definition close_shared : M unit :=
  try_except (GrizzlySMSService.close w) (fun _ => ret tt).

(** The [for i in range(remaining)] loop with [todo] turns to go
    ([i = remaining - todo]); a failed turn closes the shared service and
    breaks. *)
Fixpoint later_tasks (remaining todo : nat) (accounts : list account_info)
  : M (list account_info) :=
  match todo with
  | O => ret accounts
  | S todo' =>
      let i := (remaining - todo)%nat in
      r <- try_except (account <- later_task i remaining ;; ret (Some account))
             (fun _ => close_shared ;; ret None) ;;
      match r with
      | Some account => later_tasks remaining todo' (accounts ++ [account])
      | None => ret accounts
      end
  end.

(** The 1绑3 branch (lines 318-470); [shared_sms_service] is the service
    object, which is truthy, until one of the two closing blocks runs. *)
Definition one_to_three (accounts : list account_info) : M (list account_info) :=
  modify (set_sms_service_bound false) ;;
  accounts' <-
    (if (length accounts <? 3)%nat then
       let remaining := (3 - length accounts)%nat in
       accounts' <- later_tasks remaining remaining accounts ;;
       (if (length accounts' =? 3)%nat then close_shared else ret tt) ;;
       (if (length accounts' <? 3)%nat then close_shared else ret tt) ;;
       ret accounts'
     else ret accounts) ;;
  ret (result_accounts accounts').

(** The body of the outer [try] (lines 99-476). *)
Definition body (country_code service_code max_price : option string)
           (binding_rule : string) : M register_result :=
  account_info <-
    first_account country_code service_code max_price binding_rule ;;
  let accounts := [account_info] in
  result_accounts <-
    (if String.eqb binding_rule "1绑3" then one_to_three accounts
     else ret accounts) ;;
  ret {| success := true;
         accounts := result_accounts;
         count := length result_accounts |}.

(** [register.close()], [browser.close()] and [temp_mail.close()], each in
    its own [try ... except: pass]. *)
Definition close_browser_and_mail : M unit :=
  OpenAIRegister.close ;;
  TempMailService.close.

(** The [except Exception] clause (lines 478-500). *)
Definition on_error (e : exn) : M register_result :=
  close_browser_and_mail ;;
  s <- get ;;
  (if sms_service_bound s
   then try_except (GrizzlySMSService.close w) (fun _ => ret tt)
   else ret tt) ;;
  raise e.

(** The [finally] clause (lines 501-519). *)
Definition cleanup : M unit :=
  close_browser_and_mail ;;
  s <- get ;;
  if sms_service_bound s then
    match GrizzlySMSService.truthy_id (activation_id (sms s)) with
    | Some _ => try_except (GrizzlySMSService.close w) (fun _ => ret tt)
    | None => ret tt
    end
  else ret tt.

(** On entry no service object exists yet: [temp_mail = None] and
    [sms_service = None]. *)
Definition entry (s : State) : State :=
  set_sms_service_bound false (set_temp_mail_email None s).

Definition register_one (country_code service_code max_price : option string)
           (binding_rule : string) : M register_result :=
  modify entry ;;
  try_finally
    (try_except (body country_code service_code max_price binding_rule)
                on_error)
    cleanup.

End WithWorld.

End RegisterFlowService.

(** ** TempMailService: the inbox (tempmail_service.py)

    [check_inbox] and [wait_for_verification_code] talk to the mailbox
    provider's [get-emails] endpoint; its answers are read in request
    order from [inbox], counted with the other requests to the provider. *)

Module TempMailInbox.

(** A value of a message as the loop uses it: a string; a value that is
    no string and falsy ([None], [0], [[]]), of which
    [extract_code_from_content] makes [None]; or a value that is no
    string and truthy, on which [re.search] raises [error]. *)
Inductive value :=
| Str (s : Py.text)
| Falsy
| Unsearchable (error : exn).

(** What the loop reads of a dict: [msg.get("subject", "")],
    [msg.get("from", "")] and [msg.get("body", "")]. *)
Record mail := { subject : value; from : value; body : value }.

(** An element of the [data] list: a dict, or something without a
    [get] method, on which [msg.get] raises [error]. *)
Inductive message :=
| Mail (m : mail)
| NotAMail (error : exn).

(** [InboxData] holds [data.get("data", [])].  Data that is no list
    behaves as the empty list when it is falsy and, when it is truthy,
    as a list whose first element is no dict: [len] or the first
    [msg.get] raises. *)
Inductive inbox_response :=
| InboxError (e : exn)                       (* the request or [json()] raised *)
| InboxHttp (status : Z) (reason : string)   (* [not response.ok] *)
| InboxRefused (msg : string)                (* [code] is not ["0"] *)
| InboxData (messages : list message).

Record inbox_exchange := { inbox_latency : N; inbox_reply : inbox_response }.

(** [if code:] on what extraction returned. *)
Definition truthy_code (code : option Py.text) : bool :=
  match code with Some c => Py.nonempty c | None => false end.

Section WithInbox.
Variable db : TempMailService.unicode.
Variable inbox : nat -> inbox_exchange.

(** [self.extract_code_from_content(v)] for a value of a message. *)
Definition extract (v : value) : outcome (option Py.text) :=
  match v with
  | Str s => Returns (TempMailService.extract_code_from_content db s)
  | Falsy => Returns None
  | Unsearchable error => Raises error
  end.

(** [extract(body) or extract(subject)] *)
Definition code_of (m : mail) : outcome (option Py.text) :=
  match extract (body m) with
  | Raises e => Raises e
  | Returns from_body =>
      if truthy_code from_body then Returns from_body
      else extract (subject m)
  end.

(** The [for msg in messages] loop: the code it returns, [None] when it
    runs out, or the exception that ends it. *)
Fixpoint first_code (messages : list message) : outcome (option Py.text) :=
  match messages with
  | [] => Returns None
  | NotAMail error :: _ => Raises error
  | Mail m :: rest =>
      match code_of m with
      | Raises e => Raises e
      | Returns code =>
          if truthy_code code then Returns code else first_code rest
      end
  end.

(** One [GET .../get-emails]. *)
Definition get_emails : M inbox_response :=
  s <- get ;;
  modify (set_mail_requests (S (mail_requests s))) ;;
  sleep (Z.of_N (inbox_latency (inbox (mail_requests s)))) ;;
  ret (inbox_reply (inbox (mail_requests s))).

Definition check_inbox : M (list message) :=
  s <- get ;;
  if negb (OpenAIRegister.truthy_opt (temp_mail_email s)) then
    raise (mkExn Exception "邮箱未初始化，请先调用 get_email_address()")
  else
    try_except
      (r <- get_emails ;;
       match r with
       | InboxError e => raise e
       | InboxHttp status reason =>
           raise (mkExn Exception ("HTTP " ++ str_of_Z status ++ ": " ++ reason))
       | InboxRefused msg => raise (mkExn Exception ("API 错误: " ++ msg))
       | InboxData messages => ret messages
       end)
      (fun _ => ret []).

(** One turn of the [while] body: [Some code] returns, [None] goes round
    again. *)
Definition poll_once (poll_interval : Z) : M (option Py.text) :=
  try_except
    (messages <- check_inbox ;;
     found <- of_outcome (first_code messages) ;;
     match found with
     | Some code => ret (Some code)
     | None => sleep poll_interval ;; ret None
     end)
    (fun _ => sleep poll_interval ;; ret None).

(** The [while elapsed < timeout] loop, run for at most [fuel] turns. *)
Fixpoint wait_loop (fuel : nat) (start_time timeout poll_interval : Z)
  : M Py.text :=
  s <- get ;;
  if (now s - start_time <? timeout)%Z then
    match fuel with
    | O => GrizzlySMSService.diverge
    | S fuel' =>
        r <- poll_once poll_interval ;;
        match r with
        | Some code => ret code
        | None => wait_loop fuel' start_time timeout poll_interval
        end
    end
  else raise (mkExn Exception "等待验证码超时").

Definition wait_for_verification_code (fuel : nat) (timeout poll_interval : Z)
  : M Py.text :=
  s <- get ;;
  wait_loop fuel (now s) timeout poll_interval.

(** [get_email] *)
Definition get_email : M (option string) :=
  s <- get ;; ret (temp_mail_email s).

End WithInbox.

End TempMailInbox.

(** ** OpenAIRegister._generate_birthday (register_service.py) *)

Module Birthday.
Import Random.

(** [random.randint(a, b)] is [a + _randbelow(b - a + 1)]. *)
Definition randint (a b : nat) : Rand nat :=
  bind (randbelow (b - a + 1)) (fun r => ret (a + r)%nat).

(** [_generate_birthday(is_chinese_page)]: [(year, month, day)]. *)
Definition _generate_birthday (is_chinese_page : bool) : Rand (nat * nat * nat) :=
  let current_year := 2025%nat in
  bind (randint 18 40) (fun age =>
  let year := (current_year - age)%nat in
  bind (randint 1 12) (fun month =>
  bind (randint 1 28) (fun day =>
  ret (year, month, day)))).

End Birthday.

(** ** AutoRegisterService.get_latest_accounts (auto_register.py) *)

Module AutoRegisterService.

(** A stored token with its creation time; times are counted from
    [datetime.min], and [None] stands for a missing [created_at]. *)
Record stored_token := { token : token_obj; created_at : option nat }.

(** [x.created_at or datetime.min] *)
Definition sort_key (x : stored_token) : nat :=
  match created_at x with Some t => t | None => 0%nat end.

(** [tokens.sort(key=..., reverse=True)]: descending and stable, tokens
    with equal keys keep the order they came in. *)
Fixpoint insert_desc (x : stored_token) (l : list stored_token) : list stored_token :=
  match l with
  | [] => [x]
  | y :: l' =>
      if (sort_key x <? sort_key y)%nat then y :: insert_desc x l'
      else x :: y :: l'
  end.

Fixpoint sort_desc (l : list stored_token) : list stored_token :=
  match l with
  | [] => []
  | x :: l' => insert_desc x (sort_desc l')
  end.

(** [tokens[:count]]; a negative [count] counts from the end. *)
Definition slice_to (count : Z) (l : list stored_token) : list stored_token :=
  if (count <? 0)%Z
  then firstn (length l - Z.to_nat (- count)) l
  else firstn (Z.to_nat count) l.

(** [get_latest_accounts(count)] given what [db.get_all_tokens()] does. *)
Definition get_latest_accounts (get_all_tokens : outcome (list stored_token))
           (count : Z) : M (list RegisterFlowService.account_info) :=
  try_except
    (tokens <- of_outcome get_all_tokens ;;
     ret (map (fun t => RegisterFlowService.account_of (token t))
              (slice_to count (sort_desc tokens))))
    (fun _ => ret []).

End AutoRegisterService.

(** ** Notions the statements about leases are phrased in *)

(** [rel R m]: however [m] ends, the state it leaves is [R]-related to
    the state it started in. *)
Definition rel {A} (R : State -> State -> Prop) (m : M A) : Prop :=
  forall s, R s (snd (m s)).

(** The trace only grows. *)
Definition extends (s s' : State) : Prop :=
  exists new, trace s' = (new ++ trace s)%list.

(** The trace grows; the service object keeps its class and the local
    [sms_service] its binding. *)
Definition grows (s s' : State) : Prop :=
  klass (sms s') = klass (sms s) /\
  sms_service_bound s' = sms_service_bound s /\ extends s s'.

(** The trace grows and the service object is left alone. *)
Definition quiet (s s' : State) : Prop :=
  sms s' = sms s /\ sms_service_bound s' = sms_service_bound s /\ extends s s'.

(** The status most recently requested for activation [id] (the trace
    has the most recent event first). *)
Fixpoint last_status (id : Z) (t : list event) : option Z :=
  match t with
  | [] => None
  | SmsGet (setStatus status id') :: t' =>
      if (id' =? id)%Z then Some status else last_status id t'
  | _ :: t' => last_status id t'
  end.

(** The service holds a usable activation id. *)
Definition has_lease (s : State) : Prop :=
  exists id, GrizzlySMSService.truthy_id (activation_id (sms s)) = Some id.

(** ... and the last thing asked for it is completion. *)
Definition completed (s : State) : Prop :=
  exists id, GrizzlySMSService.truthy_id (activation_id (sms s)) = Some id /\
             last_status id (trace s) = Some COMPLETE.

(** A cancel request for [id] has gone out. *)
Definition cancelled (id : Z) (s : State) : Prop :=
  In (SmsGet (setStatus CANCEL id)) (trace s).

(** The lease [id] is either still the one the service holds, or a cancel
    request for it has gone out. *)
Definition held_or_cancelled (id : Z) (s : State) : Prop :=
  activation_id (sms s) = Some id \/ cancelled id s.

(** Nothing is asked of the SMS provider and the service is left alone. *)
Definition stores (s s' : State) : Prop :=
  sms s' = sms s /\ sms_service_bound s' = sms_service_bound s /\
  (forall id, last_status id (trace s') = last_status id (trace s)) /\
  extends s s'.

Definition keeps (I : State -> Prop) (s s' : State) : Prop := I s -> I s'.

(** [ok_post P m Q]: started where [P] holds, a normal return of [m]
    ends where [Q] holds. *)
Definition ok_post {A} (P : State -> Prop) (m : M A) (Q : A -> State -> Prop)
  : Prop :=
  forall s a s', P s -> m s = (Ok a, s') -> Q a s'.

Definition anywhere (s : State) : Prop := True.

(** The error of a status call on a service without an activation id. *)
Definition no_activation : exn := mkExn Exception "激活ID不存在，请先申请号码".

(** The requests a wait may send for activation [id]. *)
Definition polling (id : Z) (ev : event) : Prop :=
  ev = SmsGet (getStatus id) \/ ev = SmsGet (setStatus RESEND id).

(** A step that, for a service holding [id], sends polling requests only
    and leaves the service object alone. *)
Definition polls (id : Z) (s s' : State) : Prop :=
  GrizzlySMSService.truthy_id (activation_id (sms s)) = Some id ->
  sms s' = sms s /\
  exists new, trace s' = (new ++ trace s)%list /\ Forall (polling id) new.

(** The error of phone verification asked to reuse a number that is not
    there. *)
Definition reuse_error : exn :=
  mkExn Exception "复用手机号失败：SMS 服务中没有已激活的手机号".

(** What the lookup of [getNumber] on a [GrizzlySMSService] raises. *)
Definition no_getNumber : exn :=
  mkExn AttributeError "'GrizzlySMSService' object has no attribute 'getNumber'".

(** A completion request (status 6). *)
Definition completes (ev : event) : Prop :=
  exists id, ev = SmsGet (setStatus COMPLETE id).

(** A step whose new events hold no completion request. *)
Definition never_completes (s s' : State) : Prop :=
  exists new, trace s' = (new ++ trace s)%list /\
              Forall (fun ev => ~ completes ev) new.

(** A request other than a completion. *)
Definition other_request (r : sms_request) : Prop :=
  forall id, r <> setStatus COMPLETE id.

(** The browser in use stays the same. *)
Definition same_browser (s s' : State) : Prop := launches s' = launches s.

(** What a run may do before it reaches the SMS provider: launch a
    browser, ask for a mailbox. *)
Definition setup_event (ev : event) : Prop :=
  ev = BrowserLaunch \/ ev = MailCreate.

Definition setup_only (s s' : State) : Prop :=
  exists new, trace s' = (new ++ trace s)%list /\ Forall setup_event new.

(** ... leaving the service object and the binding of [sms_service] alone. *)
Definition setup_quiet (s s' : State) : Prop :=
  sms s' = sms s /\ sms_service_bound s' = sms_service_bound s /\
  setup_only s s'.

(** The cleanup code finds nothing to cancel: [sms_service] is [None], or
    the service holds no activation id. *)
Definition nothing_to_cancel (s : State) : Prop :=
  sms_service_bound s = false \/
  GrizzlySMSService.truthy_id (activation_id (sms s)) = None.

Definition setup_run (s s' : State) : Prop :=
  setup_only s s' /\ (nothing_to_cancel s -> nothing_to_cancel s').

(** [m] does not return from [s], and leaves a state [R]-related to it. *)
Definition stuck {A} (R : State -> State -> Prop) (m : M A) (s : State) : Prop :=
  (forall a, fst (m s) <> Ok a) /\ R s (snd (m s)).

(** The error of [get_email_address] once the loop has run out. *)
Definition no_valid_email : exn :=
  mkExn Exception "获取有效邮箱失败，已达最大重试次数".

(** How [get_email_address] ends when the attempt that came to [r] was
    its last. *)
Definition last_attempt (r : TempMailService.attempt_result) : result string :=
  match r with
  | TempMailService.Return email => Ok email
  | TempMailService.Continue => Raise no_valid_email
  | TempMailService.Failed error => Raise error
  end.

(** The only error [wait_for_verification_code] of the mailbox raises. *)
Definition mail_timeout : exn := mkExn Exception "等待验证码超时".

(** The messages [check_inbox] makes of a reply: a failure looks like an
    empty inbox. *)
Definition messages_of (r : TempMailInbox.inbox_response) : list TempMailInbox.message :=
  match r with
  | TempMailInbox.InboxData messages => messages
  | _ => []
  end.

(** A dict neither of whose [body] and [subject] yields a code. *)
Definition holds_no_code (db : TempMailService.unicode)
           (x : TempMailInbox.message) : Prop :=
  exists m, x = TempMailInbox.Mail m /\
    TempMailInbox.extract db (TempMailInbox.body m) = Returns None /\
    TempMailInbox.extract db (TempMailInbox.subject m) = Returns None.

(** The code is the one extracted from the body, or, the body yielding
    none, the one extracted from the subject. *)
Definition code_of_mail (db : TempMailService.unicode)
           (m : TempMailInbox.mail) (code : Py.text) : Prop :=
  TempMailInbox.extract db (TempMailInbox.body m) = Returns (Some code) \/
  (TempMailInbox.extract db (TempMailInbox.body m) = Returns None /\
   TempMailInbox.extract db (TempMailInbox.subject m) = Returns (Some code)).

(** The tokens [get_latest_accounts] picks. *)
Definition latest_tokens (count : Z) (tokens : list AutoRegisterService.stored_token)
  : list AutoRegisterService.stored_token :=
  AutoRegisterService.slice_to count (AutoRegisterService.sort_desc tokens).

(** Newest first. *)
Fixpoint newest_first (l : list AutoRegisterService.stored_token) : Prop :=
  match l with
  | [] => True
  | x :: l' =>
      (forall y, In y l' ->
         (AutoRegisterService.sort_key y <= AutoRegisterService.sort_key x)%nat) /\
      newest_first l'
  end.

(** ** Sample environments

    Concrete worlds and states on which the statements below are run. *)

Module Sample.

Definition a_token : token_obj :=
  {| token_id := 1; token_email := "u@mail.com"; token_st := Some "st";
     token_value := "at" |}.

Definition fetch_ok : fetch_result := {| ok := true; error_msg := "" |}.

(** A page on which every step succeeds. *)
Definition good_page : page_script :=
  {| init_page := Returns tt;
     register_page := Returns true;
     onboarding := OnboardingDone;
     load_state := Returns tt;
     page_session_token := Some "st";
     page_access_token := Some "at";
     enroll_start := fun _ => Returns fetch_ok;
     reload_page := fun _ => Returns tt;
     enroll_finish := Returns fetch_ok;
     latest_access_token := Some "at2";
     session_cookie := Some "st" |}.

Definition good_store : store_script :=
  {| add_token := Returns a_token;
     get_token_by_email := Returns (Some a_token);
     update_token := Returns tt;
     get_token := Returns a_token |}.

Definition instant (b : body) : http_exchange :=
  {| latency := 0; reply := HttpOk b |}.

(** A world whose mailbox provider offers the given addresses in turn and
    whose SMS provider gives the scripted replies, then [STATUS_WAIT_CODE]. *)
Definition world (mails : list create_response) (sms_replies : list http_exchange)
  : World :=
  {| mail_create := fun k => nth k mails (CreateEmail (Some "u@mail.com"));
     sms_http := fun k => nth k sms_replies (instant (Text "STATUS_WAIT_CODE"));
     launch := fun _ => Returns tt;
     page := fun _ => good_page;
     store := fun _ => good_store;
     random_draws := fun k => k;
     float_of := fun price => Returns price;
     no_data := fun _ => mkExn ValueError "Expecting value: line 1 column 1 (char 0)" |}.

Definition new_sms (c : sms_class) : sms_object :=
  {| klass := c; api_key := "key"; service := Some "dr"; country := Some "151";
     max_price := Some "0.025"; activation_id := None; phone_number := None |}.

Definition start (c : sms_class) : State :=
  {| now := 0; mail_requests := 0; sms_exchanges := 0; launches := 0;
     starts := 0; reloads := 0; store_calls := 0; rng_pos := 0;
     temp_mail_email := None; sms := new_sms c; sms_service_bound := false;
     trace := [] |}.

End Sample.

(* ================================================================== *)
(** * Part II. Properties                                              *)
(* ================================================================== *)

(** ** Password generation *)

Section PasswordFacts.
Import Random Password.

Lemma length_upd {A} n (v : A) l : length (upd n v l) = length l.
Proof.
  revert n; induction l as [|h t IH]; intros [|n]; simpl; auto.
Qed.

Lemma nth_upd {A} (d : A) n v l k :
  nth k (upd n v l) d =
  if (k =? n)%nat && (n <? length l)%nat then v else nth k l d.
Proof.
  revert n k; induction l as [|h t IH]; intros n k; simpl.
  - destruct n, k; simpl; rewrite ?andb_false_r; reflexivity.
  - destruct n as [|n], k as [|k]; simpl; try reflexivity.
    rewrite IH. reflexivity.
Qed.

Lemma length_swap i j x : length (swap i j x) = length x.
Proof. unfold swap. now rewrite !length_upd. Qed.

Lemma upd_perm {A} (d : A) n v l :
  (n < length l)%nat -> Permutation (nth n l d :: upd n v l) (v :: l).
Proof.
  revert n; induction l as [|h t IH]; intros n Hn; simpl in Hn; [lia|].
  destruct n as [|n]; simpl.
  - apply perm_swap.
  - eapply Permutation_trans; [apply perm_swap|].
    eapply Permutation_trans; [apply perm_skip, IH; lia|].
    apply perm_swap.
Qed.

Lemma swap_perm i j x :
  (i < length x)%nat -> (j < length x)%nat -> Permutation (swap i j x) x.
Proof.
  intros Hi Hj. unfold swap.
  set (a := nth i x zero). set (b := nth j x zero).
  apply (Permutation_cons_inv (a := b)).
  assert (Hb : nth j (upd i b x) zero = b).
  { rewrite nth_upd. destruct ((j =? i)%nat && (i <? length x)%nat); reflexivity. }
  rewrite <- Hb at 1.
  eapply Permutation_trans.
  - apply upd_perm. now rewrite length_upd.
  - apply (upd_perm zero i b x Hi).
Qed.

Lemma shuffle_from_perm i x g :
  (i < length x)%nat -> Permutation (fst (shuffle_from i x g)) x.
Proof.
  revert x g; induction i as [|i IH]; intros x g Hi; simpl.
  - apply Permutation_refl.
  - unfold bind, randbelow.
    set (j := (draws g (pos g) mod S (S i))%nat).
    assert (Hj : (j < length x)%nat).
    { pose proof (Nat.mod_upper_bound (draws g (pos g)) (S (S i))). lia. }
    eapply Permutation_trans.
    + apply IH. rewrite length_swap. lia.
    + apply swap_perm; auto.
Qed.

Lemma shuffle_perm x g : Permutation (fst (shuffle x g)) x.
Proof.
  unfold shuffle. destruct x as [|a x].
  - simpl. apply Permutation_refl.
  - apply shuffle_from_perm. simpl. lia.
Qed.

(** [holds m P]: every run of [m] returns a value satisfying [P]. *)
Definition holds {A} (m : Rand A) (P : A -> Prop) : Prop :=
  forall g, P (fst (m g)).

Lemma holds_ret {A} (a : A) (P : A -> Prop) : P a -> holds (ret a) P.
Proof. intros H g. exact H. Qed.

Lemma holds_bind {A B} (m : Rand A) (k : A -> Rand B) P Q :
  holds m P -> (forall a, P a -> holds (k a) Q) -> holds (bind m k) Q.
Proof.
  intros Hm Hk g. unfold bind.
  specialize (Hm g). destruct (m g) as [a g1]. simpl in Hm.
  exact (Hk a Hm g1).
Qed.

Lemma holds_choice seq : seq <> [] -> holds (choice seq) (fun c => In c seq).
Proof.
  intros Hne g. unfold choice, bind, randbelow, ret; simpl.
  apply nth_In. apply Nat.mod_upper_bound.
  destruct seq; simpl; congruence.
Qed.

Lemma holds_choices n seq :
  seq <> [] ->
  holds (choices n seq)
        (fun cs => length cs = n /\ Forall (fun c => In c seq) cs).
Proof.
  intros Hne. induction n as [|n IH]; simpl.
  - apply holds_ret. split; [reflexivity | constructor].
  - eapply holds_bind; [apply holds_choice, Hne|]. intros c Hc.
    eapply holds_bind; [apply IH|]. intros cs [Hl Hf].
    apply holds_ret. split; [simpl; now rewrite Hl | now constructor].
Qed.

Lemma holds_shuffle x : holds (shuffle x) (fun y => Permutation y x).
Proof. intros g. apply shuffle_perm. Qed.

Lemma length_join l : String.length (Py.join l) = length l.
Proof. induction l; simpl; auto. Qed.

Lemma chars_join l : Py.chars (Py.join l) = l.
Proof. apply list_ascii_of_string_of_list_ascii. Qed.

End PasswordFacts.

Section PasswordPolicy.
Import Random Password.

Lemma alphabet_forall (P : ascii -> bool) (seq : list ascii) c :
  forallb P seq = true -> In c seq -> P c = true.
Proof. intros H Hin. rewrite forallb_forall in H. auto. Qed.

Lemma exists_perm (P : ascii -> bool) l l' c :
  Permutation l' l -> In c l -> P c = true -> existsb P l' = true.
Proof.
  intros Hp Hin Hc. apply existsb_exists. exists c. split; auto.
  eapply Permutation_in; [apply Permutation_sym, Hp | exact Hin].
Qed.

(** C10. Every password built by [_generate_password] has 14 characters,
    holds an uppercase letter, a lowercase letter, a digit and one of the
    specials [!@#$%^&*], and none of the look-alike characters
    I, O, i, l, o, 0, 1 — whatever the random generator draws. *)
Theorem generate_password_policy (g : gen) :
  let pw := Py.chars (fst (_generate_password g)) in
  length pw = 14%nat /\
  existsb is_uppercase pw = true /\
  existsb is_lowercase pw = true /\
  existsb is_digit pw = true /\
  existsb is_special pw = true /\
  forallb (fun c => negb (is_ambiguous c)) pw = true.
Proof.
  cbv zeta. revert g.
  change (holds _generate_password (fun p =>
    let pw := Py.chars p in
    length pw = 14%nat /\
    existsb is_uppercase pw = true /\
    existsb is_lowercase pw = true /\
    existsb is_digit pw = true /\
    existsb is_special pw = true /\
    forallb (fun c => negb (is_ambiguous c)) pw = true)).
  unfold _generate_password.
  eapply holds_bind; [apply (holds_choice (Py.chars upper)); discriminate|].
  intros u Iu.
  eapply holds_bind; [apply (holds_choice (Py.chars lower)); discriminate|].
  intros l Il.
  eapply holds_bind; [apply (holds_choice (Py.chars digits)); discriminate|].
  intros d Id.
  eapply holds_bind; [apply (holds_choice (Py.chars specials)); discriminate|].
  intros s Is.
  eapply holds_bind; [apply (holds_choices 10 (Py.chars all_chars)); discriminate|].
  intros fill [Hlen Hall].
  eapply holds_bind; [apply holds_shuffle|].
  intros password_list Hperm.
  apply holds_ret. cbv zeta. rewrite chars_join.
  split; [|split; [|split; [|split; [|split]]]].
  - rewrite (Permutation_length Hperm), length_app, Hlen. reflexivity.
  - apply (exists_perm _ _ _ u Hperm); [left; reflexivity|].
    exact (alphabet_forall is_uppercase (Py.chars upper) u eq_refl Iu).
  - apply (exists_perm _ _ _ l Hperm); [right; left; reflexivity|].
    exact (alphabet_forall is_lowercase (Py.chars lower) l eq_refl Il).
  - apply (exists_perm _ _ _ d Hperm); [do 2 right; left; reflexivity|].
    exact (alphabet_forall is_digit (Py.chars digits) d eq_refl Id).
  - apply (exists_perm _ _ _ s Hperm); [do 3 right; left; reflexivity|].
    exact (alphabet_forall is_special (Py.chars specials) s eq_refl Is).
  - apply forallb_forall. intros c Hc.
    apply (Permutation_in _ Hperm) in Hc.
    set (ok := fun c => negb (is_ambiguous c)).
    destruct Hc as [<-|[<-|[<-|[<-|Hc]]]].
    + exact (alphabet_forall ok (Py.chars upper) u eq_refl Iu).
    + exact (alphabet_forall ok (Py.chars lower) l eq_refl Il).
    + exact (alphabet_forall ok (Py.chars digits) d eq_refl Id).
    + exact (alphabet_forall ok (Py.chars specials) s eq_refl Is).
    + rewrite Forall_forall in Hall.
      exact (alphabet_forall ok (Py.chars all_chars) c eq_refl (Hall c Hc)).
Qed.

End PasswordPolicy.

(** ** Mailbox acquisition *)

Section MailboxFacts.
Import TempMailService.
Variable w : World.

Definition after_create (s : State) : State :=
  set_trace (MailCreate :: trace s) (set_mail_requests (S (mail_requests s)) s).

Lemma create_run s :
  create w s = (Ok (mail_create w (mail_requests s)), after_create s).
Proof. reflexivity. Qed.

Lemma mail_requests_after_create s :
  mail_requests (after_create s) = S (mail_requests s).
Proof. reflexivity. Qed.

Lemma supported_not_blocked e :
  is_email_supported (Some e) = true -> Py.endswith (Py.lower e) ".top" = false.
Proof.
  unfold is_email_supported. destruct (negb (Py.truthy e)); [discriminate|].
  simpl. rewrite andb_true_r. intros H. now apply negb_true_iff in H.
Qed.

Lemma attempt_body_return r e :
  attempt_body r = Return e -> is_email_supported (Some e) = true.
Proof.
  destruct r as [x|st rs|m|[e'|]]; unfold attempt_body; try discriminate.
  - destruct (is_email_supported (Some e')) eqn:H; cbv [negb].
    + intros [= <-]. exact H.
    + discriminate.
Qed.

Lemma get_email_loop_ok max_retries remaining s email s' :
  get_email_loop w max_retries remaining s = (Ok email, s') ->
  is_email_supported (Some email) = true /\ temp_mail_email s' = Some email.
Proof.
  revert s. induction remaining as [|r IH]; intros s; simpl.
  - discriminate.
  - unfold bind at 1. rewrite create_run.
    destruct (attempt_body (mail_create w (mail_requests s))) as [e| |err] eqn:Hb.
    + cbn. intros [= <- <-]. split; [now apply attempt_body_return in Hb | reflexivity].
    + apply IH.
    + destruct (max_retries - r =? max_retries)%nat; [intros H; cbv [raise] in H; discriminate H|].
      unfold bind at 1. cbn [sleep modify]. apply IH.
Qed.

Lemma attempt_body_blocked e :
  is_email_supported e = false -> attempt_body (CreateEmail e) = Continue.
Proof. intros H. unfold attempt_body. now rewrite H. Qed.

Lemma get_email_loop_all_blocked max_retries remaining s :
  (forall k, (k < remaining)%nat ->
     exists e, mail_create w (mail_requests s + k) = CreateEmail e /\
               is_email_supported e = false) ->
  exists s',
    get_email_loop w max_retries remaining s =
      (Raise (mkExn Exception "获取有效邮箱失败，已达最大重试次数"), s') /\
    mail_requests s' = (mail_requests s + remaining)%nat /\
    temp_mail_email s' = temp_mail_email s.
Proof.
  revert s. induction remaining as [|r IH]; intros s Hall; simpl.
  - exists s. repeat split. lia.
  - unfold bind at 1. rewrite create_run.
    destruct (Hall 0%nat ltac:(lia)) as [e [He Hb]].
    rewrite Nat.add_0_r in He. rewrite He, (attempt_body_blocked e Hb).
    destruct (IH (after_create s)) as [s' [Hrun [Hreq Hmail]]].
    { intros k Hk. destruct (Hall (S k) ltac:(lia)) as [e' [He' Hb']].
      exists e'. split; [|exact Hb'].
      rewrite mail_requests_after_create.
      replace (S (mail_requests s) + k)%nat with (mail_requests s + S k)%nat by lia.
      exact He'. }
    exists s'. split; [exact Hrun|]. split.
    + rewrite Hreq, mail_requests_after_create. lia.
    + rewrite Hmail. reflexivity.
Qed.

(** C9. A successful [get_email_address] never returns an address whose
    lower-cased form ends with the blocked suffix [.top]; and when each of
    the first [max_retries] addresses offered is unsupported, every one is
    discarded, exactly [max_retries] addresses are requested, and the call
    fails. *)
Theorem get_email_address_filters_blocked (max_retries : nat) (s : State) :
  (forall email s',
     get_email_address w max_retries s = (Ok email, s') ->
     Py.endswith (Py.lower email) ".top" = false /\
     temp_mail_email s' = Some email) /\
  ((forall k, (k < max_retries)%nat ->
      exists e, mail_create w (mail_requests s + k) = CreateEmail e /\
                is_email_supported e = false) ->
   exists s',
     get_email_address w max_retries s =
       (Raise (mkExn Exception "获取有效邮箱失败，已达最大重试次数"), s') /\
     mail_requests s' = (mail_requests s + max_retries)%nat /\
     temp_mail_email s' = temp_mail_email s).
Proof.
  split.
  - intros email s' H. apply get_email_loop_ok in H. destruct H as [H1 H2].
    split; [now apply supported_not_blocked | exact H2].
  - apply get_email_loop_all_blocked.
Qed.

End MailboxFacts.

(** ** Code extraction *)

Section ExtractFacts.
Import TempMailService.
Variable db : unicode.

Lemma six_digits_spec s g rest :
  six_digits db s = Some (g, rest) -> is_six db g /\ s = (g ++ rest)%list.
Proof.
  unfold six_digits.
  destruct s as [|a [|b [|c [|d [|e [|f r]]]]]]; try discriminate.
  destruct (forallb (is_digit db) [a; b; c; d; e; f]) eqn:H; [|discriminate].
  intros [= <- <-]. split; [split; [reflexivity | exact H] | reflexivity].
Qed.

Lemma star_inv k cont prev s g :
  star db k cont prev s = Some g ->
  exists prev' s', cont prev' s' = Some g /\ (length s' <= length s)%nat.
Proof.
  revert prev. induction s as [|c s IH]; intros prev; simpl.
  - intros H. exists prev, []. split; [exact H | simpl; lia].
  - destruct (in_class db k c).
    + destruct (star db k cont (Some c) s) as [g'|] eqn:Hs.
      * intros [= <-]. destruct (IH _ Hs) as [p' [s' [H1 H2]]].
        exists p', s'. split; [exact H1 | simpl; lia].
      * intros H. exists prev, (c :: s). split; [exact H | simpl; lia].
    + intros H. exists prev, (c :: s). split; [exact H | simpl; lia].
Qed.

Lemma match_here_six p : forall cap prev s g,
  match_here db p cap prev s = Some g ->
  is_six db cap \/ has_group p = true -> is_six db g.
Proof.
  induction p as [|i p IH]; intros cap prev s g; simpl.
  - intros [= <-] [H|H]; [exact H | discriminate].
  - destruct i as [l|k|k| |]; simpl.
    + destruct s as [|c s']; [discriminate|].
      destruct (lit_match l c); [|discriminate]. apply IH.
    + intros H Hc. apply star_inv in H. destruct H as [p' [s2 [H _]]].
      eapply IH; eauto.
    + destruct s as [|c s']; [discriminate|].
      destruct (in_class db k c); [|discriminate].
      intros H Hc. apply star_inv in H. destruct H as [p' [s2 [H _]]].
      eapply IH; eauto.
    + destruct (six_digits db s) as [[g6 rest]|] eqn:H6; [|discriminate].
      intros H _. apply six_digits_spec in H6. destruct H6 as [H6 _].
      eapply IH; eauto.
    + destruct (xorb (word_before db prev) (word_after db s)); [|discriminate].
      apply IH.
Qed.

Lemma min_len_cons i p : min_len (i :: p) = (min_len_item i + min_len p)%nat.
Proof. reflexivity. Qed.

Lemma match_here_length p : forall cap prev s g,
  match_here db p cap prev s = Some g -> (min_len p <= length s)%nat.
Proof.
  induction p as [|i p IH]; intros cap prev s g.
  - intros _. cbn. lia.
  - rewrite min_len_cons. destruct i as [l|k|k| |]; cbn [match_here min_len_item].
    + destruct s as [|c s']; [discriminate|].
      destruct (lit_match l c); [|discriminate].
      intros H. apply IH in H. cbn [length]. lia.
    + intros H. apply star_inv in H. destruct H as [p' [s2 [H Hl]]].
      apply IH in H. lia.
    + destruct s as [|c s']; [discriminate|].
      destruct (in_class db k c); [|discriminate].
      intros H. apply star_inv in H. destruct H as [p' [s2 [H Hl]]].
      apply IH in H. cbn [length]. lia.
    + destruct (six_digits db s) as [[g6 rest]|] eqn:H6; [|discriminate].
      intros H. apply IH in H. apply six_digits_spec in H6.
      destruct H6 as [[H6 _] ->]. rewrite length_app. lia.
    + destruct (xorb (word_before db prev) (word_after db s)); [|discriminate].
      intros H. apply IH in H. lia.
Qed.

Lemma search_from_spec p : forall prev s g,
  search_from db p prev s = Some g ->
  (has_group p = true -> is_six db g) /\ (min_len p <= length s)%nat.
Proof.
  intros prev s; revert prev. induction s as [|c s IH]; intros prev g.
  - cbn [search_from].
    destruct (match_here db p [] prev []) as [g'|] eqn:H; [|discriminate].
    intros [= <-]. split.
    + intros Hg. eapply match_here_six; eauto.
    + eapply match_here_length; eauto.
  - cbn [search_from].
    destruct (match_here db p [] prev (c :: s)) as [g'|] eqn:H.
    + intros [= <-]. split.
      * intros Hg. eapply match_here_six; eauto.
      * eapply match_here_length; eauto.
    + intros Hs. apply IH in Hs. destruct Hs as [H1 H2].
      split; [exact H1 | cbn [length]; lia].
Qed.

Lemma search_from_short p prev s :
  (length s < min_len p)%nat -> search_from db p prev s = None.
Proof.
  intros Hlt. destruct (search_from db p prev s) as [g|] eqn:H; [|reflexivity].
  apply search_from_spec in H. lia.
Qed.

(** A decimal digit is a word character, in ASCII and beyond. *)
Lemma digit_is_word c : is_digit db c = true -> is_word db c = true.
Proof.
  unfold is_word, is_digit. destruct (c <? 128)%N.
  - intros ->. reflexivity.
  - intros ->. reflexivity.
Qed.

Lemma search_word_bounded_six g :
  is_six db g -> search_from db [WordB; Group6; WordB] None g = Some g.
Proof.
  intros [Hl Hd].
  destruct g as [|a [|b [|c [|d [|e [|f [|x r]]]]]]]; try discriminate.
  assert (Ha : is_digit db a = true)
    by (simpl in Hd; repeat (apply andb_prop in Hd; destruct Hd as [? Hd]); assumption).
  assert (Hf : is_digit db f = true).
  { simpl in Hd. repeat (apply andb_prop in Hd; destruct Hd as [? Hd]). assumption. }
  unfold search_from, match_here, word_before, word_after.
  rewrite (digit_is_word a Ha). cbn [xorb].
  unfold six_digits. rewrite Hd. cbn [last].
  rewrite (digit_is_word f Hf). reflexivity.
Qed.

Lemma first_match_six ps content x :
  forallb has_group ps = true ->
  first_match db ps content = Some x -> is_six db x.
Proof.
  induction ps as [|p ps IH]; simpl; [discriminate|].
  intros Hg. apply andb_prop in Hg. destruct Hg as [Hp Hps].
  unfold re_search at 1.
  destruct (search_from db p None content) as [g|] eqn:H.
  - intros [= <-]. apply search_from_spec in H. now apply H.
  - now apply IH.
Qed.

Lemma extract_six_digits g :
  is_six db g -> extract_code_from_content db g = Some g.
Proof.
  intros Hg. pose proof Hg as [Hl Hd].
  unfold extract_code_from_content.
  assert (Ht : Py.nonempty g = true).
  { destruct g; [discriminate | reflexivity]. }
  rewrite Ht. cbn [negb].
  unfold code_patterns, first_match, re_search.
  repeat (rewrite search_from_short; [| rewrite Hl; vm_compute; lia ]).
  now rewrite search_word_bounded_six.
Qed.

Lemma search_at_start p : forall prev s n,
  search_start db p prev s = Some n ->
  exists prev', search_from db p prev s = match_here db p [] prev' (skipn n s).
Proof.
  intros prev s; revert prev. induction s as [|c s IH]; intros prev n; simpl.
  - destruct (match_here db p [] prev []) eqn:H; [|discriminate].
    intros [= <-]. exists prev. simpl. now rewrite H.
  - destruct (match_here db p [] prev (c :: s)) eqn:H.
    + intros [= <-]. exists prev. simpl. now rewrite H.
    + destruct (search_start db p (Some c) s) as [m|] eqn:Hs; [|discriminate].
      intros [= <-]. simpl. apply IH in Hs. exact Hs.
Qed.

Lemma skipn_length_app {A} (l r : list A) : skipn (length l) (l ++ r) = r.
Proof. induction l; simpl; auto. Qed.

(** Where the marker pattern matches, it matches the marker that stands
    there and captures the six characters after it. *)
Lemma marker_match_captures prev' g post x :
  length g = 6%nat ->
  match_here db (lits "code is " ++ [Group6])%list [] prev'
             (Py.codes "code is " ++ g ++ post)%list = Some x ->
  x = g.
Proof.
  intros Hl.
  destruct g as [|a [|b [|c [|d [|e [|f [|x0 r]]]]]]]; try discriminate.
  cbn [lits Py.codes Py.chars list_ascii_of_string map app match_here].
  repeat match goal with
         | |- context [lit_match ?l ?c] =>
             let v := eval vm_compute in (lit_match l c) in
             change (lit_match l c) with v; cbv iota
         end.
  unfold six_digits.
  destruct (forallb (is_digit db) [a; b; c; d; e; f]); [|discriminate].
  cbn [match_here]. intros [= <-]. reflexivity.
Qed.

(** C7 (as amended). [extract_code_from_content] is idempotent, and the
    marker pattern [code is (\d{6})] has priority over the bare six-digit
    fallback: a text whose leftmost match of that pattern (case ignored,
    as [re.IGNORECASE] does) is at [code is 123456] yields [123456],
    whatever other six-digit runs (such as [999999]) it contains, before
    or after.  Both hold for every text and whatever the Unicode
    database says of the characters beyond ASCII. *)
Theorem extract_code_idempotent_and_prioritized :
  (forall content code,
     extract_code_from_content db content = Some code ->
     extract_code_from_content db code = Some code) /\
  (forall pre post : Py.text,
     search_start db (lits "code is " ++ [Group6])%list None
                  (pre ++ Py.codes "code is 123456" ++ post)%list
       = Some (length pre) ->
     extract_code_from_content db (pre ++ Py.codes "code is 123456" ++ post)%list
       = Some (Py.codes "123456")).
Proof.
  split.
  - intros content code H. unfold extract_code_from_content in H.
    destruct (negb (Py.nonempty content)); [discriminate|].
    apply first_match_six in H; [|reflexivity].
    now apply extract_six_digits.
  - intros pre post H.
    unfold extract_code_from_content.
    assert (Ht : Py.nonempty (pre ++ Py.codes "code is 123456" ++ post)%list = true).
    { destruct pre; reflexivity. }
    rewrite Ht. cbn [negb]. unfold code_patterns.
    cbn [first_match]. unfold re_search at 1.
    apply search_at_start in H. destruct H as [prev' H]. rewrite H.
    rewrite skipn_length_app.
    destruct (match_here db (lits "code is " ++ [Group6])%list [] prev'
                (Py.codes "code is 123456" ++ post)%list) as [x|] eqn:Hm.
    + apply (marker_match_captures prev' (Py.codes "123456") post x) in Hm;
        [subst x; reflexivity | reflexivity].
    + exfalso. revert Hm.
      cbn [lits Py.codes Py.chars list_ascii_of_string map app match_here].
      repeat match goal with
             | |- context [lit_match ?l ?c] =>
                 let v := eval vm_compute in (lit_match l c) in
                 change (lit_match l c) with v; cbv iota
             end.
      unfold six_digits. cbn [forallb]. unfold is_digit.
      cbn. discriminate.
Qed.

End ExtractFacts.

Section ExtractExamples.
Import TempMailService.

(** A database that knows no character beyond ASCII. *)
Definition ascii_only : unicode :=
  {| isdecimal := fun _ => false; isspace := fun _ => false;
     isalnum := fun _ => false |}.

Example extract_marker_before_fallback (db : unicode) :
  extract_code_from_content db (Py.codes "Ref 999999. Your code is 123456, thanks")
    = Some (Py.codes "123456").
Proof. vm_compute. reflexivity. Qed.

Example extract_fallback_only (db : unicode) :
  extract_code_from_content db (Py.codes "order 999999 shipped")
    = Some (Py.codes "999999").
Proof. vm_compute. reflexivity. Qed.

Example extract_none (db : unicode) :
  extract_code_from_content db (Py.codes "no digits here 12345") = None.
Proof. vm_compute. reflexivity. Qed.

(** The long s (U+017F) stands for an [s] when case is ignored, so
    [code iſ 555555] is a match of the marker pattern. *)
Example extract_long_s (db : unicode) :
  extract_code_from_content db
    (Py.codes "code i" ++ [383%N] ++ Py.codes " 555555; later: code is 123456")%list
    = Some (Py.codes "555555").
Proof. vm_compute. reflexivity. Qed.

(** The Chinese marker is a pattern of its own, tried before the bare
    six-digit fallback. *)
Example extract_chinese_marker (db : unicode) :
  extract_code_from_content db
    (Py.codes "999999 " ++ [39564; 35777; 30721]%N ++ Py.codes ": 123456")%list
    = Some (Py.codes "123456").
Proof.
  unfold extract_code_from_content, code_patterns. cbn [Py.nonempty Py.codes app negb].
  vm_compute. reflexivity.
Qed.

(** A text holding both [code is 123456] and a standalone [999999] for
    which the result is neither: an earlier occurrence of the first
    pattern wins. *)
Lemma extract_code_leftmost_marker_wins :
  let text := Py.codes "code is 555555 (ticket 999999); later: code is 123456" in
  (exists pre post, text = (pre ++ Py.codes "code is 123456" ++ post)%list) /\
  (exists pre post, text = (pre ++ Py.codes "999999" ++ post)%list) /\
  (forall db, extract_code_from_content db text = Some (Py.codes "555555")) /\
  (forall db, extract_code_from_content db text <> Some (Py.codes "123456")).
Proof.
  cbv zeta. split; [|split; [|split]].
  - exists (Py.codes "code is 555555 (ticket 999999); later: "), [].
    vm_compute. reflexivity.
  - exists (Py.codes "code is 555555 (ticket "), (Py.codes "); later: code is 123456").
    vm_compute. reflexivity.
  - intros db. vm_compute. reflexivity.
  - intros db. vm_compute. discriminate.
Qed.

Lemma extract_code_idempotent_and_prioritized_witness :
  search_start ascii_only (lits "code is " ++ [Group6])%list None
     (Py.codes "Ref 999999. Your " ++ Py.codes "code is 123456" ++ Py.codes ", thanks")%list
     = Some (length (Py.codes "Ref 999999. Your ")) /\
  extract_code_from_content ascii_only
     (Py.codes "Ref 999999. Your " ++ Py.codes "code is 123456" ++ Py.codes ", thanks")%list
     = Some (Py.codes "123456").
Proof.
  split.
  - vm_compute. reflexivity.
  - apply (proj2 (extract_code_idempotent_and_prioritized ascii_only)).
    vm_compute. reflexivity.
Defined.

End ExtractExamples.

Section MailboxExamples.
Import TempMailService.

Definition top_then_good : World :=
  Sample.world [CreateEmail (Some "x@Mail.TOP"); CreateEmail (Some "y@mail.com")] [].

Definition only_top : World :=
  Sample.world [CreateEmail (Some "x@mail.top"); CreateEmail (Some "z@MAIL.Top")] [].

Example blocked_address_is_skipped :
  fst (get_email_address top_then_good 10 (Sample.start SourceClass))
    = Ok "y@mail.com".
Proof. vm_compute. reflexivity. Qed.

Lemma get_email_address_filters_blocked_witness :
  (forall k, (k < 2)%nat ->
     exists e, mail_create only_top
                 (mail_requests (Sample.start SourceClass) + k) = CreateEmail e /\
               is_email_supported e = false) /\
  exists s',
    get_email_address only_top 2 (Sample.start SourceClass) =
      (Raise (mkExn Exception "获取有效邮箱失败，已达最大重试次数"), s') /\
    mail_requests s' = (mail_requests (Sample.start SourceClass) + 2)%nat /\
    temp_mail_email s' = temp_mail_email (Sample.start SourceClass).
Proof.
  assert (H : forall k, (k < 2)%nat ->
     exists e, mail_create only_top
                 (mail_requests (Sample.start SourceClass) + k) = CreateEmail e /\
               is_email_supported e = false).
  { intros k Hk. destruct k as [|[|k]]; [| |lia]; eexists; split; reflexivity. }
  split; [exact H|].
  exact (proj2 (get_email_address_filters_blocked only_top 2
                  (Sample.start SourceClass)) H).
Defined.

End MailboxExamples.

(** ** Time spent in the SMS service *)

Section Timing.
Import GrizzlySMSService.
Variable w : World.

(** [timed h m]: [m] ends, and takes between 0 and [h] ms. *)
Definition timed {A} (h : Z) (m : M A) : Prop :=
  forall s, fst (m s) <> Diverge /\
            (now s <= now (snd (m s)) <= now s + h)%Z.

Lemma timed_ret {A} (a : A) : timed 0 (ret a).
Proof. intros s. cbn. split; [discriminate | lia]. Qed.

Lemma timed_raise {A} e : timed 0 (@raise A e).
Proof. intros s. cbn. split; [discriminate | lia]. Qed.

Lemma timed_get : timed 0 get.
Proof. intros s. cbn. split; [discriminate | lia]. Qed.

Lemma timed_modify f :
  (forall s, now (f s) = now s) -> timed 0 (modify f).
Proof. intros H s. cbn. rewrite H. split; [discriminate | lia]. Qed.

Lemma timed_sleep ms : timed (Z.max 0 ms) (sleep ms).
Proof. intros s. cbn. split; [discriminate | lia]. Qed.

Lemma timed_weaken {A} h h' (m : M A) :
  (h <= h')%Z -> timed h m -> timed h' m.
Proof. intros Hl H s. destruct (H s) as [H1 H2]. split; [exact H1 | lia]. Qed.

Lemma timed_bind {A B} h1 h2 (m : M A) (k : A -> M B) :
  (0 <= h2)%Z -> timed h1 m -> (forall a, timed h2 (k a)) ->
  timed (h1 + h2) (bind m k).
Proof.
  intros H0 Hm Hk s. unfold bind. specialize (Hm s).
  destruct (m s) as [[a|e|] s1]; cbn in Hm; destruct Hm as [Hd Ht].
  - destruct (Hk a s1) as [Hd2 Ht2]. split; [exact Hd2 | lia].
  - cbn. split; [discriminate | lia].
  - congruence.
Qed.

Lemma timed_try {A} h1 h2 (m : M A) (h : exn -> M A) :
  (0 <= h2)%Z -> timed h1 m -> (forall e, timed h2 (h e)) ->
  timed (h1 + h2) (try_except m h).
Proof.
  intros H0 Hm Hh s. unfold try_except. specialize (Hm s).
  destruct (m s) as [[a|e|] s1]; cbn in Hm; destruct Hm as [Hd Ht].
  - cbn. split; [discriminate | lia].
  - destruct (Hh e s1) as [Hd2 Ht2]. split; [exact Hd2 | lia].
  - congruence.
Qed.

(** [ends m]: [m] ends, and the clock does not go back. *)
Definition ends {A} (m : M A) : Prop :=
  forall s, fst (m s) <> Diverge /\ (now s <= now (snd (m s)))%Z.

Lemma ends_ret {A} (a : A) : ends (ret a).
Proof. intros s. cbn. split; [discriminate | lia]. Qed.

Lemma ends_raise {A} e : ends (@raise A e).
Proof. intros s. cbn. split; [discriminate | lia]. Qed.

Lemma ends_bind {A B} (m : M A) (k : A -> M B) :
  ends m -> (forall a, ends (k a)) -> ends (bind m k).
Proof.
  intros Hm Hk s. unfold bind. specialize (Hm s).
  destruct (m s) as [[a|e|] s1]; cbn in Hm; destruct Hm as [Hd Ht].
  - destruct (Hk a s1) as [Hd2 Ht2]. split; [exact Hd2 | lia].
  - cbn. split; [discriminate | lia].
  - congruence.
Qed.

Lemma ends_http_get r : ends (http_get w r).
Proof. intros s. cbn. split; [discriminate | lia]. Qed.

Lemma ends_sleep ms : ends (sleep ms).
Proof. intros s. cbn. split; [discriminate | lia]. Qed.

(** [_api_request] ends however long the exchanges take. *)
Lemma ends_api_attempts r retries remaining : ends (api_attempts w r retries remaining).
Proof.
  induction remaining as [|n IH]; cbn [api_attempts]; [apply ends_raise|].
  apply ends_bind; [apply ends_http_get|].
  intros [b|msg]; [apply ends_ret|].
  destruct (_ =? _)%nat; [apply ends_raise|].
  destruct (is_network_error msg); [|apply ends_raise].
  apply ends_bind; [apply ends_sleep | intros _; exact IH].
Qed.

Lemma ends_get : ends get.
Proof. intros s. cbn. split; [discriminate | lia]. Qed.

Lemma ends_set_status status : ends (set_status w status).
Proof.
  unfold set_status. apply ends_bind; [apply ends_get | intros s].
  destruct (truthy_id (activation_id (sms s))) as [id|]; [|apply ends_raise].
  apply ends_bind; [apply ends_api_attempts|].
  intros b. repeat (match goal with
                    | |- ends (if ?c then _ else _) => destruct c
                    end); try apply ends_raise; apply ends_ret.
Qed.

Lemma ends_get_status : ends (get_status w).
Proof.
  unfold get_status. apply ends_bind; [apply ends_get | intros s].
  destruct (truthy_id (activation_id (sms s))) as [id|]; [|apply ends_raise].
  apply ends_bind; [apply ends_api_attempts|].
  intros b. cbv zeta.
  repeat (match goal with
          | |- ends (if ?c then _ else _) => destruct c
          end); try apply ends_raise; apply ends_ret.
Qed.

Variable L : Z.
Hypothesis latency_bound : forall k, (Z.of_N (latency (sms_http w k)) <= L)%Z.

Lemma L_nonneg : (0 <= L)%Z.
Proof. pose proof (latency_bound 0). lia. Qed.

Lemma timed_http_get r : timed L (http_get w r).
Proof.
  intros s. cbn. split; [discriminate|].
  pose proof (latency_bound (sms_exchanges s)). lia.
Qed.

Lemma timed_last_attempt r : timed L (api_attempts w r 3 1).
Proof.
  pose proof L_nonneg as HL.
  cbn [api_attempts Nat.sub Nat.eqb].
  eapply timed_weaken; [|eapply (timed_bind L 0); [lia | apply timed_http_get |]].
  - lia.
  - intros [b|msg]; [apply timed_ret | apply timed_raise].
Qed.

Lemma timed_second_attempt r : timed (2 * L + 2000) (api_attempts w r 3 2).
Proof.
  pose proof L_nonneg as HL.
  cbn [api_attempts Nat.sub Nat.eqb].
  eapply timed_weaken;
    [|eapply (timed_bind L (2000 + L)); [lia | apply timed_http_get |]].
  - lia.
  - intros [b|msg].
    + eapply timed_weaken; [|apply timed_ret]. lia.
    + destruct (is_network_error msg).
      * eapply timed_bind; [lia | | intros _; apply timed_last_attempt].
        eapply timed_weaken; [|apply timed_sleep]. cbn. lia.
      * eapply timed_weaken; [|apply timed_raise]. lia.
Qed.

(** [_api_request] ends within three exchanges and the two back-off
    sleeps of 1000 and 2000 ms. *)
Lemma timed_api_request r : timed (3 * L + 3000) (_api_request w r).
Proof.
  pose proof L_nonneg as HL.
  unfold _api_request. cbn [api_attempts Nat.sub Nat.eqb].
  eapply timed_weaken;
    [|eapply (timed_bind L (1000 + (2 * L + 2000))); [lia | apply timed_http_get |]].
  - lia.
  - intros [b|msg].
    + eapply timed_weaken; [|apply timed_ret]. lia.
    + destruct (is_network_error msg).
      * eapply timed_bind; [lia | | intros _; apply timed_second_attempt].
        eapply timed_weaken; [|apply timed_sleep]. cbn. lia.
      * eapply timed_weaken; [|apply timed_raise]. lia.
Qed.

Lemma timed_set_status status : timed (3 * L + 3000) (set_status w status).
Proof.
  pose proof L_nonneg as HL. unfold set_status.
  eapply timed_weaken; [|eapply (timed_bind 0 (3 * L + 3000)); [lia | apply timed_get |]].
  - lia.
  - intros s. destruct (truthy_id (activation_id (sms s))) as [id|].
    + eapply timed_weaken;
        [|eapply (timed_bind (3 * L + 3000) 0); [lia | apply timed_api_request |]].
      * lia.
      * intros b. repeat (match goal with
                          | |- timed _ (if ?c then _ else _) => destruct c
                          end); try apply timed_raise; apply timed_ret.
    + eapply timed_weaken; [|apply timed_raise]. lia.
Qed.

Lemma timed_get_status : timed (3 * L + 3000) (get_status w).
Proof.
  pose proof L_nonneg as HL. unfold get_status.
  eapply timed_weaken; [|eapply (timed_bind 0 (3 * L + 3000)); [lia | apply timed_get |]].
  - lia.
  - intros s. destruct (truthy_id (activation_id (sms s))) as [id|].
    + eapply timed_weaken;
        [|eapply (timed_bind (3 * L + 3000) 0); [lia | apply timed_api_request |]].
      * lia.
      * intros b. cbv zeta.
        repeat (match goal with
                | |- timed _ (if ?c then _ else _) => destruct c
                end); try apply timed_raise; apply timed_ret.
    + eapply timed_weaken; [|apply timed_raise]. lia.
Qed.

Lemma sleep_ret_run {A} ms (a : A) s :
  (sleep ms ;; ret a) s = (Ok a, set_now (now s + Z.max 0 ms) s).
Proof. reflexivity. Qed.

Lemma cancelled_is_no_timeout :
  is_timeout_error (mkExn Exception "接码已被取消") = false.
Proof. vm_compute. reflexivity. Qed.

Ltac bounds :=
  cbn [fst snd now set_now ret raise];
  repeat split; try discriminate; try lia.

(** One turn of the polling loop ends; it takes at most two API requests
    and one sleep, and a turn that asks for another one has slept. *)
Lemma poll_once_spec poll s r s' :
  poll_once w poll s = (r, s') ->
  r <> Diverge /\
  (now s <= now s' <= now s + (2 * (3 * L + 3000) + Z.max 0 poll))%Z /\
  (r = Ok None -> (now s + Z.max 0 poll <= now s')%Z).
Proof.
  pose proof L_nonneg as HL. intros H.
  unfold poll_once, try_except in H. unfold bind at 1 in H.
  destruct (timed_get_status s) as [Hd Ht].
  destruct (get_status w s) as [[st|e|] s1]; cbn [fst snd] in Hd, Ht.
  - destruct st as [|lc| | |[code|]|msg].
    + rewrite sleep_ret_run in H. injection H as <- <-. bounds.
    + rewrite sleep_ret_run in H. injection H as <- <-. bounds.
    + unfold bind at 1 in H. unfold bind at 1 in H.
      destruct (timed_set_status RESEND s1) as [Hd2 Ht2].
      destruct (set_status w RESEND s1) as [[b|e2|] s2]; cbn [fst snd] in Hd2, Ht2.
      * cbn [ret] in H. rewrite sleep_ret_run in H. injection H as <- <-. bounds.
      * cbn [ret] in H. rewrite sleep_ret_run in H. injection H as <- <-. bounds.
      * congruence.
    + unfold raise at 1 in H. rewrite cancelled_is_no_timeout in H.
      injection H as <- <-. bounds.
    + destruct (Py.truthy code).
      * injection H as <- <-. bounds.
      * rewrite sleep_ret_run in H. injection H as <- <-. bounds.
    + rewrite sleep_ret_run in H. injection H as <- <-. bounds.
    + rewrite sleep_ret_run in H. injection H as <- <-. bounds.
  - destruct (is_timeout_error e).
    + rewrite sleep_ret_run in H. injection H as <- <-. bounds.
    + injection H as <- <-. bounds.
  - congruence.
Qed.

Lemma wait_loop_spec poll timeout start : (0 < poll)%Z ->
  forall fuel s r s',
  (timeout - (now s - start) < Z.of_nat fuel * poll)%Z ->
  (now s - start < Z.max 0 timeout + (2 * (3 * L + 3000) + poll))%Z ->
  wait_loop w fuel start timeout poll s = (r, s') ->
  r <> Diverge /\
  (now s <= now s')%Z /\
  (now s' - start < Z.max 0 timeout + (2 * (3 * L + 3000) + poll))%Z.
Proof.
  intros Hpoll. pose proof L_nonneg as HL.
  induction fuel as [|fuel IH]; intros s r s' Hfuel Hnow H.
  - cbn [wait_loop] in H. unfold bind, get in H.
    destruct (now s - start <? timeout)%Z eqn:Hc.
    + apply Z.ltb_lt in Hc. lia.
    + injection H as <- <-. bounds.
  - cbn [wait_loop] in H. unfold bind at 1 in H. unfold get at 1 in H.
    destruct (now s - start <? timeout)%Z eqn:Hc.
    + apply Z.ltb_lt in Hc. unfold bind at 1 in H.
      destruct (poll_once w poll s) as [r1 s1] eqn:Hp.
      apply poll_once_spec in Hp. destruct Hp as [Hd [Ht Hstep]].
      rewrite (Z.max_r 0 poll) in Ht, Hstep by lia.
      destruct r1 as [[code|]|e|].
      * injection H as <- <-. bounds.
      * specialize (Hstep eq_refl).
        apply IH in H; [| lia | lia].
        destruct H as [H1 [H2 H3]]. repeat split; [exact H1 | lia | exact H3].
      * injection H as <- <-. bounds.
      * congruence.
    + injection H as <- <-. bounds.
Qed.

Lemma turns_suffice timeout poll fuel :
  (0 < poll)%Z -> (turns timeout poll <= fuel)%nat ->
  (timeout < Z.of_nat fuel * poll)%Z.
Proof.
  intros Hp Hf. unfold turns in Hf.
  assert (H0 : (0 <= Z.max 0 timeout / poll)%Z) by (apply Z.div_pos; lia).
  assert (H1 : (Z.max 0 timeout / poll + 1 <= Z.of_nat fuel)%Z) by lia.
  pose proof (Z.mul_succ_div_gt (Z.max 0 timeout) poll Hp) as H2.
  nia.
Qed.

(** Whatever the exchanges take: a polling turn ends, and a turn that asks
    for another one has slept. *)
Lemma poll_once_progress poll s r s' :
  poll_once w poll s = (r, s') ->
  r <> Diverge /\ (now s <= now s')%Z /\
  (r = Ok None -> (now s + Z.max 0 poll <= now s')%Z).
Proof.
  intros H.
  unfold poll_once, try_except in H. unfold bind at 1 in H.
  destruct (ends_get_status s) as [Hd Ht].
  destruct (get_status w s) as [[st|e|] s1]; cbn [fst snd] in Hd, Ht.
  - destruct st as [|lc| | |[code|]|msg].
    + rewrite sleep_ret_run in H. injection H as <- <-. bounds.
    + rewrite sleep_ret_run in H. injection H as <- <-. bounds.
    + unfold bind at 1 in H. unfold bind at 1 in H.
      destruct (ends_set_status RESEND s1) as [Hd2 Ht2].
      destruct (set_status w RESEND s1) as [[b|e2|] s2]; cbn [fst snd] in Hd2, Ht2.
      * cbn [ret] in H. rewrite sleep_ret_run in H. injection H as <- <-. bounds.
      * cbn [ret] in H. rewrite sleep_ret_run in H. injection H as <- <-. bounds.
      * congruence.
    + unfold raise at 1 in H. rewrite cancelled_is_no_timeout in H.
      injection H as <- <-. bounds.
    + destruct (Py.truthy code).
      * injection H as <- <-. bounds.
      * rewrite sleep_ret_run in H. injection H as <- <-. bounds.
    + rewrite sleep_ret_run in H. injection H as <- <-. bounds.
    + rewrite sleep_ret_run in H. injection H as <- <-. bounds.
  - destruct (is_timeout_error e).
    + rewrite sleep_ret_run in H. injection H as <- <-. bounds.
    + injection H as <- <-. bounds.
  - congruence.
Qed.

(** With a positive poll interval the loop ends within its fuel, however
    long the provider takes. *)
Lemma wait_loop_ends poll timeout start : (0 < poll)%Z ->
  forall fuel s r s',
  (timeout - (now s - start) < Z.of_nat fuel * poll)%Z ->
  wait_loop w fuel start timeout poll s = (r, s') ->
  r <> Diverge /\ (now s <= now s')%Z.
Proof.
  intros Hpoll.
  induction fuel as [|fuel IH]; intros s r s' Hfuel H.
  - cbn [wait_loop] in H. unfold bind, get in H.
    destruct (now s - start <? timeout)%Z eqn:Hc.
    + apply Z.ltb_lt in Hc. lia.
    + injection H as <- <-. bounds.
  - cbn [wait_loop] in H. unfold bind at 1 in H. unfold get at 1 in H.
    destruct (now s - start <? timeout)%Z eqn:Hc.
    + apply Z.ltb_lt in Hc. unfold bind at 1 in H.
      destruct (poll_once w poll s) as [r1 s1] eqn:Hp.
      apply poll_once_progress in Hp. destruct Hp as [Hd [Ht Hstep]].
      rewrite (Z.max_r 0 poll) in Hstep by lia.
      destruct r1 as [[code|]|e|].
      * injection H as <- <-. bounds.
      * specialize (Hstep eq_refl).
        apply IH in H; [| lia].
        destruct H as [H1 H2]. split; [exact H1 | lia].
      * injection H as <- <-. bounds.
      * congruence.
    + injection H as <- <-. bounds.
Qed.

End Timing.

(** C6 (as amended). With a positive poll interval the wait always ends
    (it returns a code or raises), however long the provider takes.  When
    no exchange with the provider outlasts [L] ms, it ends less than
    [max 0 timeout + poll_interval + 2 * (3 * L + 3000)] ms after it
    started: the deadline is looked at only at the head of a polling
    turn, and a turn may make two [_api_request] calls (the status query
    and a resend), each of at most three exchanges and 3000 ms of
    back-off, before it sleeps.  For [timeout = 60000] and
    [poll_interval = 3000] the bound is [69000 + 6 * L] ms. *)
Theorem wait_for_verification_code_bounded
  (w : World) (fuel : nat) (timeout poll_interval : Z)
  (s s' : State) (r : result string) :
  (0 < poll_interval)%Z ->
  (GrizzlySMSService.turns timeout poll_interval <= fuel)%nat ->
  GrizzlySMSService.wait_for_verification_code w fuel timeout poll_interval s
    = (r, s') ->
  r <> Diverge /\ (0 <= now s' - now s)%Z /\
  forall L : Z,
    (forall k, (Z.of_N (latency (sms_http w k)) <= L)%Z) ->
    (now s' - now s
       < Z.max 0 timeout + poll_interval + 2 * (3 * L + 3000))%Z.
Proof.
  intros Hpoll Hfuel H.
  pose proof (turns_suffice timeout poll_interval fuel Hpoll Hfuel) as Hturns.
  unfold GrizzlySMSService.wait_for_verification_code in H.
  unfold bind at 1 in H. unfold get at 1 in H.
  destruct (GrizzlySMSService.truthy_id (activation_id (sms s))).
  - pose proof (wait_loop_ends w poll_interval timeout (now s) Hpoll
                  fuel s r s' ltac:(lia) H) as [Hd Hnow].
    split; [exact Hd|]. split; [lia|]. intros L HL.
    assert (H0 : (0 <= L)%Z) by (pose proof (HL 0%nat); lia).
    apply (wait_loop_spec w L HL poll_interval timeout (now s) Hpoll) in H.
    + destruct H as [H1 [H2 H3]]. lia.
    + lia.
    + lia.
  - injection H as <- <-. split; [discriminate|]. split; [lia|].
    intros L HL. assert (H0 : (0 <= L)%Z) by (pose proof (HL 0%nat); lia).
    lia.
Qed.

Section WaitExamples.
Import GrizzlySMSService.

(** A provider that answers [STATUS_WAIT_CODE] after 5 s, every time. *)
Definition slow_world : World :=
  {| mail_create := fun _ => CreateEmail (Some "u@mail.com");
     sms_http := fun _ => {| latency := 5000; reply := HttpOk (Text "STATUS_WAIT_CODE") |};
     launch := fun _ => Returns tt;
     page := fun _ => Sample.good_page;
     store := fun _ => Sample.good_store;
     random_draws := fun k => k;
     float_of := fun price => Returns price;
     no_data := fun _ => mkExn ValueError "Expecting value: line 1 column 1 (char 0)" |}.

(** A service object holding a leased number. *)
Definition leased (c : sms_class) : State :=
  set_sms (set_fields (Some 7%Z) (Some "79990001122") (Some "dr") (Some "151")
                      (Sample.new_sms c))
          (Sample.start c).

(** With 5 s exchanges the 60 s wait with a 3 s poll fails only after
    64 s: later than [timeout + poll_interval]. *)
Lemma wait_overruns_timeout_plus_poll :
  fst (wait_for_verification_code slow_world 21 60000 3000 (leased SourceClass))
    = Raise (mkExn Exception "等待验证码超时 (60.0 秒)") /\
  (now (snd (wait_for_verification_code slow_world 21 60000 3000 (leased SourceClass)))
     - now (leased SourceClass) = 64000)%Z /\
  ~ (now (snd (wait_for_verification_code slow_world 21 60000 3000 (leased SourceClass)))
     - now (leased SourceClass) <= 60000 + 3000)%Z.
Proof.
  assert (H : wait_for_verification_code slow_world 21 60000 3000 (leased SourceClass)
              = (Raise (mkExn Exception "等待验证码超时 (60.0 秒)"),
                 snd (wait_for_verification_code slow_world 21 60000 3000 (leased SourceClass)))
              /\ now (snd (wait_for_verification_code slow_world 21 60000 3000 (leased SourceClass))) = 64000%Z).
  { vm_compute. split; reflexivity. }
  destruct H as [H1 H2]. rewrite H1 at 1. rewrite H2. cbn.
  repeat split. lia.
Qed.

(** A provider that answers at once: [STATUS_WAIT_CODE] nineteen times,
    then gateway timeouts around one [STATUS_WAIT_RESEND]. *)
Definition instant_gateway_timeouts : World :=
  {| mail_create := fun _ => CreateEmail (Some "u@mail.com");
     sms_http := fun k =>
       {| latency := 0;
          reply := if (k <? 19)%nat then HttpOk (Text "STATUS_WAIT_CODE")
                   else if (k =? 21)%nat then HttpOk (Text "STATUS_WAIT_RESEND")
                   else HttpFail "HTTP 504: Gateway Timeout" |};
     launch := fun _ => Returns tt;
     page := fun _ => Sample.good_page;
     store := fun _ => Sample.good_store;
     random_draws := fun k => k;
     float_of := fun price => Returns price;
     no_data := fun _ => mkExn ValueError "Expecting value: line 1 column 1 (char 0)" |}.

(** Answers that take no time do not keep the wait within
    [timeout + poll_interval] either: the back-off of the retried
    requests of the last turn comes on top. *)
Example wait_overruns_with_instant_answers :
  fst (wait_for_verification_code instant_gateway_timeouts 21 60000 3000
         (leased SourceClass))
    = Raise (mkExn Exception "等待验证码超时 (60.0 秒)") /\
  now (snd (wait_for_verification_code instant_gateway_timeouts 21 60000 3000
              (leased SourceClass)))
    = (now (leased SourceClass) + 66000)%Z.
Proof. vm_compute. split; reflexivity. Qed.

Definition code_arrives : World :=
  Sample.world [] [Sample.instant (Text "STATUS_WAIT_CODE");
                   Sample.instant (Text "STATUS_OK:123456")].

Example wait_returns_code :
  fst (wait_for_verification_code code_arrives 21 60000 3000 (leased SourceClass))
    = Ok "123456".
Proof. vm_compute. reflexivity. Qed.

Lemma wait_for_verification_code_bounded_witness :
  (0 < 3000)%Z /\
  (turns 60000 3000 <= 21)%nat /\
  wait_for_verification_code code_arrives 21 60000 3000 (leased SourceClass)
    = (Ok "123456",
       snd (wait_for_verification_code code_arrives 21 60000 3000 (leased SourceClass))) /\
  (0 <= now (snd (wait_for_verification_code code_arrives 21 60000 3000
                    (leased SourceClass))) - now (leased SourceClass)
     < Z.max 0 60000 + 3000 + 2 * (3 * 0 + 3000))%Z.
Proof.
  assert (Hpoll : (0 < 3000)%Z) by lia.
  assert (Hfuel : (turns 60000 3000 <= 21)%nat) by (vm_compute; lia).
  assert (E : wait_for_verification_code code_arrives 21 60000 3000 (leased SourceClass)
    = (Ok "123456",
       snd (wait_for_verification_code code_arrives 21 60000 3000 (leased SourceClass)))).
  { vm_compute. reflexivity. }
  split; [exact Hpoll|]. split; [exact Hfuel|]. split; [exact E|].
  destruct (wait_for_verification_code_bounded code_arrives 21 60000 3000
              (leased SourceClass) _ (Ok "123456") Hpoll Hfuel E)
    as (_ & Hlow & Hup).
  split; [exact Hlow|]. apply (Hup 0%Z).
  intros k. unfold code_arrives, Sample.world, sms_http.
  destruct k as [|[|k]]; cbn; try lia. destruct k; cbn; lia.
Defined.

End WaitExamples.

(** ** Leases and the trace of provider requests *)

Section Relations.

#[export] Instance extends_preorder : PreOrder extends.
Proof.
  split.
  - intros s. exists []. reflexivity.
  - intros s1 s2 s3 [n1 H1] [n2 H2]. exists (n2 ++ n1)%list.
    rewrite H2, H1. apply app_assoc.
Qed.

#[export] Instance grows_preorder : PreOrder grows.
Proof.
  split.
  - intros s. repeat split. reflexivity.
  - intros s1 s2 s3 (A1 & B1 & C1) (A2 & B2 & C2). repeat split.
    + congruence.
    + congruence.
    + transitivity s2; assumption.
Qed.

#[export] Instance quiet_preorder : PreOrder quiet.
Proof.
  split.
  - intros s. repeat split. reflexivity.
  - intros s1 s2 s3 (A1 & B1 & C1) (A2 & B2 & C2). repeat split.
    + congruence.
    + congruence.
    + transitivity s2; assumption.
Qed.

Lemma quiet_grows s s' : quiet s s' -> grows s s'.
Proof. intros (A & B & C). repeat split; [congruence | assumption | assumption]. Qed.

Context {R : State -> State -> Prop} `{PreOrder State R}.

Lemma rel_ret {A} (a : A) : rel R (ret a).
Proof. intros s. reflexivity. Qed.

Lemma rel_raise {A} e : rel R (@raise A e).
Proof. intros s. reflexivity. Qed.

Lemma rel_get : rel R get.
Proof. intros s. reflexivity. Qed.

Lemma rel_bind {A B} (m : M A) (k : A -> M B) :
  rel R m -> (forall a, rel R (k a)) -> rel R (bind m k).
Proof.
  intros Hm Hk s. unfold bind. specialize (Hm s).
  destruct (m s) as [[a|e|] s1]; cbn [snd] in *; try assumption.
  transitivity s1; [assumption | apply Hk].
Qed.

Lemma rel_try {A} (m : M A) (h : exn -> M A) :
  rel R m -> (forall e, rel R (h e)) -> rel R (try_except m h).
Proof.
  intros Hm Hh s. unfold try_except. specialize (Hm s).
  destruct (m s) as [[a|e|] s1]; cbn [snd] in *; try assumption.
  transitivity s1; [assumption | apply Hh].
Qed.

Lemma rel_finally {A} (m : M A) (f : M unit) :
  rel R m -> rel R f -> rel R (try_finally m f).
Proof.
  intros Hm Hf s. unfold try_finally. specialize (Hm s).
  destruct (m s) as [[a|e|] s1]; cbn [snd] in *; try assumption;
    specialize (Hf s1); destruct (f s1) as [[[]|e'|] s2]; cbn [snd] in *;
    transitivity s1; assumption.
Qed.

Lemma rel_of_outcome {A} (o : outcome A) : rel R (of_outcome o).
Proof. destruct o; [apply rel_ret | apply rel_raise]. Qed.

Lemma rel_diverge {A} : rel R (@GrizzlySMSService.diverge A).
Proof. intros s. reflexivity. Qed.

Lemma rel_modify (f : State -> State) : (forall s, R s (f s)) -> rel R (modify f).
Proof. intros Hf s. apply Hf. Qed.

Lemma rel_run {A} (m : M A) s r s' : rel R m -> m s = (r, s') -> R s s'.
Proof. intros Hm E. specialize (Hm s). rewrite E in Hm. exact Hm. Qed.

End Relations.

Lemma rel_weaken {A} (R R' : State -> State -> Prop) (m : M A) :
  (forall s s', R s s' -> R' s s') -> rel R m -> rel R' m.
Proof. intros HR Hm s. apply HR, Hm. Qed.

Lemma quiet_rel_grows {A} (m : M A) : rel quiet m -> rel grows m.
Proof. apply rel_weaken, quiet_grows. Qed.

Create HintDb rel.
#[export] Hint Resolve grows_preorder quiet_preorder : rel.
#[export] Hint Resolve rel_ret rel_raise rel_get rel_of_outcome rel_diverge : rel.

Ltac rel_step :=
  match goal with
  | |- rel _ (bind _ _) => apply rel_bind; [|intro]
  | |- rel _ (try_except _ _) => apply rel_try; [|intro]
  | |- rel _ (try_finally _ _) => apply rel_finally
  | |- rel _ (match ?x with _ => _ end) => destruct x
  end.
Ltac rel_auto := repeat rel_step; auto with rel.

Lemma quiet_set s f :
  sms (f s) = sms s -> sms_service_bound (f s) = sms_service_bound s ->
  trace (f s) = trace s -> quiet s (f s).
Proof. intros A B C. repeat split; try assumption. exists []. exact C. Qed.

Lemma quiet_sleep ms : rel quiet (sleep ms).
Proof. apply rel_modify. intros s. apply quiet_set; reflexivity. Qed.

Lemma quiet_emit e : rel quiet (emit e).
Proof.
  apply rel_modify. intros s. repeat split. exists [e]. reflexivity.
Qed.

Lemma quiet_counter (f : State -> State) :
  (forall s, sms (f s) = sms s) ->
  (forall s, sms_service_bound (f s) = sms_service_bound s) ->
  (forall s, trace (f s) = trace s) -> rel quiet (modify f).
Proof. intros A B C. apply rel_modify. intros s. apply quiet_set; auto. Qed.

#[export] Hint Resolve quiet_sleep quiet_emit : rel.
#[export] Hint Extern 1 (rel quiet (modify _)) =>
  (apply quiet_counter; intros; reflexivity) : rel.
#[export] Hint Extern 5 (rel grows _) => (apply quiet_rel_grows) : rel.

Section SmsFacts.
Variable w : World.
Import GrizzlySMSService.

Lemma quiet_http_get r : rel quiet (http_get w r).
Proof. unfold http_get. rel_auto. Qed.

Lemma quiet_api_attempts r retries remaining :
  rel quiet (api_attempts w r retries remaining).
Proof.
  induction remaining as [|n IH]; cbn [api_attempts]; rel_auto.
  apply quiet_http_get.
Qed.

Lemma quiet_api_request r : rel quiet (_api_request w r).
Proof. apply quiet_api_attempts. Qed.
Hint Resolve quiet_api_request : rel.

Lemma quiet_set_status st : rel quiet (set_status w st).
Proof. unfold set_status. rel_auto. Qed.

Lemma quiet_get_status : rel quiet (get_status w).
Proof. unfold get_status. rel_auto. Qed.
Hint Resolve quiet_set_status quiet_get_status : rel.

Lemma quiet_set_ready : rel quiet (set_ready w).
Proof. apply quiet_set_status. Qed.

Lemma quiet_resend_sms : rel quiet (resend_sms w).
Proof. apply quiet_set_status. Qed.

Lemma quiet_set_complete : rel quiet (set_complete w).
Proof. unfold set_complete. rel_auto. Qed.

Lemma quiet_cancel : rel quiet (cancel w).
Proof. unfold cancel. rel_auto. Qed.

Lemma quiet_get_phone_number : rel quiet get_phone_number.
Proof. unfold get_phone_number. rel_auto. Qed.

Lemma quiet_init : rel quiet init.
Proof. unfold init. rel_auto. Qed.

Lemma quiet_poll_once poll : rel quiet (poll_once w poll).
Proof. unfold poll_once. rel_auto. Qed.
Hint Resolve quiet_poll_once : rel.

Lemma quiet_wait_loop fuel start timeout poll :
  rel quiet (wait_loop w fuel start timeout poll).
Proof.
  induction fuel as [|n IH]; cbn [wait_loop]; rel_auto.
Qed.
Hint Resolve quiet_wait_loop : rel.

Lemma quiet_wait_for_verification_code fuel timeout poll :
  rel quiet (wait_for_verification_code w fuel timeout poll).
Proof. unfold wait_for_verification_code. rel_auto. Qed.

Hint Resolve quiet_set_ready quiet_resend_sms quiet_set_complete quiet_cancel
  quiet_get_phone_number quiet_init quiet_wait_for_verification_code : rel.

Lemma grows_set_fields a b c d :
  rel grows (modify (fun s => set_sms (set_fields a b c d (sms s)) s)).
Proof.
  apply rel_modify. intros s. repeat split. exists []. reflexivity.
Qed.
Hint Resolve grows_set_fields : rel.

Lemma grows_set_sms (f : State -> sms_object) :
  (forall s, klass (f s) = klass (sms s)) ->
  rel grows (modify (fun s => set_sms (f s) s)).
Proof.
  intros Hf. apply rel_modify. intros s. repeat split; [apply Hf|].
  exists []. reflexivity.
Qed.
Hint Extern 2 (rel grows (modify _)) =>
  (apply grows_set_sms; intros; reflexivity) : rel.

Lemma grows_get_number a b c : rel grows (get_number w a b c).
Proof. unfold get_number. rel_auto. Qed.

Lemma grows_close : rel grows (close w).
Proof. unfold close. rel_auto. Qed.
Hint Resolve grows_get_number grows_close : rel.

(** *** What a request leaves in the trace *)

Lemma http_get_run r s :
  http_get w r s =
  (Ok (reply (sms_http w (sms_exchanges s))),
   set_now (now s + Z.max 0 (Z.of_N (latency (sms_http w (sms_exchanges s)))))
     (set_trace (SmsGet r :: trace s)
        (set_sms_exchanges (S (sms_exchanges s)) s))).
Proof. reflexivity. Qed.

(** Every attempt of [_api_request] sends the same request; at least one
    is sent, and the call comes back. *)
Lemma api_attempts_run r retries remaining s :
  exists k, (1 <= k)%nat /\
    trace (snd (api_attempts w r retries (S remaining) s)) =
      (repeat (SmsGet r) k ++ trace s)%list /\
    fst (api_attempts w r retries (S remaining) s) <> Diverge.
Proof.
  revert s. induction remaining as [|n IH]; intros s.
  - cbn [api_attempts]. unfold bind. rewrite http_get_run.
    exists 1%nat. split; [lia|].
    destruct (reply (sms_http w (sms_exchanges s))) as [b|msg].
    + split; [reflexivity | cbn [fst ret]; discriminate].
    + destruct (retries - 0 =? retries)%nat;
        [|destruct (is_network_error msg)];
        (split; [reflexivity | cbn [fst raise]; discriminate]).
  - remember (S n) as m eqn:Em.
    cbn [api_attempts]. unfold bind. rewrite http_get_run.
    destruct (reply (sms_http w (sms_exchanges s))) as [b|msg].
    + exists 1%nat. split; [lia|].
      split; [reflexivity | cbn [fst ret]; discriminate].
    + destruct (retries - m =? retries)%nat.
      * exists 1%nat. split; [lia|].
        split; [reflexivity | cbn [fst raise]; discriminate].
      * destruct (is_network_error msg).
        -- cbv [sleep modify]. subst m.
           match goal with
           | |- context [api_attempts w r retries (S n) ?s1] =>
               destruct (IH s1) as (k & Hk & Ht & Hd)
           end.
           exists (S k). split; [lia|]. split; [|exact Hd].
           rewrite Ht. cbn [trace set_now set_trace].
           change (repeat (SmsGet r) (S k))
             with (SmsGet r :: repeat (SmsGet r) k).
           rewrite repeat_cons, <- app_assoc. reflexivity.
        -- exists 1%nat. split; [lia|].
           split; [reflexivity | cbn [fst raise]; discriminate].
Qed.

Lemma set_status_run st id s :
  truthy_id (activation_id (sms s)) = Some id ->
  exists k, (1 <= k)%nat /\
    trace (snd (set_status w st s)) =
      (repeat (SmsGet (setStatus st id)) k ++ trace s)%list /\
    fst (set_status w st s) <> Diverge.
Proof.
  intros Hid. cbv [set_status bind get _api_request]. rewrite Hid.
  destruct (api_attempts_run (setStatus st id) 3 2 s) as (k & Hk & Ht & Hd).
  exists k. split; [exact Hk|].
  destruct (api_attempts w (setStatus st id) 3 3 s) as [[b|e|] s1];
    cbn [fst snd] in Ht, Hd.
  - repeat match goal with
           | |- context [if ?c then _ else _] => destruct c
           end; cbn [fst snd ret raise]; (split; [exact Ht | discriminate]).
  - cbn [fst snd]. split; [exact Ht | discriminate].
  - contradiction.
Qed.

(** [set_status] only returns for a service that holds an activation id. *)
Lemma set_status_Ok st s b s' :
  set_status w st s = (Ok b, s') ->
  exists id, truthy_id (activation_id (sms s)) = Some id.
Proof.
  cbv [set_status bind get].
  destruct (truthy_id (activation_id (sms s))) as [id|].
  - intros _. exists id. reflexivity.
  - cbv [raise]. discriminate.
Qed.

(** [cancel] and [set_complete] always come back, having sent their
    request when the service holds an activation id. *)
Lemma swallowed_status_run st id s :
  truthy_id (activation_id (sms s)) = Some id ->
  exists x s' k,
    try_except (response <- set_status w st ;; ret (Some response))
               (fun _ => ret None) s = (Ok x, s') /\
    (1 <= k)%nat /\
    trace s' = (repeat (SmsGet (setStatus st id)) k ++ trace s)%list /\
    sms s' = sms s /\ sms_service_bound s' = sms_service_bound s.
Proof.
  intros Hid.
  destruct (set_status_run st id s Hid) as (k & Hk & Ht & Hd).
  pose proof (quiet_set_status st s) as (Hs & Hb & _).
  cbv [try_except bind].
  destruct (set_status w st s) as [[b|e|] s1]; cbn [fst snd] in *.
  - exists (Some b), s1, k. cbv [ret]. auto.
  - exists None, s1, k. cbv [ret]. auto.
  - contradiction.
Qed.

Lemma cancel_run id s :
  truthy_id (activation_id (sms s)) = Some id ->
  exists x s' k,
    cancel w s = (Ok x, s') /\ (1 <= k)%nat /\
    trace s' = (repeat (SmsGet (setStatus CANCEL id)) k ++ trace s)%list /\
    sms s' = sms s /\ sms_service_bound s' = sms_service_bound s.
Proof. apply swallowed_status_run. Qed.

Lemma set_complete_run id s :
  truthy_id (activation_id (sms s)) = Some id ->
  exists x s' k,
    set_complete w s = (Ok x, s') /\ (1 <= k)%nat /\
    trace s' = (repeat (SmsGet (setStatus COMPLETE id)) k ++ trace s)%list /\
    sms s' = sms s /\ sms_service_bound s' = sms_service_bound s.
Proof. apply swallowed_status_run. Qed.

(** [close] on a service that holds a lease: the cancel request goes out
    and the fields are cleared. *)
Lemma close_leased id s :
  truthy_id (activation_id (sms s)) = Some id ->
  exists s' k,
    close w s = (Ok tt, s') /\ (1 <= k)%nat /\
    trace s' = (repeat (SmsGet (setStatus CANCEL id)) k ++ trace s)%list /\
    activation_id (sms s') = None /\ phone_number (sms s') = None /\
    sms_service_bound s' = sms_service_bound s.
Proof.
  intros Hid.
  destruct (cancel_run id s Hid) as (x & s1 & k & Hc & Hk & Ht & Hs & Hb).
  exists (set_sms (set_fields None None None None (sms s1)) s1), k.
  cbv [close bind get]. rewrite Hid, Hc. cbv [bind ret modify].
  repeat split; assumption.
Qed.

(** [close] on a service without a lease sends nothing. *)
Lemma close_idle s :
  truthy_id (activation_id (sms s)) = None ->
  close w s = (Ok tt, set_sms (set_fields None None None None (sms s)) s).
Proof. intros Hid. cbv [close bind get]. rewrite Hid. reflexivity. Qed.

End SmsFacts.

#[export] Hint Resolve quiet_api_request quiet_set_status quiet_get_status
  quiet_set_ready quiet_resend_sms quiet_set_complete quiet_cancel
  quiet_get_phone_number quiet_init quiet_poll_once quiet_wait_loop
  quiet_wait_for_verification_code grows_set_fields grows_get_number
  grows_close : rel.

Section RegisterFacts.
Variable w : World.
Import OpenAIRegister.

Lemma quiet_current_page : rel quiet (current_page w).
Proof. unfold current_page. rel_auto. Qed.
Hint Resolve quiet_current_page : rel.

Lemma quiet_register_init : rel quiet (init w).
Proof. unfold init. rel_auto. Qed.

Lemma quiet_register email password : rel quiet (register w email password).
Proof. unfold register. rel_auto. Qed.

Lemma quiet_register_close : rel quiet close.
Proof. unfold close. rel_auto. Qed.

Lemma quiet_handle_sora_onboarding email :
  rel quiet (_handle_sora_onboarding w email).
Proof. unfold _handle_sora_onboarding. rel_auto. Qed.

Lemma quiet_get_session_token : rel quiet (get_session_token w).
Proof. unfold get_session_token. rel_auto. Qed.

Lemma quiet_session_to_access_token t : rel quiet (session_to_access_token w t).
Proof. unfold session_to_access_token. rel_auto. Qed.

Lemma quiet_start_request p : rel quiet (start_request w p).
Proof. unfold start_request. rel_auto. Qed.

Lemma quiet_finish_request p c : rel quiet (finish_request w p c).
Proof. unfold finish_request. rel_auto. Qed.

Lemma quiet_reload : rel quiet (reload w).
Proof. unfold reload. rel_auto. Qed.

Hint Resolve quiet_register_init quiet_register quiet_register_close
  quiet_handle_sora_onboarding quiet_get_session_token
  quiet_session_to_access_token quiet_start_request quiet_finish_request
  quiet_reload : rel.

Lemma grows_getNumber mp : rel grows (getNumber w mp).
Proof. unfold getNumber. rel_auto. Qed.
Hint Resolve grows_getNumber : rel.

Lemma quiet_reuse_number : rel quiet (obtain_number w true).
Proof. unfold obtain_number. rel_auto. Qed.

Lemma grows_obtain_number reuse : rel grows (obtain_number w reuse).
Proof. unfold obtain_number. rel_auto. Qed.

Lemma grows_rotate_number : rel grows (rotate_number w).
Proof. unfold rotate_number. rel_auto. Qed.
Hint Resolve quiet_reuse_number grows_obtain_number grows_rotate_number : rel.

Lemma grows_await_code remaining p : rel grows (await_code w remaining p).
Proof.
  revert p. induction remaining as [|n IH]; intros p; cbn [await_code]; rel_auto.
Qed.
Hint Resolve grows_await_code : rel.

Lemma grows_enroll p sc : rel grows (enroll w p sc).
Proof. unfold enroll. rel_auto. Qed.
Hint Resolve grows_enroll : rel.

Lemma grows_handle_phone_verification email reuse sc :
  rel grows (_handle_phone_verification w email reuse sc).
Proof. unfold _handle_phone_verification. rel_auto. Qed.

End RegisterFacts.

#[export] Hint Resolve quiet_current_page quiet_register_init quiet_register
  quiet_register_close quiet_handle_sora_onboarding quiet_get_session_token
  quiet_session_to_access_token quiet_start_request quiet_finish_request
  quiet_reload grows_getNumber quiet_reuse_number grows_obtain_number
  grows_rotate_number grows_await_code grows_enroll
  grows_handle_phone_verification : rel.

(** ** Leases: what is held, and what has been requested for it *)

Section Leases.

#[export] Instance keeps_preorder I : PreOrder (keeps I).
Proof.
  split.
  - intros s Hs. exact Hs.
  - intros s1 s2 s3 H1 H2 Hs. apply H2, H1, Hs.
Qed.

#[export] Instance stores_preorder : PreOrder stores.
Proof.
  split.
  - intros s. repeat split. reflexivity.
  - intros s1 s2 s3 (A1 & B1 & C1 & D1) (A2 & B2 & C2 & D2). repeat split.
    + congruence.
    + congruence.
    + intros id. rewrite C2. apply C1.
    + transitivity s2; assumption.
Qed.

Lemma stores_quiet s s' : stores s s' -> quiet s s'.
Proof. intros (A & B & C & D). repeat split; assumption. Qed.

Lemma extends_In ev s s' : extends s s' -> In ev (trace s) -> In ev (trace s').
Proof. intros [new E] Hin. rewrite E. apply in_or_app. right. exact Hin. Qed.

Lemma grows_extends s s' : grows s s' -> extends s s'.
Proof. intros H. apply H. Qed.

Lemma quiet_leased s s' : quiet s s' -> has_lease s -> has_lease s'.
Proof. intros (E & _) [id Hid]. exists id. rewrite E. exact Hid. Qed.

Lemma stores_completed s s' : stores s s' -> completed s -> completed s'.
Proof.
  intros (E & _ & L & _) (id & Hid & Hl). exists id. rewrite E, L. auto.
Qed.

Lemma last_status_In id st t :
  last_status id t = Some st -> In (SmsGet (setStatus st id)) t.
Proof.
  induction t as [|ev t IH]; cbn [last_status]; [discriminate|].
  destruct ev as [[svc ctry mp|st' id'|id']| | | | | |];
    try (intros E; right; apply IH, E).
  destruct (Z.eqb_spec id' id) as [->|Hne].
  - intros E. injection E as ->. left. reflexivity.
  - intros E. right. apply IH, E.
Qed.

Lemma last_status_repeat id st k t :
  (1 <= k)%nat ->
  last_status id (repeat (SmsGet (setStatus st id)) k ++ t) = Some st.
Proof.
  destruct k as [|k]; [lia|]. intros _. cbn [repeat app last_status].
  rewrite Z.eqb_refl. reflexivity.
Qed.

Lemma In_repeat_app {A} (x : A) k t : (1 <= k)%nat -> In x (repeat x k ++ t).
Proof. destruct k as [|k]; [lia|]. intros _. left. reflexivity. Qed.

(** *** Rules for [ok_post] *)

Lemma ok_ret {A} (P : State -> Prop) (a : A) (Q : A -> State -> Prop) :
  (forall s, P s -> Q a s) -> ok_post P (ret a) Q.
Proof. intros H s a' s' Hs E. injection E as <- <-. apply H, Hs. Qed.

Lemma ok_raise {A} P e (Q : A -> State -> Prop) : ok_post P (raise e) Q.
Proof. intros s a s' _ E. discriminate E. Qed.

Lemma ok_bind {A B} P (Q1 : A -> State -> Prop) (m : M A) (k : A -> M B) Q :
  ok_post P m Q1 -> (forall a, ok_post (Q1 a) (k a) Q) -> ok_post P (bind m k) Q.
Proof.
  intros Hm Hk s b s' Hs E. unfold bind in E.
  destruct (m s) as [[a|e|] s1] eqn:Em; try discriminate E.
  exact (Hk a s1 b s' (Hm s a s1 Hs Em) E).
Qed.

Lemma ok_try {A} P (m : M A) (h : exn -> M A) Q :
  ok_post P m Q -> (forall e, ok_post anywhere (h e) Q) ->
  ok_post P (try_except m h) Q.
Proof.
  intros Hm Hh s a s' Hs E. unfold try_except in E.
  destruct (m s) as [[a1|e|] s1] eqn:Em; try discriminate E.
  - injection E as <- <-. exact (Hm s a1 s1 Hs Em).
  - exact (Hh e s1 a s' I E).
Qed.

Lemma ok_weaken {A} (P P' : State -> Prop) (m : M A) (Q Q' : A -> State -> Prop) :
  (forall s, P' s -> P s) -> (forall a s, Q a s -> Q' a s) ->
  ok_post P m Q -> ok_post P' m Q'.
Proof. intros HP HQ Hm s a s' Hs E. exact (HQ a s' (Hm s a s' (HP s Hs) E)). Qed.

Lemma ok_rel {A} R (I : State -> Prop) (m : M A) :
  (forall s s', R s s' -> I s -> I s') -> rel R m ->
  ok_post I m (fun _ => I).
Proof.
  intros HR Hm s a s' Hs E. specialize (Hm s). rewrite E in Hm.
  exact (HR s s' Hm Hs).
Qed.

Lemma ok_anywhere {A} P (m : M A) : ok_post P m (fun _ => anywhere).
Proof. intros s a s' _ _. exact I. Qed.

End Leases.

#[export] Hint Resolve keeps_preorder stores_preorder : rel.

Lemma ok_quiet_leased {A} (m : M A) :
  rel quiet m -> ok_post has_lease m (fun _ => has_lease).
Proof. apply ok_rel, quiet_leased. Qed.

Lemma ok_stores_completed {A} (m : M A) :
  rel stores m -> ok_post completed m (fun _ => completed).
Proof. apply ok_rel, stores_completed. Qed.

Ltac ok_quiet_steps :=
  repeat first
    [ apply ok_raise
    | apply ok_ret; intros ? ?; assumption
    | eapply ok_bind; [ solve [apply ok_quiet_leased; rel_auto] | intro ]
    | match goal with
      | |- ok_post _ (match ?x with _ => _ end) _ => destruct x
      end ].

Section LeaseFacts.
Variable w : World.
Import GrizzlySMSService OpenAIRegister.

Lemma set_ready_leased : ok_post anywhere (set_ready w) (fun _ => has_lease).
Proof.
  intros s b s' _ E. destruct (set_status_Ok w _ _ _ _ E) as [id Hid].
  apply (quiet_leased s s').
  - exact (rel_run _ _ _ _ (quiet_set_status w READY) E).
  - exists id. exact Hid.
Qed.

Lemma obtain_number_leased :
  ok_post anywhere (obtain_number w false) (fun _ => has_lease).
Proof.
  unfold obtain_number.
  eapply ok_bind; [apply ok_anywhere | intro].
  eapply ok_bind; [apply set_ready_leased | intro].
  apply ok_ret; intros ? ?; assumption.
Qed.

Lemma rotate_number_leased :
  ok_post anywhere (rotate_number w) (fun _ => has_lease).
Proof.
  unfold rotate_number.
  eapply ok_bind; [apply ok_anywhere | intro].
  eapply ok_bind; [apply ok_anywhere | intro].
  eapply ok_bind; [apply set_ready_leased | intro].
  ok_quiet_steps.
Qed.

Lemma await_code_leased remaining p :
  ok_post has_lease (await_code w remaining p) (fun _ => has_lease).
Proof.
  revert p. induction remaining as [|n IH]; intros p; cbn [await_code].
  - apply ok_raise.
  - apply ok_try.
    + ok_quiet_steps.
    + intros e. destruct (is_timeout_error e); [|apply ok_raise].
      destruct (max_retries - n <? max_retries)%nat; [|apply ok_raise].
      eapply ok_bind; [apply rotate_number_leased | intro]. apply IH.
Qed.

Lemma stores_sleep ms : rel stores (sleep ms).
Proof.
  apply rel_modify. intros s. repeat split. exists []. reflexivity.
Qed.

Lemma set_complete_completed :
  ok_post has_lease (set_complete w) (fun _ => completed).
Proof.
  intros s x s' [id Hid] E.
  destruct (set_complete_run w id s Hid) as (x' & s1 & k & E' & Hk & Ht & Hs & _).
  rewrite E in E'. injection E' as _ <-.
  exists id. split.
  - rewrite Hs. exact Hid.
  - rewrite Ht. apply last_status_repeat, Hk.
Qed.

Lemma enroll_leased p sc : ok_post has_lease (enroll w p sc) (fun _ => has_lease).
Proof.
  unfold enroll. ok_quiet_steps.
  eapply ok_bind; [apply await_code_leased | intro].
  ok_quiet_steps.
Qed.

Lemma enroll_completed p : ok_post has_lease (enroll w p true) (fun _ => completed).
Proof.
  unfold enroll. ok_quiet_steps.
  eapply ok_bind; [apply await_code_leased | intros [code phone]].
  eapply ok_bind; [apply ok_quiet_leased, quiet_finish_request | intro].
  destruct (negb (ok _)); [apply ok_raise|].
  apply (ok_bind has_lease (fun _ => completed)).
  { eapply ok_bind; [apply set_complete_completed | intro].
    apply ok_ret. intros ? Hs. exact Hs. }
  intro.
  eapply ok_bind; [apply ok_stores_completed, stores_sleep | intro].
  repeat match goal with
         | |- ok_post _ (if ?c then _ else _) _ => destruct c
         end;
    first [apply ok_raise | apply ok_ret; intros ? Hs; exact Hs].
Qed.

Lemma phone_verification_leased email sc :
  ok_post anywhere (_handle_phone_verification w email false sc)
          (fun _ => has_lease).
Proof.
  unfold _handle_phone_verification.
  do 3 (eapply ok_bind; [apply ok_anywhere | intro]).
  eapply ok_bind; [apply ok_anywhere | intro].
  eapply ok_bind; [apply obtain_number_leased | intro].
  apply enroll_leased.
Qed.

Lemma phone_verification_completed email :
  ok_post anywhere (_handle_phone_verification w email false true)
          (fun _ => completed).
Proof.
  unfold _handle_phone_verification.
  do 3 (eapply ok_bind; [apply ok_anywhere | intro]).
  eapply ok_bind; [apply ok_anywhere | intro].
  eapply ok_bind; [apply obtain_number_leased | intro].
  apply enroll_completed.
Qed.

End LeaseFacts.

Lemma rel_seq {A B} (R1 R2 R3 : State -> State -> Prop)
      (m : M A) (k : A -> M B) :
  rel R1 m -> (forall a, rel R2 (k a)) ->
  (forall s1 s2, R1 s1 s2 -> R3 s1 s2) ->
  (forall s1 s2 s3, R1 s1 s2 -> R2 s2 s3 -> R3 s1 s3) ->
  rel R3 (bind m k).
Proof.
  intros Hm Hk H1 H12 s. unfold bind. specialize (Hm s).
  destruct (m s) as [[a|e|] s1]; cbn [snd] in *; auto.
  exact (H12 s s1 _ Hm (Hk a s1)).
Qed.

Section KeepsLease.
Variable w : World.
Variable id : Z.
Hypothesis id_nonzero : id <> 0%Z.
Import GrizzlySMSService OpenAIRegister.

Lemma quiet_keeps_held {A} (m : M A) :
  rel quiet m -> rel (keeps (held_or_cancelled id)) m.
Proof.
  apply rel_weaken. intros s s' (E & _ & X) [Hh|Hc].
  - left. rewrite E. exact Hh.
  - right. exact (extends_In _ _ _ X Hc).
Qed.

Lemma grows_keeps_cancelled {A} (m : M A) :
  rel grows m -> rel (keeps (cancelled id)) m.
Proof.
  apply rel_weaken. intros s s' (_ & _ & X) Hc. exact (extends_In _ _ _ X Hc).
Qed.

Lemma truthy_id_held s :
  activation_id (sms s) = Some id ->
  truthy_id (activation_id (sms s)) = Some id.
Proof.
  intros ->. cbn [truthy_id]. destruct (Z.eqb_spec id 0); [contradiction|reflexivity].
Qed.

(** The cancel that opens [rotate_number]. *)
Lemma cancel_releases :
  rel (fun s s' => held_or_cancelled id s -> cancelled id s')
      (try_except (cancel w ;; ret tt) (fun _ => ret tt)).
Proof.
  intros s [Hh|Hc].
  - destruct (cancel_run w id s (truthy_id_held s Hh))
      as (x & s1 & k & E & Hk & Ht & _).
    cbv [try_except bind]. rewrite E. cbn [snd ret]. unfold cancelled.
    rewrite Ht. apply In_repeat_app, Hk.
  - assert (Q : rel quiet (try_except (cancel w ;; ret tt) (fun _ => ret tt)))
      by rel_auto.
    destruct (Q s) as (_ & _ & X). exact (extends_In _ _ _ X Hc).
Qed.

Lemma keeps_rotate_number : rel (keeps (held_or_cancelled id)) (rotate_number w).
Proof.
  unfold rotate_number.
  apply (rel_seq (fun s s' => held_or_cancelled id s -> cancelled id s')
                 (keeps (cancelled id))).
  - apply cancel_releases.
  - intros _. apply grows_keeps_cancelled. rel_auto.
  - intros s1 s2 H12 Hs. right. exact (H12 Hs).
  - intros s1 s2 s3 H12 H23 Hs. right. exact (H23 (H12 Hs)).
Qed.

Hint Resolve keeps_rotate_number : rel.
Hint Extern 5 (rel (keeps (held_or_cancelled _)) _) =>
  (apply quiet_keeps_held) : rel.

Lemma keeps_await_code remaining p :
  rel (keeps (held_or_cancelled id)) (await_code w remaining p).
Proof.
  revert p. induction remaining as [|n IH]; intros p; cbn [await_code]; rel_auto.
Qed.
Hint Resolve keeps_await_code : rel.

Lemma keeps_enroll p sc : rel (keeps (held_or_cancelled id)) (enroll w p sc).
Proof. unfold enroll. rel_auto. Qed.
Hint Resolve keeps_enroll : rel.

Lemma keeps_reuse_verification email sc :
  rel (keeps (held_or_cancelled id)) (_handle_phone_verification w email true sc).
Proof. unfold _handle_phone_verification. rel_auto. Qed.

End KeepsLease.

Section MailFacts.
Variable w : World.
Import TempMailService.

Lemma stores_emit e :
  (forall st id, e <> SmsGet (setStatus st id)) -> rel stores (emit e).
Proof.
  intros He. apply rel_modify. intros s. repeat split.
  - intros id. cbn [trace set_trace last_status].
    destruct e as [[svc ctry mp|st id'|id']| | | | | |]; try reflexivity.
    exfalso. exact (He st id' eq_refl).
  - exists [e]. reflexivity.
Qed.

Lemma stores_counter (f : State -> State) :
  (forall s, sms (f s) = sms s) ->
  (forall s, sms_service_bound (f s) = sms_service_bound s) ->
  (forall s, trace (f s) = trace s) -> rel stores (modify f).
Proof.
  intros A B C. apply rel_modify. intros s. repeat split; auto.
  - intros id. rewrite C. reflexivity.
  - exists []. apply C.
Qed.

Lemma quiet_create : rel quiet (create w).
Proof. unfold create. rel_auto. Qed.
Hint Resolve quiet_create : rel.

Lemma quiet_get_email_loop max_retries remaining :
  rel quiet (get_email_loop w max_retries remaining).
Proof.
  induction remaining as [|n IH]; cbn [get_email_loop]; rel_auto.
Qed.

Lemma quiet_get_email_address max_retries :
  rel quiet (get_email_address w max_retries).
Proof. apply quiet_get_email_loop. Qed.

Lemma quiet_mail_close : rel quiet close.
Proof. unfold close. rel_auto. Qed.

Lemma quiet_mail_init key : rel quiet (init key).
Proof. unfold init. rel_auto. Qed.

End MailFacts.

#[export] Hint Resolve quiet_get_email_address quiet_mail_close quiet_mail_init
  : rel.
#[export] Hint Extern 1 (rel stores (modify _)) =>
  (apply stores_counter; intros; reflexivity) : rel.
#[export] Hint Extern 1 (rel stores (emit _)) =>
  (apply stores_emit; intros; discriminate) : rel.

Section FlowFacts.
Variable w : World.
Variable sms_cls : sms_class.
Variable self : RegisterFlowService.self_fields.
Import RegisterFlowService.

Lemma quiet_launch_browser : rel quiet (launch_browser w).
Proof. unfold launch_browser. rel_auto. Qed.

Lemma quiet_new_temp_mail : rel quiet (new_temp_mail self).
Proof. unfold new_temp_mail. rel_auto. Qed.

Lemma quiet_generate_password : rel quiet (_generate_password w).
Proof. unfold _generate_password. rel_auto. Qed.

Lemma stores_save_account email : rel stores (save_account w email).
Proof. unfold save_account. rel_auto. Qed.

Lemma quiet_save_account email : rel quiet (save_account w email).
Proof. exact (rel_weaken _ _ _ stores_quiet (stores_save_account email)). Qed.

Hint Resolve quiet_launch_browser quiet_new_temp_mail quiet_generate_password
  quiet_save_account : rel.

Lemma grows_first_task rule : rel grows (first_task w rule).
Proof. unfold first_task. rel_auto. Qed.

Lemma grows_later_task i remaining : rel grows (later_task w self i remaining).
Proof. unfold later_task. rel_auto. Qed.

Lemma first_task_leased rule :
  ok_post anywhere (first_task w rule) (fun _ => has_lease).
Proof.
  unfold first_task.
  do 3 (eapply ok_bind; [apply ok_anywhere | intro]).
  destruct (negb _); [apply ok_raise|].
  eapply ok_bind; [apply ok_anywhere | intro].
  eapply ok_bind; [apply phone_verification_leased | intro].
  ok_quiet_steps.
Qed.

Lemma first_task_completed :
  ok_post anywhere (first_task w "1绑1") (fun _ => completed).
Proof.
  unfold first_task.
  change (String.eqb "1绑1" "1绑1") with true.
  do 3 (eapply ok_bind; [apply ok_anywhere | intro]).
  destruct (negb _); [apply ok_raise|].
  eapply ok_bind; [apply ok_anywhere | intro].
  eapply ok_bind; [apply phone_verification_completed | intro].
  destruct (negb _); [apply ok_raise|].
  eapply ok_bind; [apply ok_stores_completed, stores_save_account | intro].
  apply ok_ret. intros ? Hs. exact Hs.
Qed.

End FlowFacts.

(** ** The SMS service, method by method *)

Section SmsService.
Variable w : World.
Import GrizzlySMSService.

(** What the attempts of [_api_request] come to, read off the replies:
    [k] requests go out, the first [k - 1] of them answered by failures
    that name a network error, and the last reply decides the outcome. *)
Lemma api_attempts_spec r retries n s :
  (S n <= retries)%nat ->
  exists k s',
    (1 <= k <= S n)%nat /\
    (forall j, (j < k - 1)%nat -> exists msg,
        reply (sms_http w (sms_exchanges s + j)) = HttpFail msg /\
        is_network_error msg = true) /\
    api_attempts w r retries (S n) s =
      (match reply (sms_http w (sms_exchanges s + (k - 1))) with
       | HttpOk b => Ok b
       | HttpFail msg => Raise (mkExn Exception msg)
       end, s') /\
    trace s' = (repeat (SmsGet r) k ++ trace s)%list /\
    sms_exchanges s' = (sms_exchanges s + k)%nat /\
    sms s' = sms s /\ sms_service_bound s' = sms_service_bound s.
Proof.
  revert s. induction n as [|n IH]; intros s Hn.
  - cbn [api_attempts]. unfold bind. rewrite http_get_run.
    rewrite Nat.sub_0_r, Nat.eqb_refl.
    eexists 1%nat, _. split; [lia|]. split; [intros j Hj; lia|].
    replace (sms_exchanges s + (1 - 1))%nat with (sms_exchanges s) by lia.
    split.
    + destruct (reply (sms_http w (sms_exchanges s))) as [b|msg]; reflexivity.
    + cbn [trace sms_exchanges sms sms_service_bound set_now set_trace
           set_sms_exchanges repeat app].
      repeat split. lia.
  - remember (S n) as m eqn:Em.
    cbn [api_attempts]. unfold bind. rewrite http_get_run.
    assert (Hlast : (retries - m =? retries)%nat = false)
      by (apply Nat.eqb_neq; lia).
    rewrite Hlast.
    destruct (reply (sms_http w (sms_exchanges s))) as [b|msg] eqn:Er.
    + eexists 1%nat, _. split; [lia|]. split; [intros j Hj; lia|].
      replace (sms_exchanges s + (1 - 1))%nat with (sms_exchanges s) by lia.
      rewrite Er. split; [reflexivity|].
      cbn [trace sms_exchanges sms sms_service_bound set_now set_trace
           set_sms_exchanges repeat app].
      repeat split. lia.
    + destruct (is_network_error msg) eqn:En.
      * cbv [sleep modify]. subst m.
        match goal with
        | |- context [api_attempts w r retries (S n) ?s1] =>
            destruct (IH s1 ltac:(lia))
              as (k & s' & Hk & Hfail & Hrun & Ht & Hx & Hs & Hb)
        end.
        cbn [trace sms_exchanges sms sms_service_bound set_now set_trace
             set_sms_exchanges] in Hfail, Hrun, Ht, Hx, Hs, Hb.
        exists (S k), s'. split; [lia|]. split.
        { intros [|j] Hj.
          - exists msg. rewrite Nat.add_0_r. auto.
          - destruct (Hfail j ltac:(lia)) as (msg' & E1 & E2).
            exists msg'. split; [|exact E2].
            rewrite <- E1. f_equal. f_equal. lia. }
        split.
        { rewrite Hrun. f_equal.
          replace (sms_exchanges s + (S k - 1))%nat
            with (S (sms_exchanges s) + (k - 1))%nat by lia.
          reflexivity. }
        split.
        { rewrite Ht.
          change (repeat (SmsGet r) (S k))
            with (SmsGet r :: repeat (SmsGet r) k).
          rewrite repeat_cons, <- app_assoc. reflexivity. }
        repeat split; [lia | exact Hs | exact Hb].
      * eexists 1%nat, _. split; [lia|]. split; [intros j Hj; lia|].
        replace (sms_exchanges s + (1 - 1))%nat with (sms_exchanges s) by lia.
        rewrite Er. split; [reflexivity|].
        cbn [trace sms_exchanges sms sms_service_bound set_now set_trace
             set_sms_exchanges repeat app].
        repeat split. lia.
Qed.

(** X1. [_api_request] sends the same request one to three times; every
    reply before the last was a failure naming a network error; the last
    reply is the outcome (its body, or its error text raised); the service
    fields are untouched. *)
Theorem api_request_retry_discipline (r : sms_request) (s : State) :
  exists k s',
    (1 <= k <= 3)%nat /\
    (forall j, (j < k - 1)%nat -> exists msg,
        reply (sms_http w (sms_exchanges s + j)) = HttpFail msg /\
        is_network_error msg = true) /\
    _api_request w r s =
      (match reply (sms_http w (sms_exchanges s + (k - 1))) with
       | HttpOk b => Ok b
       | HttpFail msg => Raise (mkExn Exception msg)
       end, s') /\
    trace s' = (repeat (SmsGet r) k ++ trace s)%list /\
    sms s' = sms s.
Proof.
  destruct (api_attempts_spec r 3 2 s (le_n 3))
    as (k & s' & Hk & Hfail & Hrun & Ht & _ & Hs & _).
  exists k, s'. auto.
Qed.

(** A status request of a service that holds an activation id. *)
Lemma set_status_spec st id s :
  truthy_id (activation_id (sms s)) = Some id ->
  exists k r s',
    (1 <= k <= 3)%nat /\ set_status w st s = (r, s') /\ r <> Diverge /\
    trace s' = (repeat (SmsGet (setStatus st id)) k ++ trace s)%list /\
    sms s' = sms s /\ sms_service_bound s' = sms_service_bound s.
Proof.
  intros Hid.
  destruct (api_attempts_spec (setStatus st id) 3 2 s (le_n 3))
    as (k & s' & Hk & _ & Hrun & Ht & _ & Hs & Hb).
  cbv [set_status bind get _api_request]. rewrite Hid, Hrun.
  destruct (reply (sms_http w (sms_exchanges s + (k - 1)))) as [b|msg].
  - repeat match goal with
           | |- context [if ?c then _ else _] => destruct c
           end;
      cbv [raise ret]; eexists k, _, s';
      (split; [exact Hk|]); (split; [reflexivity|]);
      (split; [discriminate|]); auto.
  - eexists k, _, s'. split; [exact Hk|]. split; [reflexivity|].
    split; [discriminate|]. auto.
Qed.

Lemma set_status_idle st s :
  truthy_id (activation_id (sms s)) = None ->
  set_status w st s = (Raise (mkExn Exception "激活ID不存在，请先申请号码"), s).
Proof. intros Hid. cbv [set_status bind get]. rewrite Hid. reflexivity. Qed.

(** [cancel] and [set_complete]: the request of a held lease goes out,
    whatever comes back is swallowed, nothing is forgotten. *)
Lemma swallowed_status_spec st s :
  exists x s',
    try_except (response <- set_status w st ;; ret (Some response))
               (fun _ => ret None) s = (Ok x, s') /\
    sms s' = sms s /\ sms_service_bound s' = sms_service_bound s /\
    match truthy_id (activation_id (sms s)) with
    | Some id => exists k, (1 <= k <= 3)%nat /\
        trace s' = (repeat (SmsGet (setStatus st id)) k ++ trace s)%list
    | None => s' = s /\ x = None
    end.
Proof.
  destruct (truthy_id (activation_id (sms s))) as [id|] eqn:Hid.
  - destruct (set_status_spec st id s Hid)
      as (k & r & s' & Hk & Hrun & Hd & Ht & Hs & Hb).
    cbv [try_except bind]. rewrite Hrun.
    destruct r as [b|e|]; [| |contradiction]; cbv [ret];
      eexists _, s'; (split; [reflexivity|]);
      (split; [exact Hs|]); (split; [exact Hb|]); exists k; auto.
  - cbv [try_except bind]. rewrite (set_status_idle st s Hid). cbv [ret].
    exists None, s. auto.
Qed.

(** X2. [cancel] and [set_complete] never raise and never forget the
    lease: the activation id and the phone number stay on the service
    object, so [get_phone_number] still answers with the number. *)
Theorem cancel_and_complete_keep_the_lease (s : State) :
  (exists x s', cancel w s = (Ok x, s') /\ sms s' = sms s /\
     get_phone_number s' = (Ok (phone_number (sms s)), s')) /\
  (exists x s', set_complete w s = (Ok x, s') /\ sms s' = sms s /\
     get_phone_number s' = (Ok (phone_number (sms s)), s')).
Proof.
  split.
  - destruct (swallowed_status_spec CANCEL s) as (x & s' & E & Hs & _).
    exists x, s'. split; [exact E|]. split; [exact Hs|].
    cbv [get_phone_number bind get ret]. rewrite Hs. reflexivity.
  - destruct (swallowed_status_spec COMPLETE s) as (x & s' & E & Hs & _).
    exists x, s'. split; [exact E|]. split; [exact Hs|].
    cbv [get_phone_number bind get ret]. rewrite Hs. reflexivity.
Qed.

(** What [close] comes to. *)
Lemma close_spec s :
  exists s',
    close w s = (Ok tt, s') /\
    sms s' = set_fields None None None None (sms s) /\
    sms_service_bound s' = sms_service_bound s /\
    match truthy_id (activation_id (sms s)) with
    | Some id => exists k, (1 <= k <= 3)%nat /\
        trace s' = (repeat (SmsGet (setStatus CANCEL id)) k ++ trace s)%list
    | None => trace s' = trace s
    end.
Proof.
  destruct (truthy_id (activation_id (sms s))) as [id|] eqn:Hid.
  - pose proof (swallowed_status_spec CANCEL s) as (x & s1 & E & Hs & Hb & Hk).
    rewrite Hid in Hk.
    exists (set_sms (set_fields None None None None (sms s1)) s1).
    cbv [close bind get]. rewrite Hid.
    change (try_except (response <- set_status w CANCEL;; ret (Some response))
              (fun _ => ret None)) with (cancel w) in E.
    rewrite E. cbv [bind ret modify].
    split; [reflexivity|]. cbn [sms set_sms sms_service_bound trace].
    rewrite Hs. auto.
  - rewrite (close_idle w s Hid).
    exists (set_sms (set_fields None None None None (sms s)) s). auto.
Qed.

(** X3. [close] always returns; for a held lease it sends the cancel
    request (one to three attempts) and nothing otherwise; it clears the
    activation id, the number, the service and the country; a second
    [close] sends nothing and changes nothing. *)
Theorem close_cancels_once_and_clears (s : State) :
  exists s',
    close w s = (Ok tt, s') /\
    activation_id (sms s') = None /\ phone_number (sms s') = None /\
    service (sms s') = None /\ country (sms s') = None /\
    match truthy_id (activation_id (sms s)) with
    | Some id => exists k, (1 <= k <= 3)%nat /\
        trace s' = (repeat (SmsGet (setStatus CANCEL id)) k ++ trace s)%list
    | None => trace s' = trace s
    end /\
    close w s' = (Ok tt, s').
Proof.
  destruct (close_spec s) as (s' & E & Hs & _ & Ht).
  exists s'. split; [exact E|]. rewrite Hs. cbn [set_fields activation_id
    phone_number service country]. repeat split; try exact Ht.
  rewrite close_idle by (rewrite Hs; reflexivity).
  f_equal. rewrite Hs. destruct s' as [? ? ? ? ? ? ? ? ? o ? ?].
  cbn [sms] in Hs. subst o. reflexivity.
Qed.


Lemma get_status_idle s :
  truthy_id (activation_id (sms s)) = None ->
  get_status w s = (Raise no_activation, s).
Proof. intros Hid. cbv [get_status bind get]. rewrite Hid. reflexivity. Qed.

Lemma wait_idle fuel timeout poll s :
  truthy_id (activation_id (sms s)) = None ->
  wait_for_verification_code w fuel timeout poll s = (Raise no_activation, s).
Proof.
  intros Hid. cbv [wait_for_verification_code bind get]. rewrite Hid.
  reflexivity.
Qed.

(** X4. once [close] has run, the service refuses every status call
    without contacting the provider: [set_ready], [resend_sms],
    [get_status] and [wait_for_verification_code] raise the
    missing-activation error, [cancel] and [set_complete] return [None];
    the state stays as [close] left it. *)
Theorem closed_service_refuses_status_calls
        (s : State) (fuel : nat) (timeout poll_interval : Z) :
  let s1 := snd (close w s) in
  set_ready w s1 = (Raise no_activation, s1) /\
  resend_sms w s1 = (Raise no_activation, s1) /\
  get_status w s1 = (Raise no_activation, s1) /\
  wait_for_verification_code w fuel timeout poll_interval s1
    = (Raise no_activation, s1) /\
  cancel w s1 = (Ok None, s1) /\
  set_complete w s1 = (Ok None, s1).
Proof.
  destruct (close_spec s) as (s' & E & Hs & _).
  rewrite E. cbn [snd].
  assert (Hid : truthy_id (activation_id (sms s')) = None)
    by (rewrite Hs; reflexivity).
  repeat split.
  - apply set_status_idle, Hid.
  - apply set_status_idle, Hid.
  - apply get_status_idle, Hid.
  - apply wait_idle, Hid.
  - cbv [cancel try_except bind]. rewrite (set_status_idle _ _ Hid). reflexivity.
  - cbv [set_complete try_except bind]. rewrite (set_status_idle _ _ Hid).
    reflexivity.
Qed.

Ltac leaves :=
  repeat match goal with
         | |- context [if ?c then _ else _] => destruct c
         | |- context [match second_part ?t with _ => _ end] =>
             destruct (second_part t)
         | |- context [of_outcome (float_of ?w ?p)] =>
             destruct (float_of w p); cbv [bind of_outcome ret]
         end.


(** *** Waiting for the code *)

#[export] Instance polls_preorder id : PreOrder (polls id).
Proof.
  split.
  - intros s _. split; [reflexivity|]. exists []. split; [reflexivity|constructor].
  - intros s1 s2 s3 H12 H23 Hid.
    destruct (H12 Hid) as (E1 & n1 & T1 & F1).
    destruct (H23 ltac:(rewrite E1; exact Hid)) as (E2 & n2 & T2 & F2).
    split; [congruence|]. exists (n2 ++ n1)%list. split.
    + rewrite T2, T1. apply app_assoc.
    + apply Forall_app. split; assumption.
Qed.

Lemma Forall_repeat {A} (P : A -> Prop) x k : P x -> Forall P (repeat x k).
Proof.
  intros Hx. apply Forall_forall. intros y Hy.
  rewrite (repeat_spec _ _ _ Hy). exact Hx.
Qed.

Lemma get_status_state id s :
  truthy_id (activation_id (sms s)) = Some id ->
  snd (get_status w s) = snd (_api_request w (getStatus id) s).
Proof.
  intros Hid. cbv [get_status bind get]. rewrite Hid.
  destruct (_api_request w (getStatus id) s) as [[b|e|] s1]; [|reflexivity..].
  leaves; reflexivity.
Qed.

Lemma set_status_state st id s :
  truthy_id (activation_id (sms s)) = Some id ->
  snd (set_status w st s) = snd (_api_request w (setStatus st id) s).
Proof.
  intros Hid. cbv [set_status bind get]. rewrite Hid.
  destruct (_api_request w (setStatus st id) s) as [[b|e|] s1]; [|reflexivity..].
  leaves; reflexivity.
Qed.

Lemma polls_api_request id r :
  polling id (SmsGet r) ->
  forall s, polls id s (snd (_api_request w r s)).
Proof.
  intros Hr s _.
  destruct (api_attempts_spec r 3 2 s (le_n 3))
    as (k & s1 & _ & _ & Hrun & Ht & _ & Hs & _).
  unfold _api_request. rewrite Hrun. cbn [snd].
  split; [exact Hs|]. exists (repeat (SmsGet r) k).
  split; [exact Ht|]. apply Forall_repeat, Hr.
Qed.

Lemma polls_get_status id : rel (polls id) (get_status w).
Proof.
  intros s Hid. rewrite (get_status_state id s Hid).
  apply polls_api_request; [left; reflexivity | exact Hid].
Qed.

Lemma polls_resend id : rel (polls id) (set_status w RESEND).
Proof.
  intros s Hid. rewrite (set_status_state RESEND id s Hid).
  apply polls_api_request; [right; reflexivity | exact Hid].
Qed.

Lemma polls_sleep id ms : rel (polls id) (sleep ms).
Proof.
  intros s _. split; [reflexivity|]. exists [].
  split; [reflexivity|constructor].
Qed.

Lemma polls_poll_once id poll : rel (polls id) (poll_once w poll).
Proof.
  pose proof (polls_preorder id). pose proof (polls_get_status id).
  pose proof (polls_resend id). pose proof (polls_sleep id).
  unfold poll_once. rel_auto.
Qed.

Lemma polls_wait_loop id fuel start timeout poll :
  rel (polls id) (wait_loop w fuel start timeout poll).
Proof.
  pose proof (polls_preorder id). pose proof (polls_poll_once id).
  induction fuel as [|n IH]; cbn [wait_loop]; rel_auto.
Qed.

Lemma polls_wait id fuel timeout poll :
  rel (polls id) (wait_for_verification_code w fuel timeout poll).
Proof.
  pose proof (polls_preorder id). pose proof (polls_wait_loop id).
  unfold wait_for_verification_code. rel_auto.
Qed.

Lemma ok_diverge {A} P (Q : A -> State -> Prop) : ok_post P diverge Q.
Proof. intros s a s' _ E. discriminate E. Qed.

Lemma poll_once_code poll :
  ok_post anywhere (poll_once w poll)
    (fun r _ => match r with Some c => Py.truthy c = true | None => True end).
Proof.
  assert (Hnone : forall P, ok_post P (sleep poll ;; ret None)
            (fun r _ => match r with
                        | Some c => Py.truthy c = true
                        | None => True
                        end)).
  { intros P. eapply ok_bind; [apply ok_anywhere | intro].
    apply ok_ret. intros; exact I. }
  unfold poll_once. apply ok_try.
  - eapply ok_bind; [apply ok_anywhere | intros si].
    destruct si as [ |lc| | |[c|]|m]; try apply Hnone; try apply ok_raise.
    + eapply ok_bind; [apply ok_anywhere | intro]. apply Hnone.
    + destruct (Py.truthy c) eqn:Ec; [|apply Hnone].
      apply ok_ret. intros _ _. exact Ec.
  - intros e. destruct (is_timeout_error e); [apply Hnone | apply ok_raise].
Qed.

Lemma wait_loop_code fuel start timeout poll :
  ok_post anywhere (wait_loop w fuel start timeout poll)
          (fun c _ => Py.truthy c = true).
Proof.
  induction fuel as [|n IH]; cbn [wait_loop];
    (eapply ok_bind; [apply ok_anywhere | intros s0]);
    (destruct (now s0 - start <? timeout)%Z; [|apply ok_raise]).
  - apply ok_diverge.
  - eapply ok_bind; [apply poll_once_code | intros [c|]].
    + apply ok_ret. intros _ Hc. exact Hc.
    + exact IH.
Qed.

(** X6. while it waits, [wait_for_verification_code] leaves the service
    object alone and asks the provider only for the status of the held
    activation and, when told to, for a resend (status 3); it never
    cancels or completes.  A code it returns is not empty. *)
Theorem wait_only_polls (id : Z) (fuel : nat) (timeout poll_interval : Z)
        (s : State) :
  truthy_id (activation_id (sms s)) = Some id ->
  exists r s' new,
    wait_for_verification_code w fuel timeout poll_interval s = (r, s') /\
    sms s' = sms s /\
    trace s' = (new ++ trace s)%list /\
    Forall (polling id) new /\
    forall code, r = Ok code -> Py.truthy code = true.
Proof.
  intros Hid.
  destruct (wait_for_verification_code w fuel timeout poll_interval s)
    as [r s'] eqn:E.
  pose proof (polls_wait id fuel timeout poll_interval s Hid) as Hp.
  rewrite E in Hp. cbn [snd] in Hp. destruct Hp as (Hs & new & Ht & Hf).
  exists r, s', new. repeat split; try assumption.
  intros code ->. revert E. unfold wait_for_verification_code.
  cbv [bind get]. rewrite Hid. intros E.
  exact (wait_loop_code fuel (now s) timeout poll_interval s code s' I E).
Qed.

(** A failure that [poll_once] lets through is not one of the timeout
    kind: those are absorbed by the turn. *)
Lemma poll_once_raise poll s e s' :
  poll_once w poll s = (Raise e, s') -> is_timeout_error e = false.
Proof.
  unfold poll_once, try_except.
  match goal with
  | |- (match ?X with _ => _ end) = _ -> _ =>
      destruct X as [[x|e0|] s1]
  end.
  - discriminate.
  - destruct (is_timeout_error e0) eqn:Et.
    + cbv [bind sleep modify ret]. discriminate.
    + cbv [raise]. intros E. injection E as <- _. exact Et.
  - discriminate.
Qed.

Lemma wait_loop_timeout fuel start timeout poll s e s' :
  wait_loop w fuel start timeout poll s = (Raise e, s') ->
  is_timeout_error e = true ->
  (timeout <= now s' - start)%Z.
Proof.
  revert s. induction fuel as [|n IH]; intros s; cbn [wait_loop];
    cbv [bind get]; destruct (now s - start <? timeout)%Z eqn:Hlt.
  - discriminate.
  - cbv [raise]. intros E _. injection E as _ <-.
    apply Z.ltb_ge, Hlt.
  - destruct (poll_once w poll s) as [[[c|]|e0|] s1] eqn:Ep.
    + discriminate.
    + apply IH.
    + intros E Ht. injection E as <- _.
      rewrite (poll_once_raise _ _ _ _ Ep) in Ht. discriminate Ht.
    + discriminate.
  - cbv [raise]. intros E _. injection E as _ <-.
    apply Z.ltb_ge, Hlt.
Qed.

(** X7. [wait_for_verification_code] reports a failure of the timeout
    kind (one whose text holds 超时 or timeout) only once the whole
    [timeout] has elapsed: timeouts of single polls are absorbed and
    polling goes on. *)
Theorem wait_gives_up_only_after_timeout
        (fuel : nat) (timeout poll_interval : Z) (s s' : State) (e : exn) :
  wait_for_verification_code w fuel timeout poll_interval s = (Raise e, s') ->
  is_timeout_error e = true ->
  (timeout <= now s' - now s)%Z.
Proof.
  unfold wait_for_verification_code. cbv [bind get].
  destruct (truthy_id (activation_id (sms s))) as [id|].
  - apply wait_loop_timeout.
  - cbv [raise]. intros E Ht. injection E as <- _.
    vm_compute in Ht. discriminate Ht.
Qed.

End SmsService.

Section SmsServiceExamples.
Import GrizzlySMSService.

(** [str.lower] turns the Kelvin sign (U+212A) into [k]: an error text
    spelt with it names a network error all the same, and is retried. *)
Example kelvin_sign_names_a_network_error :
  is_network_error "NETWORK down" = true /\
  is_network_error "NETWORK down" = true /\
  is_network_error "NETWOR down" = false.
Proof. vm_compute. repeat split. Qed.

(** A gateway timeout is retried twice, with 1000 and 2000 ms between
    the attempts. *)
Example gateway_timeout_is_retried :
  fst (_api_request instant_gateway_timeouts (getStatus 7)
         (set_sms_exchanges 22 (leased SourceClass)))
    = Raise (mkExn Exception "HTTP 504: Gateway Timeout") /\
  now (snd (_api_request instant_gateway_timeouts (getStatus 7)
              (set_sms_exchanges 22 (leased SourceClass))))
    = (now (leased SourceClass) + 3000)%Z.
Proof. vm_compute. split; reflexivity. Qed.

Lemma wait_only_polls_witness :
  truthy_id (activation_id (sms (leased SourceClass))) = Some 7%Z /\
  exists r s' new,
    wait_for_verification_code code_arrives 21 60000 3000 (leased SourceClass)
      = (r, s') /\
    sms s' = sms (leased SourceClass) /\
    trace s' = (new ++ trace (leased SourceClass))%list /\
    Forall (polling 7) new /\
    forall code, r = Ok code -> Py.truthy code = true.
Proof.
  split; [reflexivity|].
  exact (wait_only_polls code_arrives 7 21 60000 3000 (leased SourceClass)
                         eq_refl).
Defined.

Lemma wait_gives_up_only_after_timeout_witness :
  is_timeout_error (mkExn Exception "等待验证码超时 (60.0 秒)") = true /\
  (60000 <= now (snd (wait_for_verification_code slow_world 21 60000 3000
                        (leased SourceClass)))
            - now (leased SourceClass))%Z.
Proof.
  split; [vm_compute; reflexivity|].
  apply (wait_gives_up_only_after_timeout slow_world 21 60000 3000
           (leased SourceClass) _ (mkExn Exception "等待验证码超时 (60.0 秒)")).
  - vm_compute. reflexivity.
  - vm_compute. reflexivity.
Defined.

End SmsServiceExamples.

(** ** Phone verification *)

Lemma bind_ok {A B} (m : M A) (k : A -> M B) s a s1 :
  m s = (Ok a, s1) -> bind m k s = k a s1.
Proof. intros E. unfold bind. rewrite E. reflexivity. Qed.

Lemma bind_raise {A B} (m : M A) (k : A -> M B) s e s1 :
  m s = (Raise e, s1) -> bind m k s = (Raise e, s1).
Proof. intros E. unfold bind. rewrite E. reflexivity. Qed.

Lemma bind_snd_grows {A B} (m : M A) (k : A -> M B) s :
  (forall a, rel grows (k a)) -> grows (snd (m s)) (snd (bind m k s)).
Proof.
  intros Hk. unfold bind. destruct (m s) as [[a|e|] s1]; cbn [snd].
  - apply Hk.
  - reflexivity.
  - reflexivity.
Qed.

#[export] Instance same_browser_preorder : PreOrder same_browser.
Proof.
  split.
  - intros s. reflexivity.
  - intros s1 s2 s3 H1 H2. unfold same_browser in *. congruence.
Qed.

Section SameBrowser.
Variable w : World.
Import GrizzlySMSService.

Lemma same_browser_modify f :
  (forall s, launches (f s) = launches s) -> rel same_browser (modify f).
Proof. intros Hf. apply rel_modify. exact Hf. Qed.

Lemma same_browser_api_attempts r n m :
  rel same_browser (api_attempts w r n m).
Proof.
  pose proof same_browser_preorder.
  assert (Hm : forall f, (forall s, launches (f s) = launches s) ->
                         rel same_browser (modify f))
    by exact same_browser_modify.
  induction m as [|m IH]; cbn [api_attempts]; [apply rel_raise|].
  unfold http_get, emit, sleep. rel_auto; apply Hm; reflexivity.
Qed.

Lemma same_browser_set_status st : rel same_browser (set_status w st).
Proof.
  pose proof same_browser_preorder.
  pose proof (fun r => same_browser_api_attempts r 3 3) as Ha.
  unfold set_status, _api_request. rel_auto.
Qed.

Lemma same_browser_cancel : rel same_browser (cancel w).
Proof.
  pose proof same_browser_preorder. pose proof same_browser_set_status.
  unfold cancel. rel_auto.
Qed.

Lemma same_browser_close : rel same_browser (close w).
Proof.
  pose proof same_browser_preorder. pose proof same_browser_cancel.
  unfold close. rel_auto. apply same_browser_modify. reflexivity.
Qed.

End SameBrowser.

Section PhoneVerification.
Variable w : World.
Import OpenAIRegister GrizzlySMSService.

(** After the 10 s pause, a page that settles and a service with a key,
    phone verification is at step 2. *)
Lemma verification_prefix email reuse sc s :
  load_state (page w (launches s - 1)) = Returns tt ->
  Py.truthy (api_key (sms s)) = true ->
  _handle_phone_verification w email reuse sc s =
  (phone_number <- obtain_number w reuse ;; enroll w phone_number sc)
    (set_now (now s + 10000) s).
Proof.
  intros Hload Hkey. unfold _handle_phone_verification.
  rewrite (bind_ok _ _ s tt (set_now (now s + 10000) s)) by reflexivity.
  rewrite (bind_ok _ _ _ (page w (launches s - 1)) (set_now (now s + 10000) s))
    by reflexivity.
  rewrite (bind_ok _ _ _ tt (set_now (now s + 10000) s))
    by (rewrite Hload; reflexivity).
  rewrite (bind_ok _ _ _ tt (set_now (now s + 10000) s))
    by (cbv [init bind get]; cbn [sms set_now]; rewrite Hkey; reflexivity).
  reflexivity.
Qed.

Lemma reuse_without_number email sc s :
  load_state (page w (launches s - 1)) = Returns tt ->
  Py.truthy (api_key (sms s)) = true ->
  truthy_opt (phone_number (sms s)) = false ->
  _handle_phone_verification w email true sc s =
  (Raise reuse_error, set_now (now s + 10000) s).
Proof.
  intros Hload Hkey Hno. rewrite (verification_prefix _ _ _ _ Hload Hkey).
  apply bind_raise. cbv [obtain_number get_phone_number bind get ret].
  cbn [sms set_now]. rewrite Hno. reflexivity.
Qed.

Lemma reuse_with_number email sc s id :
  load_state (page w (launches s - 1)) = Returns tt ->
  Py.truthy (api_key (sms s)) = true ->
  truthy_opt (phone_number (sms s)) = true ->
  truthy_id (activation_id (sms s)) = Some id ->
  exists new k,
    (1 <= k <= 3)%nat /\
    trace (snd (_handle_phone_verification w email true sc s)) =
      (new ++ repeat (SmsGet (setStatus RESEND id)) k ++ trace s)%list.
Proof.
  intros Hload Hkey Hnum Hid. rewrite (verification_prefix _ _ _ _ Hload Hkey).
  set (s0 := set_now (now s + 10000) s).
  destruct (set_status_spec w RESEND id s0 Hid)
    as (k & r & s1 & Hk & Hrun & Hd & Ht & _).
  set (p := match phone_number (sms s) with Some p => p | None => "" end).
  assert (Hstep : obtain_number w true s0 =
            (x <- resend_sms w ;; sleep 3000 ;; ret p) s0).
  { cbv [obtain_number].
    rewrite (bind_ok _ _ s0 (phone_number (sms s)) s0) by reflexivity.
    cbv beta. rewrite Hnum. reflexivity. }
  assert (Hres : resend_sms w s0 = (r, s1)) by exact Hrun.
  assert (G : grows s1 (snd ((phone_number <- obtain_number w true ;;
                               enroll w phone_number sc) s0))).
  { destruct r as [b|e|]; [| |contradiction].
    - assert (Hob : obtain_number w true s0
                    = (Ok p, set_now (now s1 + 3000) s1)).
      { rewrite Hstep. rewrite (bind_ok _ _ _ _ _ Hres). reflexivity. }
      rewrite (bind_ok _ _ _ _ _ Hob).
      transitivity (set_now (now s1 + 3000) s1).
      + repeat split. exists []. reflexivity.
      + apply grows_enroll.
    - assert (Hob : obtain_number w true s0 = (Raise e, s1)).
      { rewrite Hstep. apply bind_raise. exact Hres. }
      rewrite (bind_raise _ _ _ _ _ Hob). reflexivity. }
  destruct G as (_ & _ & new & Hnew).
  exists new, k. split; [exact Hk|]. rewrite Hnew, Ht. reflexivity.
Qed.

(** X8. Phone verification told to reuse the number (after its 10 s pause,
    on a page that settles, with an API key): if the service object holds
    no phone number it fails with the reuse error and sends nothing;
    if it holds one, its first request is the resend (status 3) for the
    held activation, whatever has been asked for that activation before. *)
Theorem reuse_depends_on_the_stored_number
        (email : string) (set_complete : bool) (s : State) :
  load_state (page w (launches s - 1)) = Returns tt ->
  Py.truthy (api_key (sms s)) = true ->
  if truthy_opt (phone_number (sms s)) then
    forall id, truthy_id (activation_id (sms s)) = Some id ->
      exists new k,
        (1 <= k <= 3)%nat /\
        trace (snd (_handle_phone_verification w email true set_complete s)) =
          (new ++ repeat (SmsGet (setStatus RESEND id)) k ++ trace s)%list
  else
    _handle_phone_verification w email true set_complete s =
    (Raise reuse_error, set_now (now s + 10000) s).
Proof.
  intros Hload Hkey.
  destruct (truthy_opt (phone_number (sms s))) eqn:Hnum.
  - intros id Hid. exact (reuse_with_number _ _ _ _ Hload Hkey Hnum Hid).
  - exact (reuse_without_number _ _ _ Hload Hkey Hnum).
Qed.

(** X9. What is left of a lease decides a later reuse: after [cancel]
    the number and the activation id are still on the service object, so
    reuse sends the resend request for the cancelled activation; after
    [close] they are gone, and reuse fails with the reuse error. *)
Theorem reuse_after_cancel_and_after_close
        (email : string) (set_complete : bool) (s : State) (id : Z) :
  load_state (page w (launches s - 1)) = Returns tt ->
  Py.truthy (api_key (sms s)) = true ->
  truthy_opt (phone_number (sms s)) = true ->
  truthy_id (activation_id (sms s)) = Some id ->
  In (SmsGet (setStatus RESEND id))
     (trace (snd (_handle_phone_verification w email true set_complete
                    (snd (cancel w s))))) /\
  fst (_handle_phone_verification w email true set_complete (snd (close w s)))
    = Raise reuse_error.
Proof.
  intros Hload Hkey Hnum Hid. split.
  - destruct (swallowed_status_spec w CANCEL s) as (x & s1 & E & Hs & Hb & _).
    change (cancel w s = (Ok x, s1)) in E.
    pose proof (rel_run _ _ _ _ (same_browser_cancel w) E) as Hl.
    rewrite E. cbn [snd].
    destruct (reuse_with_number email set_complete s1 id) as (new & k & Hk & Ht).
    + rewrite Hl. exact Hload.
    + rewrite Hs. exact Hkey.
    + rewrite Hs. exact Hnum.
    + rewrite Hs. exact Hid.
    + rewrite Ht. apply in_or_app. right. apply in_or_app. left.
      destruct k as [|k]; [lia|]. left. reflexivity.
  - destruct (close_spec w s) as (s1 & E & Hs & _).
    pose proof (rel_run _ _ _ _ (same_browser_close w) E) as Hl.
    rewrite E. cbn [snd].
    rewrite reuse_without_number; [reflexivity | | |].
    + rewrite Hl. exact Hload.
    + rewrite Hs. exact Hkey.
    + rewrite Hs. reflexivity.
Qed.


(** *** The acquisition of a new number, as the call sites spell it *)

Lemma getNumber_unbound mp s :
  klass (sms s) = SourceClass -> getNumber w mp s = (Raise no_getNumber, s).
Proof. intros Hk. cbv [getNumber bind get]. rewrite Hk. reflexivity. Qed.

Lemma obtain_number_unbound s :
  klass (sms s) = SourceClass ->
  obtain_number w false s = (Raise no_getNumber, s).
Proof.
  intros Hk. cbv [obtain_number]. apply bind_raise. unfold try_except.
  rewrite (getNumber_unbound None s Hk).
  assert (Hc : Py.contains "最高价格设置过低" (str no_getNumber) = false)
    by (vm_compute; reflexivity).
  rewrite Hc. reflexivity.
Qed.

Lemma rotate_number_unbound s :
  klass (sms s) = SourceClass ->
  exists s', rotate_number w s = (Raise no_getNumber, s') /\ sms s' = sms s.
Proof.
  intros Hk.
  destruct (swallowed_status_spec w CANCEL s) as (x & s1 & E & Hs & _).
  change (cancel w s = (Ok x, s1)) in E.
  exists s1. split; [|exact Hs].
  unfold rotate_number.
  rewrite (bind_ok _ _ s tt s1).
  - apply bind_raise. apply getNumber_unbound. rewrite Hs. exact Hk.
  - unfold try_except. rewrite (bind_ok _ _ _ _ _ E). reflexivity.
Qed.

(** As written, phone verification that wants a new number ends in an
    exception after its 10 s pause, with nothing sent. *)
Lemma verification_unbound email sc s :
  klass (sms s) = SourceClass ->
  exists e,
    _handle_phone_verification w email false sc s
    = (Raise e, set_now (now s + 10000) s).
Proof.
  intros Hk.
  destruct (load_state (page w (launches s - 1))) as [[]|e] eqn:Hload.
  - destruct (Py.truthy (api_key (sms s))) eqn:Hkey.
    + exists no_getNumber.
      rewrite (verification_prefix _ _ _ _ Hload Hkey).
      apply bind_raise. apply obtain_number_unbound. exact Hk.
    + eexists.
      unfold _handle_phone_verification.
      rewrite (bind_ok _ _ s tt (set_now (now s + 10000) s)) by reflexivity.
      rewrite (bind_ok _ _ _ (page w (launches s - 1))
                 (set_now (now s + 10000) s)) by reflexivity.
      rewrite (bind_ok _ _ _ tt (set_now (now s + 10000) s))
        by (rewrite Hload; reflexivity).
      apply bind_raise. cbv [init bind get]. cbn [sms set_now].
      rewrite Hkey. reflexivity.
  - exists e.
    unfold _handle_phone_verification.
    rewrite (bind_ok _ _ s tt (set_now (now s + 10000) s)) by reflexivity.
    rewrite (bind_ok _ _ _ (page w (launches s - 1))
               (set_now (now s + 10000) s)) by reflexivity.
    apply bind_raise. rewrite Hload. reflexivity.
Qed.

(** X10. With the service class as sms_service.py defines it, the name
    [getNumber] that the three call sites use is not bound: asking for a
    new number raises AttributeError before any request goes out, both at
    step 2 and when a timed-out wait wants a fresh number (after the
    cancel); so phone verification with [reuse_phone = False] never
    returns, sends nothing and leaves the service object as it was. *)
Theorem new_number_acquisition_raises_attribute_error
        (email : string) (set_complete : bool) (s : State) :
  klass (sms s) = SourceClass ->
  obtain_number w false s = (Raise no_getNumber, s) /\
  (exists s', rotate_number w s = (Raise no_getNumber, s') /\ sms s' = sms s) /\
  (exists e s',
      _handle_phone_verification w email false set_complete s = (Raise e, s') /\
      trace s' = trace s /\ sms s' = sms s).
Proof.
  intros Hk. split; [exact (obtain_number_unbound s Hk)|].
  split; [exact (rotate_number_unbound s Hk)|].
  destruct (verification_unbound email set_complete s Hk) as [e E].
  exists e, (set_now (now s + 10000) s). split; [exact E|].
  split; reflexivity.
Qed.

(** X11. Phone verification on a reused number never drops the lease
    silently: when it ends, the activation it started with is still the
    one on the service object, or a cancel request for it has gone out. *)
Theorem reuse_verification_keeps_or_cancels_the_lease
        (email : string) (set_complete : bool) (id : Z) (s : State) :
  id <> 0%Z ->
  activation_id (sms s) = Some id ->
  activation_id
    (sms (snd (_handle_phone_verification w email true set_complete s)))
    = Some id \/
  In (SmsGet (setStatus CANCEL id))
     (trace (snd (_handle_phone_verification w email true set_complete s))).
Proof.
  intros Hid Hheld.
  exact (keeps_reuse_verification w id Hid email set_complete s (or_introl Hheld)).
Qed.

Lemma set_status_leased st :
  ok_post anywhere (set_status w st) (fun _ => has_lease).
Proof.
  intros s b s' _ E. destruct (set_status_Ok w _ _ _ _ E) as [id Hid].
  apply (quiet_leased s s').
  - exact (rel_run _ _ _ _ (quiet_set_status w st) E).
  - exists id. exact Hid.
Qed.

Lemma reuse_number_leased :
  ok_post anywhere (obtain_number w true) (fun _ => has_lease).
Proof.
  unfold obtain_number.
  eapply ok_bind; [apply ok_anywhere | intro pn].
  destruct (negb (truthy_opt pn)); [apply ok_raise|].
  eapply ok_bind; [apply set_status_leased | intro].
  ok_quiet_steps.
Qed.

Lemma reuse_verification_completed email :
  ok_post anywhere (_handle_phone_verification w email true true)
          (fun _ => completed).
Proof.
  unfold _handle_phone_verification.
  do 3 (eapply ok_bind; [apply ok_anywhere | intro]).
  eapply ok_bind; [apply ok_anywhere | intro].
  eapply ok_bind; [apply reuse_number_leased | intro].
  apply enroll_completed.
Qed.

(** X12. When phone verification called with [set_complete = True]
    returns, the service still holds an activation id and the last status
    requested for it is completion (status 6). *)
Theorem verification_with_set_complete_ends_completed
        (email : string) (reuse_phone : bool) (s s' : State) (r : phone_result) :
  _handle_phone_verification w email reuse_phone true s = (Ok r, s') ->
  exists id,
    truthy_id (activation_id (sms s')) = Some id /\
    last_status id (trace s') = Some COMPLETE /\
    In (SmsGet (setStatus COMPLETE id)) (trace s').
Proof.
  intros E.
  assert (H : completed s').
  { destruct reuse_phone.
    - exact (reuse_verification_completed email s r s' I E).
    - exact (phone_verification_completed w email s r s' I E). }
  destruct H as (id & Hid & Hl). exists id. split; [exact Hid|].
  split; [exact Hl|]. apply last_status_In, Hl.
Qed.

End PhoneVerification.

(** *** Completion is only asked for when told to *)

#[export] Instance never_completes_preorder : PreOrder never_completes.
Proof.
  split.
  - intros s. exists []. split; [reflexivity | constructor].
  - intros s1 s2 s3 (n1 & T1 & F1) (n2 & T2 & F2).
    exists (n2 ++ n1)%list. split.
    + rewrite T2, T1. apply app_assoc.
    + apply Forall_app. split; assumption.
Qed.

Lemma nc_modify f :
  (forall s, trace (f s) = trace s) -> rel never_completes (modify f).
Proof.
  intros Hf. apply rel_modify. intros s. exists [].
  split; [apply Hf | constructor].
Qed.

Lemma nc_emit e : ~ completes e -> rel never_completes (emit e).
Proof.
  intros He. apply rel_modify. intros s. exists [e].
  split; [reflexivity | repeat constructor; exact He].
Qed.

Lemma nc_sleep ms : rel never_completes (sleep ms).
Proof. apply nc_modify. reflexivity. Qed.

#[export] Hint Resolve never_completes_preorder nc_sleep : rel.
#[export] Hint Extern 1 (rel never_completes (modify _)) =>
  (apply nc_modify; intros; reflexivity) : rel.
#[export] Hint Extern 1 (rel never_completes (emit _)) =>
  (apply nc_emit; intros [? ?]; discriminate) : rel.

Section NeverCompletes.
Variable w : World.
Import OpenAIRegister GrizzlySMSService.

Lemma nc_http_get r : other_request r -> rel never_completes (http_get w r).
Proof.
  intros Hr. unfold http_get. rel_auto.
  apply nc_emit. intros [id E]. injection E as E. exact (Hr id E).
Qed.

Lemma nc_api_request r : other_request r -> rel never_completes (_api_request w r).
Proof.
  intros Hr. pose proof (nc_http_get r Hr). unfold _api_request.
  generalize 3%nat at 2. intros m.
  induction m as [|m IH]; cbn [api_attempts]; rel_auto.
Qed.

Lemma nc_set_status st :
  st <> COMPLETE -> rel never_completes (set_status w st).
Proof.
  intros Hst. unfold set_status. rel_auto.
  apply nc_api_request. intros id E. injection E as E _. exact (Hst E).
Qed.

Lemma nc_get_status : rel never_completes (get_status w).
Proof.
  unfold get_status. rel_auto.
  apply nc_api_request. intros id E. discriminate E.
Qed.

Lemma nc_get_number a b c : rel never_completes (get_number w a b c).
Proof.
  unfold get_number. rel_auto.
  apply nc_api_request. intros id E. discriminate E.
Qed.

Lemma nc_set_ready : rel never_completes (set_ready w).
Proof. apply nc_set_status. discriminate. Qed.

Lemma nc_resend_sms : rel never_completes (resend_sms w).
Proof. apply nc_set_status. discriminate. Qed.

Lemma nc_cancel : rel never_completes (cancel w).
Proof.
  assert (H : rel never_completes (set_status w CANCEL))
    by (apply nc_set_status; discriminate).
  unfold cancel. rel_auto.
Qed.

Lemma nc_poll_once poll : rel never_completes (poll_once w poll).
Proof.
  pose proof nc_get_status.
  assert (H1 : rel never_completes (set_status w RESEND))
    by (apply nc_set_status; discriminate).
  unfold poll_once. rel_auto.
Qed.

Lemma nc_wait fuel timeout poll :
  rel never_completes (wait_for_verification_code w fuel timeout poll).
Proof.
  pose proof nc_poll_once.
  assert (L : forall start, rel never_completes (wait_loop w fuel start timeout poll)).
  { induction fuel as [|n IH]; intros start; cbn [wait_loop]; rel_auto. }
  unfold wait_for_verification_code. rel_auto.
Qed.

Lemma nc_getNumber mp : rel never_completes (getNumber w mp).
Proof. pose proof nc_get_number. unfold getNumber. rel_auto. Qed.

Lemma nc_obtain_number reuse : rel never_completes (obtain_number w reuse).
Proof.
  pose proof nc_getNumber. pose proof nc_set_ready. pose proof nc_resend_sms.
  unfold obtain_number, get_phone_number. rel_auto.
Qed.

Lemma nc_rotate_number : rel never_completes (rotate_number w).
Proof.
  pose proof nc_getNumber. pose proof nc_set_ready. pose proof nc_cancel.
  unfold rotate_number, reload, start_request, current_page. rel_auto.
Qed.

Lemma nc_await_code remaining p : rel never_completes (await_code w remaining p).
Proof.
  pose proof nc_rotate_number. pose proof nc_wait.
  revert p. induction remaining as [|n IH]; intros p; cbn [await_code]; rel_auto.
Qed.

Lemma nc_enroll p : rel never_completes (enroll w p false).
Proof.
  pose proof nc_await_code.
  unfold enroll, get_session_token, session_to_access_token, start_request,
    finish_request, current_page.
  rel_auto.
Qed.

(** X13. Phone verification called with [set_complete = False] never
    asks the provider to complete an activation (status 6): none of the
    requests it sends, on any path, is a completion. *)
Theorem verification_without_set_complete_never_completes
        (email : string) (reuse_phone : bool) (s : State) :
  exists new,
    trace (snd (_handle_phone_verification w email reuse_phone false s))
      = (new ++ trace s)%list /\
    forall id, ~ In (SmsGet (setStatus COMPLETE id)) new.
Proof.
  assert (R : rel never_completes
                (_handle_phone_verification w email reuse_phone false)).
  { pose proof nc_obtain_number. pose proof nc_enroll.
    unfold _handle_phone_verification, current_page, init. rel_auto. }
  destruct (R s) as (new & Ht & Hf). exists new. split; [exact Ht|].
  intros id Hin. rewrite Forall_forall in Hf.
  apply (Hf _ Hin). exists id. reflexivity.
Qed.

End NeverCompletes.

Section PhoneVerificationExamples.
Import OpenAIRegister GrizzlySMSService.

(** The provider confirms the cancel, then refuses. *)
Definition cancel_confirmed : World :=
  Sample.world [] [Sample.instant (Text "ACCESS_CANCEL");
                   Sample.instant (Text "BAD_STATUS")].

(** The provider takes the resend, delivers a code, confirms completion. *)
Definition code_after_resend : World :=
  Sample.world [] [Sample.instant (Text "ACCESS_RETRY_GET");
                   Sample.instant (Text "STATUS_OK:123456");
                   Sample.instant (Text "ACCESS_ACTIVATION")].

Lemma reuse_depends_on_the_stored_number_witness :
  load_state (page cancel_confirmed (launches (Sample.start SourceClass) - 1))
    = Returns tt /\
  Py.truthy (api_key (sms (Sample.start SourceClass))) = true /\
  _handle_phone_verification cancel_confirmed "u@mail.com" true false
                             (Sample.start SourceClass)
  = (Raise reuse_error,
     set_now (now (Sample.start SourceClass) + 10000) (Sample.start SourceClass)).
Proof.
  split; [reflexivity|]. split; [reflexivity|].
  exact (reuse_depends_on_the_stored_number cancel_confirmed "u@mail.com" false
           (Sample.start SourceClass) eq_refl eq_refl).
Defined.

Lemma reuse_after_cancel_and_after_close_witness :
  truthy_id (activation_id (sms (leased SourceClass))) = Some 7%Z /\
  In (SmsGet (setStatus RESEND 7))
     (trace (snd (_handle_phone_verification cancel_confirmed "u@mail.com" true
                    false (snd (cancel cancel_confirmed (leased SourceClass)))))) /\
  fst (_handle_phone_verification cancel_confirmed "u@mail.com" true false
         (snd (close cancel_confirmed (leased SourceClass))))
    = Raise reuse_error.
Proof.
  split; [reflexivity|].
  exact (reuse_after_cancel_and_after_close cancel_confirmed "u@mail.com" false
           (leased SourceClass) 7 eq_refl eq_refl eq_refl eq_refl).
Defined.

Lemma new_number_acquisition_raises_attribute_error_witness :
  klass (sms (Sample.start SourceClass)) = SourceClass /\
  obtain_number cancel_confirmed false (Sample.start SourceClass)
    = (Raise no_getNumber, Sample.start SourceClass).
Proof.
  split; [reflexivity|].
  exact (proj1 (new_number_acquisition_raises_attribute_error
                  cancel_confirmed "u@mail.com" false
                  (Sample.start SourceClass) eq_refl)).
Defined.

Lemma reuse_verification_keeps_or_cancels_the_lease_witness :
  activation_id (sms (leased SourceClass)) = Some 7%Z /\
  (activation_id
     (sms (snd (_handle_phone_verification slow_world "u@mail.com" true false
                  (leased SourceClass)))) = Some 7%Z \/
   In (SmsGet (setStatus CANCEL 7))
      (trace (snd (_handle_phone_verification slow_world "u@mail.com" true false
                     (leased SourceClass))))).
Proof.
  split; [reflexivity|].
  apply (reuse_verification_keeps_or_cancels_the_lease slow_world "u@mail.com"
           false 7 (leased SourceClass)).
  - discriminate.
  - reflexivity.
Defined.

Lemma verification_with_set_complete_ends_completed_witness :
  fst (_handle_phone_verification code_after_resend "u@mail.com" true true
         (leased SourceClass))
    = Ok {| accessToken := Some "at2"; sessionToken := Some "st" |} /\
  exists id,
    truthy_id (activation_id
      (sms (snd (_handle_phone_verification code_after_resend "u@mail.com" true
                   true (leased SourceClass))))) = Some id /\
    last_status id
      (trace (snd (_handle_phone_verification code_after_resend "u@mail.com"
                     true true (leased SourceClass)))) = Some COMPLETE /\
    In (SmsGet (setStatus COMPLETE id))
      (trace (snd (_handle_phone_verification code_after_resend "u@mail.com"
                     true true (leased SourceClass)))).
Proof.
  assert (E : _handle_phone_verification code_after_resend "u@mail.com" true true
                (leased SourceClass)
              = (Ok {| accessToken := Some "at2"; sessionToken := Some "st" |},
                 snd (_handle_phone_verification code_after_resend "u@mail.com"
                        true true (leased SourceClass)))).
  { vm_compute. reflexivity. }
  split; [rewrite E; reflexivity|].
  exact (verification_with_set_complete_ends_completed code_after_resend
           "u@mail.com" true _ _ _ E).
Defined.

End PhoneVerificationExamples.

(** ** The registration flow *)

#[export] Instance setup_only_preorder : PreOrder setup_only.
Proof.
  split.
  - intros s. exists []. split; [reflexivity | constructor].
  - intros s1 s2 s3 (n1 & T1 & F1) (n2 & T2 & F2).
    exists (n2 ++ n1)%list. split.
    + rewrite T2, T1. apply app_assoc.
    + apply Forall_app. split; assumption.
Qed.

#[export] Instance setup_quiet_preorder : PreOrder setup_quiet.
Proof.
  split.
  - intros s. repeat split. reflexivity.
  - intros s1 s2 s3 (A1 & B1 & C1) (A2 & B2 & C2). repeat split.
    + congruence.
    + congruence.
    + transitivity s2; assumption.
Qed.

#[export] Instance setup_run_preorder : PreOrder setup_run.
Proof.
  split.
  - intros s. split; [reflexivity | auto].
  - intros s1 s2 s3 (A1 & B1) (A2 & B2). split.
    + transitivity s2; assumption.
    + auto.
Qed.

Lemma setup_quiet_run s s' : setup_quiet s s' -> setup_run s s'.
Proof.
  intros (A & B & C). split; [exact C|].
  unfold nothing_to_cancel. rewrite A, B. auto.
Qed.

Lemma sq_modify f :
  (forall s, sms (f s) = sms s) ->
  (forall s, sms_service_bound (f s) = sms_service_bound s) ->
  (forall s, trace (f s) = trace s) -> rel setup_quiet (modify f).
Proof.
  intros A B C. apply rel_modify. intros s. repeat split; auto.
  exists []. split; [apply C | constructor].
Qed.

Lemma sq_emit e : setup_event e -> rel setup_quiet (emit e).
Proof.
  intros He. apply rel_modify. intros s. repeat split.
  exists [e]. split; [reflexivity | constructor; [exact He | constructor]].
Qed.

Lemma sq_sleep ms : rel setup_quiet (sleep ms).
Proof. apply sq_modify; reflexivity. Qed.

#[export] Hint Resolve setup_quiet_preorder setup_run_preorder sq_sleep : rel.
#[export] Hint Extern 1 (rel setup_quiet (modify _)) =>
  (apply sq_modify; intros; reflexivity) : rel.
#[export] Hint Extern 1 (rel setup_quiet (emit BrowserLaunch)) =>
  (apply sq_emit; left; reflexivity) : rel.
#[export] Hint Extern 1 (rel setup_quiet (emit MailCreate)) =>
  (apply sq_emit; right; reflexivity) : rel.

Lemma bind_diverge {A B} (m : M A) (k : A -> M B) s s1 :
  m s = (Diverge, s1) -> bind m k s = (Diverge, s1).
Proof. intros E. unfold bind. rewrite E. reflexivity. Qed.

Section Stuck.
Context {R : State -> State -> Prop} `{PreOrder State R}.

Lemma stuck_raise {A} e s : stuck R (@raise A e) s.
Proof. split; [discriminate | reflexivity]. Qed.

Lemma stuck_bind {A B} (m : M A) (k : A -> M B) s :
  R s (snd (m s)) ->
  (forall a s1, m s = (Ok a, s1) -> stuck R (k a) s1) ->
  stuck R (bind m k) s.
Proof.
  intros Hm Hk. unfold stuck, bind.
  destruct (m s) as [[a|e|] s1] eqn:E; cbn [snd] in Hm.
  - destruct (Hk a s1 eq_refl) as [H1 H2]. split; [exact H1|].
    transitivity s1; assumption.
  - split; [discriminate | exact Hm].
  - split; [discriminate | exact Hm].
Qed.

End Stuck.

Lemma stuck_weaken {A} (R R' : State -> State -> Prop) (m : M A) s :
  (forall s1 s2, R s1 s2 -> R' s1 s2) -> stuck R m s -> stuck R' m s.
Proof. intros HR [H1 H2]. split; [exact H1 | apply HR, H2]. Qed.

Section Flow.
Variable w : World.
Variable self : RegisterFlowService.self_fields.
Import RegisterFlowService.

Lemma sq_get_email_address n : rel setup_quiet (TempMailService.get_email_address w n).
Proof.
  unfold TempMailService.get_email_address. generalize n at 1. intros m.
  induction n as [|n IH]; cbn [TempMailService.get_email_loop];
    unfold TempMailService.create; rel_auto.
Qed.

Lemma sq_launch_browser : rel setup_quiet (launch_browser w).
Proof. unfold launch_browser. rel_auto. Qed.

Lemma sq_new_temp_mail : rel setup_quiet (new_temp_mail self).
Proof. unfold new_temp_mail, TempMailService.init. rel_auto. Qed.

Lemma sq_register_init : rel setup_quiet (OpenAIRegister.init w).
Proof. unfold OpenAIRegister.init, OpenAIRegister.current_page. rel_auto. Qed.

Lemma sq_generate_password : rel setup_quiet (_generate_password w).
Proof. unfold _generate_password. rel_auto. Qed.

Lemma sq_register email password :
  rel setup_quiet (OpenAIRegister.register w email password).
Proof. unfold OpenAIRegister.register, OpenAIRegister.current_page. rel_auto. Qed.

Lemma sq_mail_close : rel setup_quiet TempMailService.close.
Proof. unfold TempMailService.close. rel_auto. Qed.

(** The first account's onboarding is wrapped: whatever the page does,
    the flow goes on from the same state. *)
Lemma onboarding_swallowed email s :
  try_except (OpenAIRegister._handle_sora_onboarding w email ;; ret tt)
             (fun _ => ret tt) s = (Ok tt, s).
Proof.
  cbv [try_except bind OpenAIRegister._handle_sora_onboarding
       OpenAIRegister.current_page get ret].
  destruct (onboarding (page w (launches s - 1))); reflexivity.
Qed.

Lemma onboarding_raises email s :
  onboarding (page w (launches s - 1)) <> OnboardingDone ->
  exists e, OpenAIRegister._handle_sora_onboarding w email s = (Raise e, s).
Proof.
  intros Hno.
  cbv [bind OpenAIRegister._handle_sora_onboarding
       OpenAIRegister.current_page get ret].
  destruct (onboarding (page w (launches s - 1))) as [ | | |e];
    [contradiction | eexists; reflexivity ..].
Qed.

Lemma first_task_stuck rule s :
  klass (sms s) = SourceClass -> stuck setup_quiet (first_task w rule) s.
Proof.
  intros Hk. unfold first_task.
  apply stuck_bind; [apply sq_get_email_address | intros email s1 E1].
  pose proof (rel_run _ _ _ _ (sq_get_email_address 10) E1) as (S1 & _).
  apply stuck_bind; [apply sq_generate_password | intros password s2 E2].
  pose proof (rel_run _ _ _ _ sq_generate_password E2) as (S2 & _).
  apply stuck_bind; [apply sq_register | intros success s3 E3].
  pose proof (rel_run _ _ _ _ (sq_register email password) E3) as (S3 & _).
  destruct (negb success); [apply stuck_raise|].
  apply stuck_bind; [rewrite onboarding_swallowed; reflexivity | intros [] s4 E4].
  rewrite onboarding_swallowed in E4. injection E4 as <-.
  assert (Hk3 : klass (sms s3) = SourceClass) by congruence.
  destruct (verification_unbound w email (String.eqb rule "1绑1") s3 Hk3) as [e E].
  apply stuck_bind.
  - rewrite E. cbn [snd]. repeat split. exists [].
    split; [reflexivity | constructor].
  - intros a s5 E5. rewrite E in E5. discriminate E5.
Qed.

Lemma first_account_stuck cc sc mp rule s :
  stuck setup_run (first_account w SourceClass self cc sc mp rule) s.
Proof.
  unfold first_account.
  apply stuck_bind; [apply setup_quiet_run, sq_launch_browser | intros [] s1 _].
  apply stuck_bind; [apply setup_quiet_run, sq_new_temp_mail | intros [] s2 _].
  apply stuck_bind; [apply setup_quiet_run, sq_register_init | intros [] s3 _].
  apply stuck_bind.
  - split.
    + exists []. split; [reflexivity | constructor].
    + intros _. right. reflexivity.
  - intros [] s4 E4. cbv [new_sms_service modify] in E4. injection E4 as <-.
    apply (stuck_weaken setup_quiet); [exact setup_quiet_run|].
    apply first_task_stuck. reflexivity.
Qed.

Lemma body_stuck cc sc mp rule s :
  stuck setup_run (body w SourceClass self cc sc mp rule) s.
Proof.
  unfold body.
  destruct (first_account_stuck cc sc mp rule s) as [Hno HR].
  apply stuck_bind; [exact HR|].
  intros a s1 E. exfalso. apply (Hno a). rewrite E. reflexivity.
Qed.

Lemma close_browser_and_mail_run s :
  close_browser_and_mail s = (Ok tt, set_temp_mail_email None s).
Proof. reflexivity. Qed.

Lemma swallowed_close_idle s :
  GrizzlySMSService.truthy_id (activation_id (sms s)) = None ->
  try_except (GrizzlySMSService.close w) (fun _ => ret tt) s
  = (Ok tt, set_sms (GrizzlySMSService.set_fields None None None None (sms s)) s).
Proof.
  intros Hn. unfold try_except. rewrite (close_idle w s Hn). reflexivity.
Qed.

(** With nothing to cancel, both cleanup clauses send nothing. *)
Lemma on_error_idle e s :
  nothing_to_cancel s ->
  exists s', on_error w e s = (Raise e, s') /\
             trace s' = trace s /\ nothing_to_cancel s'.
Proof.
  intros Hn. unfold on_error.
  rewrite (bind_ok _ _ _ _ _ (close_browser_and_mail_run s)).
  rewrite (bind_ok _ _ _ (set_temp_mail_email None s) (set_temp_mail_email None s))
    by reflexivity.
  cbn [sms_service_bound set_temp_mail_email].
  destruct (sms_service_bound s) eqn:Hb.
  - destruct Hn as [Hn|Hn]; [congruence|].
    rewrite (bind_ok _ _ _ _ _ (swallowed_close_idle (set_temp_mail_email None s) Hn)).
    eexists. split; [reflexivity|]. split; [reflexivity|].
    right. reflexivity.
  - eexists. split; [reflexivity|]. split; [reflexivity|].
    left. exact Hb.
Qed.

Lemma cleanup_idle s :
  nothing_to_cancel s ->
  cleanup w s = (Ok tt, set_temp_mail_email None s).
Proof.
  intros Hn. unfold cleanup.
  rewrite (bind_ok _ _ _ _ _ (close_browser_and_mail_run s)).
  rewrite (bind_ok _ _ _ (set_temp_mail_email None s) (set_temp_mail_email None s))
    by reflexivity.
  cbn [sms_service_bound set_temp_mail_email sms].
  destruct (sms_service_bound s) eqn:Hb; [|reflexivity].
  destruct Hn as [Hn|Hn]; [congruence|]. rewrite Hn. reflexivity.
Qed.

(** X14. With the SMS service class as sms_service.py defines it,
    [register_one] never returns an account, whatever the mailbox, the
    browser and the provider do; it sends nothing to the SMS provider
    and stores nothing: all it does is launch browsers and ask for
    mailboxes. *)
Theorem register_one_as_written_never_returns
        (country_code service_code max_price : option string)
        (binding_rule : string) (s : State) :
  (forall res,
      fst (register_one w SourceClass self country_code service_code max_price
                        binding_rule s) <> Ok res) /\
  exists new,
    trace (snd (register_one w SourceClass self country_code service_code
                             max_price binding_rule s))
      = (new ++ trace s)%list /\
    Forall setup_event new.
Proof.
  unfold register_one.
  rewrite (bind_ok _ _ s tt (entry s)) by reflexivity.
  destruct (body_stuck country_code service_code max_price binding_rule (entry s))
    as [Hno (Ht & Hn)].
  specialize (Hn (or_introl eq_refl)).
  unfold try_finally, try_except.
  destruct (body w SourceClass self country_code service_code max_price
                 binding_rule (entry s)) as [[res|e|] sf]; cbn [fst snd] in *.
  - exfalso. exact (Hno res eq_refl).
  - destruct (on_error_idle e sf Hn) as (s2 & E2 & T2 & N2).
    rewrite E2, (cleanup_idle s2 N2). cbn [fst snd].
    split; [discriminate|].
    destruct Ht as (new & Hnew & Hf). exists new.
    split; [|exact Hf]. cbn [trace set_temp_mail_email]. rewrite T2. exact Hnew.
  - cbn [fst snd]. split; [discriminate|]. exact Ht.
Qed.


Lemma close_shared_spec s :
  exists s',
    close_shared w s = (Ok tt, s') /\
    sms s' = GrizzlySMSService.set_fields None None None None (sms s) /\
    sms_service_bound s' = sms_service_bound s /\
    match GrizzlySMSService.truthy_id (activation_id (sms s)) with
    | Some id => exists k, (1 <= k <= 3)%nat /\
        trace s' = (repeat (SmsGet (setStatus CANCEL id)) k
                      ++ trace s)%list
    | None => trace s' = trace s
    end.
Proof.
  destruct (close_spec w s) as (s' & E & Hs & Hb & Ht).
  exists s'. unfold close_shared, try_except. rewrite E. auto.
Qed.

(** X15. The [finally] clause of [register_one] never raises.  When
    [sms_service] is still bound and holds an activation id it sends the
    cancel request for it (one to three attempts), so that cancellation is
    the last status asked for that activation, whatever was asked before,
    and the service forgets the number; otherwise it sends nothing and
    leaves the service alone. *)
Theorem finally_clause_cancels_a_bound_lease (s : State) :
  exists s',
    cleanup w s = (Ok tt, s') /\
    match (if sms_service_bound s
           then GrizzlySMSService.truthy_id (activation_id (sms s))
           else None) with
    | Some id =>
        (exists k, (1 <= k <= 3)%nat /\
           trace s' = (repeat (SmsGet (setStatus CANCEL id)) k
                         ++ trace s)%list) /\
        last_status id (trace s') = Some CANCEL /\
        activation_id (sms s') = None /\ phone_number (sms s') = None
    | None => trace s' = trace s /\ sms s' = sms s
    end.
Proof.
  unfold cleanup.
  rewrite (bind_ok _ _ _ _ _ (close_browser_and_mail_run s)).
  rewrite (bind_ok _ _ _ (set_temp_mail_email None s) (set_temp_mail_email None s))
    by reflexivity.
  cbn [sms_service_bound set_temp_mail_email sms].
  destruct (sms_service_bound s).
  - destruct (GrizzlySMSService.truthy_id (activation_id (sms s))) as [id|] eqn:Hid.
    + destruct (close_shared_spec (set_temp_mail_email None s))
        as (s' & E & Hs & _ & Ht).
      cbn [sms set_temp_mail_email trace] in Hs, Ht. rewrite Hid in Ht.
      destruct Ht as (k & Hk & Ht).
      exists s'. split; [exact E|].
      split; [exists k; auto|]. split.
      * rewrite Ht. apply last_status_repeat. lia.
      * rewrite Hs. split; reflexivity.
    + exists (set_temp_mail_email None s). repeat split.
  - exists (set_temp_mail_email None s). repeat split.
Qed.


(** The [except] clause: the same cancellation, then the exception goes
    on. *)
Lemma on_error_spec e s :
  exists s',
    on_error w e s = (Raise e, s') /\ nothing_to_cancel s' /\
    match (if sms_service_bound s
           then GrizzlySMSService.truthy_id (activation_id (sms s))
           else None) with
    | Some id =>
        (exists k, (1 <= k <= 3)%nat /\
           trace s' = (repeat (SmsGet (setStatus CANCEL id)) k ++ trace s)%list) /\
        activation_id (sms s') = None
    | None => trace s' = trace s
    end.
Proof.
  unfold on_error.
  rewrite (bind_ok _ _ _ _ _ (close_browser_and_mail_run s)).
  rewrite (bind_ok _ _ _ (set_temp_mail_email None s) (set_temp_mail_email None s))
    by reflexivity.
  cbn [sms_service_bound set_temp_mail_email].
  destruct (sms_service_bound s) eqn:Hb.
  - destruct (close_shared_spec (set_temp_mail_email None s))
      as (s' & E & Hs & _ & Ht).
    cbn [sms set_temp_mail_email trace] in Hs, Ht.
    unfold close_shared in E. rewrite (bind_ok _ _ _ _ _ E).
    exists s'. split; [reflexivity|]. split.
    + right. rewrite Hs. reflexivity.
    + destruct (GrizzlySMSService.truthy_id (activation_id (sms s))); [|exact Ht].
      split; [exact Ht|]. rewrite Hs. reflexivity.
  - exists (set_temp_mail_email None s). split; [reflexivity|].
    split; [left; exact Hb | reflexivity].
Qed.

Variable sms_cls : sms_class.

(** X16. When the body of [register_one] fails, the same exception
    leaves [register_one]; a bound service holding an activation gets its
    cancel request from the [except] clause (one to three attempts) and
    the [finally] clause adds nothing to it; with nothing to cancel,
    nothing is sent at all. *)
Theorem failed_registration_cancels_once_and_reraises
        (country_code service_code max_price : option string)
        (binding_rule : string) (e : exn) (s s1 : State) :
  body w sms_cls self country_code service_code max_price binding_rule (entry s)
    = (Raise e, s1) ->
  exists s',
    register_one w sms_cls self country_code service_code max_price
                 binding_rule s = (Raise e, s') /\
    match (if sms_service_bound s1
           then GrizzlySMSService.truthy_id (activation_id (sms s1))
           else None) with
    | Some id =>
        (exists k, (1 <= k <= 3)%nat /\
           trace s' = (repeat (SmsGet (setStatus CANCEL id)) k ++ trace s1)%list) /\
        activation_id (sms s') = None
    | None => trace s' = trace s1
    end.
Proof.
  intros Hbody. unfold register_one.
  rewrite (bind_ok _ _ s tt (entry s)) by reflexivity.
  destruct (on_error_spec e s1) as (s2 & E2 & N2 & H2).
  unfold try_finally, try_except. rewrite Hbody, E2, (cleanup_idle s2 N2).
  exists (set_temp_mail_email None s2). split; [reflexivity|].
  exact H2.
Qed.

(** The loop over the later accounts: every failure is caught, the
    accounts registered so far are kept, and a turn that failed has
    closed the shared service. *)
Lemma later_tasks_run remaining todo : forall accounts s,
  exists r s',
    later_tasks w self remaining todo accounts s = (r, s') /\
    (forall e, r <> Raise e) /\
    sms_service_bound s' = sms_service_bound s /\
    forall accounts', r = Ok accounts' ->
      exists more, accounts' = (accounts ++ more)%list /\
        (length more <= todo)%nat /\
        ((length more < todo)%nat ->
         activation_id (sms s') = None /\ phone_number (sms s') = None).
Proof.
  induction todo as [|todo IH]; intros accounts s.
  - exists (Ok accounts), s. split; [reflexivity|]. split; [discriminate|].
    split; [reflexivity|]. intros accounts' E. injection E as <-.
    exists []. rewrite app_nil_r. split; [reflexivity|]. split; [reflexivity|].
    cbn [length]. lia.
  - cbn [later_tasks]. set (i := (remaining - S todo)%nat).
    pose proof (grows_later_task w self i remaining s) as (_ & Hb1 & _).
    destruct (later_task w self i remaining s) as [[a|e|] s1] eqn:E1;
      cbn [snd] in Hb1.
    + rewrite (bind_ok _ _ s (Some a) s1)
        by (unfold try_except, bind; rewrite E1; reflexivity).
      destruct (IH (accounts ++ [a])%list s1) as (r & s' & E & Hr & Hb & Hacc).
      exists r, s'. split; [exact E|]. split; [exact Hr|].
      split; [congruence|]. intros accounts' Eacc.
      destruct (Hacc accounts' Eacc) as (more & -> & Hlen & Hclosed).
      exists (a :: more). rewrite <- app_assoc. split; [reflexivity|].
      cbn [length]. split; [lia|]. intros Hlt. apply Hclosed. lia.
    + destruct (close_shared_spec s1) as (s2 & E2 & Hs2 & Hb2 & _).
      rewrite (bind_ok _ _ s None s2)
        by (unfold try_except, bind; rewrite E1, E2; reflexivity).
      exists (Ok accounts), s2. split; [reflexivity|]. split; [discriminate|].
      split; [congruence|]. intros accounts' Eacc. injection Eacc as <-.
      exists []. rewrite app_nil_r. split; [reflexivity|].
      cbn [length]. split; [lia|]. intros _. rewrite Hs2. split; reflexivity.
    + exists Diverge, s1. split.
      * apply bind_diverge. unfold try_except, bind. rewrite E1. reflexivity.
      * split; [discriminate|]. split; [exact Hb1|]. discriminate.
Qed.

(** X17. The 1绑3 branch never raises: a later account that fails only
    ends the loop.  When the branch returns, the accounts it was given
    come first in the result, at most three are returned, [sms_service]
    is unbound (so the [finally] clause has nothing to close) and the
    shared service has been closed, however many accounts were made. *)
Theorem one_to_three_never_raises_and_closes_the_service
        (accounts : list account_info) (s : State) :
  (length accounts < 3)%nat ->
  exists r s',
    one_to_three w self accounts s = (r, s') /\
    (forall e, r <> Raise e) /\
    forall res, r = Ok res ->
      (exists more, res = (accounts ++ more)%list) /\
      (length res <= 3)%nat /\
      sms_service_bound s' = false /\
      activation_id (sms s') = None /\ phone_number (sms s') = None.
Proof.
  intros Hlen. unfold one_to_three.
  rewrite (bind_ok _ _ s tt (set_sms_service_bound false s)) by reflexivity.
  apply Nat.ltb_lt in Hlen as Hlt. rewrite Hlt.
  destruct (later_tasks_run (3 - length accounts) (3 - length accounts) accounts
              (set_sms_service_bound false s))
    as (r & s1 & E & Hr & Hb & Hacc).
  cbn [sms_service_bound set_sms_service_bound] in Hb.
  destruct r as [accounts'|e|].
  - destruct (Hacc accounts' eq_refl) as (more & -> & Hmore & Hclosed).
    destruct (close_shared_spec s1) as (s2 & E2 & Hs2 & Hb2 & _).
    assert (Hfin :
      exists s3,
        ((if (length (accounts ++ more) =? 3)%nat then close_shared w else ret tt) ;;
         (if (length (accounts ++ more) <? 3)%nat then close_shared w else ret tt) ;;
         ret (accounts ++ more)%list) s1 = (Ok (accounts ++ more)%list, s3) /\
        sms_service_bound s3 = false /\
        activation_id (sms s3) = None /\ phone_number (sms s3) = None).
    { rewrite length_app.
      destruct (Nat.eqb_spec (length accounts + length more) 3) as [E3|N3].
      - rewrite (bind_ok _ _ _ _ _ E2).
        replace (length accounts + length more <? 3)%nat with false
          by (symmetry; apply Nat.ltb_ge; lia).
        exists s2. split; [reflexivity|]. rewrite Hs2. repeat split. congruence.
      - rewrite (bind_ok _ _ s1 tt s1) by reflexivity.
        replace (length accounts + length more <? 3)%nat with true
          by (symmetry; apply Nat.ltb_lt; lia).
        rewrite (bind_ok _ _ _ _ _ E2).
        exists s2. split; [reflexivity|]. rewrite Hs2. repeat split. congruence. }
    destruct Hfin as (s3 & E3 & Hb3 & Ha3 & Hp3).
    exists (Ok (result_accounts (accounts ++ more))), s3. split.
    + rewrite (bind_ok _ _ _ (accounts ++ more)%list s3)
        by (rewrite (bind_ok _ _ _ _ _ E); exact E3).
      reflexivity.
    + split; [discriminate|]. intros res Eres. injection Eres as <-.
      assert (Hres : result_accounts (accounts ++ more) = (accounts ++ more)%list).
      { unfold result_accounts. rewrite length_app.
        destruct (3 <=? length accounts + length more)%nat eqn:Hge; [|reflexivity].
        apply Nat.leb_le in Hge.
        replace (length accounts + length more - 3)%nat with 0%nat by lia.
        reflexivity. }
      rewrite Hres. split; [exists more; reflexivity|].
      rewrite length_app. split; [lia|]. auto.
  - exfalso. exact (Hr e eq_refl).
  - exists Diverge, s1. split.
    + apply bind_diverge. apply bind_diverge. exact E.
    + split; discriminate.
Qed.

(** X18. A later account whose onboarding fails is given up at once:
    the turn raises without a request to the SMS provider and without
    touching the store; all it did was launch its browser and ask for a
    mailbox. *)
Theorem later_account_stops_at_failed_onboarding (i remaining : nat) (s : State) :
  (forall k, onboarding (page w k) <> OnboardingDone) ->
  (forall a, fst (later_task w self i remaining s) <> Ok a) /\
  sms (snd (later_task w self i remaining s)) = sms s /\
  exists new,
    trace (snd (later_task w self i remaining s)) = (new ++ trace s)%list /\
    Forall setup_event new.
Proof.
  intros Hno.
  enough (Hs : stuck setup_quiet (later_task w self i remaining) s).
  { destruct Hs as (H1 & H2 & _ & H3). auto. }
  unfold later_task.
  apply stuck_bind; [reflexivity | intros [] s0 E0].
  injection E0 as <-.
  apply stuck_bind; [apply sq_mail_close | intros [] s1 _].
  apply stuck_bind; [apply sq_launch_browser | intros [] s2 _].
  apply stuck_bind; [apply sq_new_temp_mail | intros [] s3 _].
  apply stuck_bind; [apply sq_register_init | intros [] s4 _].
  apply stuck_bind; [apply sq_get_email_address | intros email s5 _].
  apply stuck_bind; [apply sq_generate_password | intros password s6 _].
  apply stuck_bind; [apply sq_register | intros success s7 _].
  destruct (negb success); [apply stuck_raise|].
  destruct (onboarding_raises email s7 (Hno _)) as [e E].
  apply stuck_bind.
  - rewrite E. reflexivity.
  - intros a s8 E8. rewrite E in E8. discriminate E8.
Qed.

End Flow.

Section FlowExamples.
Import RegisterFlowService.

Definition settings : self_fields :=
  {| tempmail_api_key := "k"; sms_api_key := "key"; sms_service := "dr";
     sms_country := "151"; sms_max_price := "0.025" |}.

(** A world in which no onboarding page shows its user name field. *)
Definition no_username_field : World :=
  {| mail_create := fun _ => CreateEmail (Some "u@mail.com");
     sms_http := fun _ => Sample.instant (Text "STATUS_WAIT_CODE");
     launch := fun _ => Returns tt;
     page := fun _ =>
       {| init_page := Returns tt;
          register_page := Returns true;
          onboarding := NoUsernameInput;
          load_state := Returns tt;
          page_session_token := Some "st";
          page_access_token := Some "at";
          enroll_start := fun _ => Returns Sample.fetch_ok;
          reload_page := fun _ => Returns tt;
          enroll_finish := Returns Sample.fetch_ok;
          latest_access_token := Some "at2";
          session_cookie := Some "st" |};
     store := fun _ => Sample.good_store;
     random_draws := fun k => k;
     float_of := fun price => Returns price;
     no_data := fun _ => mkExn ValueError "Expecting value: line 1 column 1 (char 0)" |}.

Definition first_account_made : account_info := account_of Sample.a_token.

(** The state in which the body of a run in the sample world fails. *)
Definition failed_body : State :=
  snd (body (Sample.world [] []) SourceClass settings None None None "1绑1"
            (entry (Sample.start SourceClass))).

Lemma failed_registration_cancels_once_and_reraises_witness :
  body (Sample.world [] []) SourceClass settings None None None "1绑1"
       (entry (Sample.start SourceClass)) = (Raise no_getNumber, failed_body) /\
  exists s',
    register_one (Sample.world [] []) SourceClass settings None None None "1绑1"
                 (Sample.start SourceClass) = (Raise no_getNumber, s') /\
    trace s' = trace failed_body.
Proof.
  assert (H : body (Sample.world [] []) SourceClass settings None None None "1绑1"
                (entry (Sample.start SourceClass)) = (Raise no_getNumber, failed_body))
    by (vm_compute; reflexivity).
  split; [exact H|].
  destruct (failed_registration_cancels_once_and_reraises
              (Sample.world [] []) settings SourceClass None None None "1绑1"
              no_getNumber (Sample.start SourceClass) failed_body H)
    as (s' & E & Ht).
  exists s'. split; [exact E|]. exact Ht.
Defined.

Lemma one_to_three_never_raises_and_closes_the_service_witness :
  (length [first_account_made] < 3)%nat /\
  exists r s',
    one_to_three code_after_resend settings [first_account_made]
                 (leased SourceClass) = (r, s') /\
    (forall e, r <> Raise e) /\
    forall res, r = Ok res ->
      (exists more, res = ([first_account_made] ++ more)%list) /\
      (length res <= 3)%nat /\
      sms_service_bound s' = false /\
      activation_id (sms s') = None /\ phone_number (sms s') = None.
Proof.
  split; [cbn; lia|].
  apply (one_to_three_never_raises_and_closes_the_service
           code_after_resend settings [first_account_made] (leased SourceClass)).
  cbn. lia.
Defined.

Lemma later_account_stops_at_failed_onboarding_witness :
  (forall k, onboarding (page no_username_field k) <> OnboardingDone) /\
  (forall a, fst (later_task no_username_field settings 0 2 (leased SourceClass))
             <> Ok a) /\
  sms (snd (later_task no_username_field settings 0 2 (leased SourceClass)))
    = sms (leased SourceClass).
Proof.
  assert (H : forall k, onboarding (page no_username_field k) <> OnboardingDone)
    by (intros k; cbn; discriminate).
  split; [exact H|].
  destruct (later_account_stops_at_failed_onboarding
              no_username_field settings 0 2 (leased SourceClass) H)
    as (H1 & H2 & _).
  split; [exact H1 | exact H2].
Defined.

End FlowExamples.

(** ** The mailbox *)

Section MailboxRequests.
Import TempMailService.
Variable w : World.

Lemma get_email_loop_run max_retries remaining : forall s,
  (remaining <= max_retries)%nat ->
  exists k s',
    (k <= remaining)%nat /\ (1 <= remaining -> 1 <= k)%nat /\
    get_email_loop w max_retries remaining s =
      (match k with
       | O => Raise no_valid_email
       | S k' => last_attempt (attempt_body (mail_create w (mail_requests s + k')))
       end, s') /\
    (forall j, (S j < k)%nat -> forall email,
        attempt_body (mail_create w (mail_requests s + j)) <> Return email) /\
    ((forall email, fst (get_email_loop w max_retries remaining s) <> Ok email) ->
     k = remaining) /\
    mail_requests s' = (mail_requests s + k)%nat /\
    trace s' = (repeat MailCreate k ++ trace s)%list /\
    sms s' = sms s.
Proof.
  induction remaining as [|r IH]; intros s Hle.
  - exists 0%nat, s. cbn [get_email_loop]. split; [lia|]. split; [lia|].
    split; [reflexivity|]. split; [intros j Hj; lia|]. split; [reflexivity|].
    split; [lia|]. split; reflexivity.
  - cbn [get_email_loop].
    rewrite (bind_ok _ _ _ _ _ (create_run w s)).
    destruct (attempt_body (mail_create w (mail_requests s))) as [e| |err] eqn:Hb.
    + exists 1%nat, (set_temp_mail_email (Some e) (after_create s)).
      rewrite Nat.add_0_r, Hb. cbn [last_attempt].
      split; [lia|]. split; [lia|]. split; [reflexivity|].
      split; [intros j Hj; lia|].
      split; [intros Hno; exfalso; exact (Hno e eq_refl)|].
      split; [cbn; lia|]. split; reflexivity.
    + destruct (IH (after_create s) ltac:(lia))
        as (k & s' & Hk & Hk1 & E & Hearly & Hall & Hreq & Htr & Hsms).
      exists (S k), s'. split; [lia|]. split; [lia|]. split.
      * rewrite E. f_equal. destruct k as [|k'].
        -- rewrite Nat.add_0_r, Hb. reflexivity.
        -- rewrite mail_requests_after_create.
           replace (S (mail_requests s) + k')%nat with (mail_requests s + S k')%nat by lia.
           reflexivity.
      * split.
        { intros [|j] Hj email.
          - rewrite Nat.add_0_r, Hb. discriminate.
          - replace (mail_requests s + S j)%nat
              with (mail_requests (after_create s) + j)%nat
              by (rewrite mail_requests_after_create; lia).
            apply Hearly. lia. }
        split; [intros Hno; f_equal; apply Hall, Hno|].
        split; [rewrite Hreq, mail_requests_after_create; lia|].
        split; [|exact Hsms].
        rewrite Htr. cbn [after_create trace set_trace].
        change (repeat MailCreate (S k)) with (MailCreate :: repeat MailCreate k).
        rewrite repeat_cons, <- app_assoc. reflexivity.
    + destruct (Nat.eqb_spec (max_retries - r) max_retries) as [Hlast|Hmore].
      * exists 1%nat, (after_create s).
        rewrite Nat.add_0_r, Hb. cbn [last_attempt].
        split; [lia|]. split; [lia|]. split; [reflexivity|].
        split; [intros j Hj; lia|].
        split; [intros _; lia|].
        split; [cbn; lia|]. split; reflexivity.
      * rewrite (bind_ok _ _ (after_create s) tt
                   (set_now (now (after_create s) + Z.max 0 1000) (after_create s)))
          by reflexivity.
        destruct (IH (set_now (now (after_create s) + Z.max 0 1000) (after_create s))
                     ltac:(lia))
          as (k & s' & Hk & Hk1 & E & Hearly & Hall & Hreq & Htr & Hsms).
        assert (Hr : (1 <= r)%nat) by lia.
        specialize (Hk1 Hr).
        exists (S k), s'. split; [lia|]. split; [lia|]. split.
        -- rewrite E. f_equal. destruct k as [|k']; [lia|].
           cbn [mail_requests set_now]. rewrite mail_requests_after_create.
           replace (S (mail_requests s) + k')%nat with (mail_requests s + S k')%nat by lia.
           reflexivity.
        -- split.
           { intros [|j] Hj email.
             - rewrite Nat.add_0_r, Hb. discriminate.
             - replace (mail_requests s + S j)%nat
                 with (mail_requests (set_now (now (after_create s) + Z.max 0 1000)
                                              (after_create s)) + j)%nat
                 by (cbn [mail_requests set_now];
                     rewrite mail_requests_after_create; lia).
               apply Hearly. lia. }
           split; [intros Hno; f_equal; apply Hall, Hno|].
           split; [rewrite Hreq; cbn [mail_requests set_now];
                   rewrite mail_requests_after_create; lia|].
           split; [|exact Hsms].
           rewrite Htr. cbn [after_create trace set_trace set_now].
           change (repeat MailCreate (S k)) with (MailCreate :: repeat MailCreate k).
           rewrite repeat_cons, <- app_assoc. reflexivity.
Qed.

End MailboxRequests.

Section MailboxBudget.
Import TempMailService.
Variable w : World.

(** X19. [get_email_address] asks the provider for at most [max_retries]
    addresses: none when [max_retries] is 0, at least one otherwise.
    Every request before the last came to no address; the call ends on
    what its last request came to: a supported address is returned, an
    unsupported one gives the error of the exhausted loop, a failure is
    re-raised as it is.  It fails only after all [max_retries]
    requests. *)
Theorem get_email_address_request_budget (max_retries : nat) (s : State) :
  exists k s',
    (k <= max_retries)%nat /\ (1 <= max_retries -> 1 <= k)%nat /\
    get_email_address w max_retries s =
      (match k with
       | O => Raise no_valid_email
       | S k' => last_attempt (attempt_body (mail_create w (mail_requests s + k')))
       end, s') /\
    (forall j, (S j < k)%nat -> forall email,
        attempt_body (mail_create w (mail_requests s + j)) <> Return email) /\
    ((forall email, fst (get_email_address w max_retries s) <> Ok email) ->
     k = max_retries) /\
    mail_requests s' = (mail_requests s + k)%nat /\
    trace s' = (repeat MailCreate k ++ trace s)%list.
Proof.
  destruct (get_email_loop_run w max_retries max_retries s (Nat.le_refl _))
    as (k & s' & Hk & Hk1 & E & Hearly & Hall & Hreq & Htr & _).
  exists k, s'. unfold get_email_address.
  repeat (split; [assumption|]). exact Htr.
Qed.

End MailboxBudget.

Section MailboxBudgetExamples.
Import TempMailService.

(** A provider whose first request fails, then offers an address. *)
Definition fails_once : World :=
  Sample.world [CreateError (mkExn OtherError "Connection refused");
                CreateEmail (Some "y@mail.com")] [].

(** With a single attempt allowed, the failure of that attempt is what
    the caller gets; the address on offer next is never asked for. *)
Lemma get_email_address_request_budget_witness :
  exists s',
    get_email_address fails_once 1 (Sample.start SourceClass)
      = (Raise (mkExn OtherError "Connection refused"), s') /\
    mail_requests s' = 1%nat.
Proof.
  destruct (get_email_address_request_budget fails_once 1 (Sample.start SourceClass))
    as (k & s' & Hk & Hk1 & E & _ & _ & Hreq & _).
  assert (Hone : k = 1%nat) by lia. subst k.
  exists s'. split; [exact E | exact Hreq].
Defined.

End MailboxBudgetExamples.

Section InboxFacts.
Import TempMailInbox.
Variable db : TempMailService.unicode.
Variable inbox : nat -> inbox_exchange.

(** The state after one [get-emails] exchange. *)
Definition after_get_emails (s : State) : State :=
  set_now (now s + Z.max 0 (Z.of_N (inbox_latency (inbox (mail_requests s)))))
          (set_mail_requests (S (mail_requests s)) s).

Lemma check_inbox_unset s :
  OpenAIRegister.truthy_opt (temp_mail_email s) = false ->
  check_inbox inbox s
  = (Raise (mkExn Exception "邮箱未初始化，请先调用 get_email_address()"), s).
Proof. intros H. cbv [check_inbox bind get]. rewrite H. reflexivity. Qed.

Lemma check_inbox_set s :
  OpenAIRegister.truthy_opt (temp_mail_email s) = true ->
  check_inbox inbox s
  = (Ok (messages_of (inbox_reply (inbox (mail_requests s)))), after_get_emails s).
Proof.
  intros H. cbv [check_inbox bind get]. rewrite H. cbn [negb].
  cbv [try_except get_emails bind get modify sleep ret].
  destruct (inbox_reply (inbox (mail_requests s))); reflexivity.
Qed.

Lemma poll_once_unset poll_interval s :
  OpenAIRegister.truthy_opt (temp_mail_email s) = false ->
  poll_once db inbox poll_interval s
  = (Ok None, set_now (now s + Z.max 0 poll_interval) s).
Proof.
  intros H. unfold poll_once, try_except.
  rewrite (bind_raise _ _ _ _ _ (check_inbox_unset s H)). reflexivity.
Qed.

Lemma poll_once_set poll_interval s :
  OpenAIRegister.truthy_opt (temp_mail_email s) = true ->
  poll_once db inbox poll_interval s
  = match first_code db (messages_of (inbox_reply (inbox (mail_requests s)))) with
    | Returns (Some code) => (Ok (Some code), after_get_emails s)
    | _ => (Ok None,
            set_now (now (after_get_emails s) + Z.max 0 poll_interval)
                    (after_get_emails s))
    end.
Proof.
  intros H. unfold poll_once, try_except.
  rewrite (bind_ok _ _ _ _ _ (check_inbox_set s H)).
  destruct (first_code db _) as [[code|]|e]; reflexivity.
Qed.

Lemma extract_six v code :
  extract db v = Returns (Some code) -> TempMailService.is_six db code.
Proof.
  destruct v as [content| |e]; cbn [extract]; try discriminate.
  intros [= H]. unfold TempMailService.extract_code_from_content in H.
  destruct (negb (Py.nonempty content)); [discriminate|].
  exact (first_match_six db TempMailService.code_patterns content code eq_refl H).
Qed.

Lemma six_nonempty code :
  TempMailService.is_six db code -> Py.nonempty code = true.
Proof. intros [Hl _]. destruct code; [discriminate Hl | reflexivity]. Qed.

(** What extraction returns is a code or nothing: never an empty
    string. *)
Lemma extract_falsy v x :
  extract db v = Returns x -> truthy_code x = false -> x = None.
Proof.
  intros E Ht. destruct x as [c|]; [|reflexivity].
  apply extract_six, six_nonempty in E. cbn [truthy_code] in Ht. congruence.
Qed.

Lemma code_of_spec m x :
  code_of db m = Returns x ->
  match x with
  | Some code => code_of_mail db m code /\ TempMailService.is_six db code
  | None => extract db (body m) = Returns None /\
            extract db (subject m) = Returns None
  end.
Proof.
  unfold code_of, code_of_mail.
  destruct (extract db (body m)) as [fb|e] eqn:Eb; [|discriminate].
  destruct (truthy_code fb) eqn:Ht.
  - intros [= <-]. destruct fb as [c|]; [|discriminate Ht].
    split; [left; reflexivity | exact (extract_six _ _ Eb)].
  - rewrite (extract_falsy _ _ Eb Ht). intros Es.
    destruct x as [c|].
    + split; [right; split; [reflexivity | exact Es] | exact (extract_six _ _ Es)].
    + split; [reflexivity | exact Es].
Qed.

(** The loop over the messages of one reply returns the code of the
    first dict that has one; the dicts before it have none. *)
Lemma first_code_spec messages code :
  first_code db messages = Returns (Some code) ->
  exists before m after,
    messages = (before ++ Mail m :: after)%list /\
    (forall x, In x before -> holds_no_code db x) /\
    code_of_mail db m code /\ TempMailService.is_six db code.
Proof.
  induction messages as [|[m|e] rest IH]; cbn [first_code]; try discriminate.
  destruct (code_of db m) as [x|e] eqn:Ec; [|discriminate].
  pose proof (code_of_spec m x Ec) as Hx.
  destruct (truthy_code x) eqn:Ht.
  - intros [= ->]. destruct Hx as [Hfrom Hsix].
    exists [], m, rest. split; [reflexivity|]. split; [intros y []|]. auto.
  - destruct x as [c|].
    + destruct Hx as [_ Hsix]. apply six_nonempty in Hsix.
      cbn [truthy_code] in Ht. congruence.
    + intros Hrest. destruct (IH Hrest) as (before & m' & after & -> & Hb & Hm).
      exists (Mail m :: before), m', after. split; [reflexivity|]. split; [|exact Hm].
      intros y [<-|Hy]; [|exact (Hb y Hy)].
      exists m. split; [reflexivity | exact Hx].
Qed.

(** What the polling loop keeps and how it can end. *)
Lemma mail_wait_loop_spec fuel start_time timeout poll_interval : forall s r s',
  wait_loop db inbox fuel start_time timeout poll_interval s = (r, s') ->
  temp_mail_email s' = temp_mail_email s /\
  (mail_requests s <= mail_requests s')%nat /\
  (OpenAIRegister.truthy_opt (temp_mail_email s) = false ->
   mail_requests s' = mail_requests s /\ forall code, r <> Ok code) /\
  match r with
  | Ok code =>
      (mail_requests s < mail_requests s')%nat /\
      first_code db (messages_of (inbox_reply (inbox (mail_requests s' - 1))))
        = Returns (Some code) /\
      forall k, (mail_requests s <= k < mail_requests s' - 1)%nat ->
        forall c, first_code db (messages_of (inbox_reply (inbox k)))
                  <> Returns (Some c)
  | Raise e => e = mail_timeout /\ (timeout <= now s' - start_time)%Z
  | Diverge => True
  end.
Proof.
  induction fuel as [|fuel IH]; intros s r s' E.
  - cbn [wait_loop] in E. cbv [bind get GrizzlySMSService.diverge raise] in E.
    destruct (now s - start_time <? timeout)%Z eqn:Hlt;
      injection E as <- <-.
    + repeat split; auto. discriminate.
    + apply Z.ltb_ge in Hlt. repeat split; auto; try discriminate.
  - cbn [wait_loop] in E.
    rewrite (bind_ok _ _ s s s) in E by reflexivity.
    destruct (now s - start_time <? timeout)%Z eqn:Hlt.
    + destruct (OpenAIRegister.truthy_opt (temp_mail_email s)) eqn:Hset.
      * pose proof (poll_once_set poll_interval s Hset) as Hp.
        destruct (first_code db (messages_of (inbox_reply (inbox (mail_requests s)))))
          as [[code|]|e] eqn:Hfc.
        -- rewrite (bind_ok _ _ _ _ _ Hp) in E. cbv [ret] in E.
           injection E as <- <-.
           cbn [after_get_emails temp_mail_email set_now set_mail_requests
                mail_requests].
           split; [reflexivity|]. split; [lia|].
           split; [intros Hf; discriminate Hf|].
           split; [lia|]. rewrite Nat.sub_succ, Nat.sub_0_r.
           split; [exact Hfc|]. intros k Hk. lia.
        -- rewrite (bind_ok _ _ _ _ _ Hp) in E. apply IH in E.
           cbn [after_get_emails temp_mail_email set_now set_mail_requests
                mail_requests now] in E.
           destruct E as (H1 & H2 & _ & H4).
           split; [exact H1|]. split; [lia|].
           split; [intros Hf; discriminate Hf|].
           destruct r as [code|e|]; [|exact H4|exact I].
           destruct H4 as (Hlt' & Hlast & Hearly).
           split; [lia|]. split; [exact Hlast|].
           intros k Hk c.
           destruct (Nat.eq_dec k (mail_requests s)) as [->|Hne];
             [rewrite Hfc; discriminate|].
           apply Hearly. lia.
        -- rewrite (bind_ok _ _ _ _ _ Hp) in E. apply IH in E.
           cbn [after_get_emails temp_mail_email set_now set_mail_requests
                mail_requests now] in E.
           destruct E as (H1 & H2 & _ & H4).
           split; [exact H1|]. split; [lia|].
           split; [intros Hf; discriminate Hf|].
           destruct r as [code|e'|]; [|exact H4|exact I].
           destruct H4 as (Hlt' & Hlast & Hearly).
           split; [lia|]. split; [exact Hlast|].
           intros k Hk c.
           destruct (Nat.eq_dec k (mail_requests s)) as [->|Hne];
             [rewrite Hfc; discriminate|].
           apply Hearly. lia.
      * rewrite (bind_ok _ _ _ _ _ (poll_once_unset poll_interval s Hset)) in E.
        apply IH in E. cbn [temp_mail_email set_now mail_requests now] in E.
        destruct E as (H1 & H2 & H3 & H4).
        specialize (H3 Hset) as [H3 H5].
        split; [exact H1|]. split; [exact H2|]. split; [auto|].
        destruct r as [code|e|]; [exfalso; exact (H5 code eq_refl) | exact H4 | exact I].
    + cbv [raise] in E. injection E as <- <-. apply Z.ltb_ge in Hlt.
      repeat split; auto; try discriminate.
Qed.


(** X20. A code returned by the mailbox's [wait_for_verification_code]
    comes from the last inbox reply fetched.  That reply holds a list of
    messages; the code is taken from the first dict among them that
    yields one, from its body if the body yields a code and from its
    subject otherwise; every message before it is a dict whose body and
    subject yield none.  The code is six decimal digits.  No earlier
    reply of this wait gave a code, and a code is returned only for a
    mailbox that has an address. *)
Theorem mail_wait_returns_first_code
        (fuel : nat) (timeout poll_interval : Z) (s s' : State) (code : Py.text) :
  wait_for_verification_code db inbox fuel timeout poll_interval s = (Ok code, s') ->
  OpenAIRegister.truthy_opt (temp_mail_email s) = true /\
  TempMailService.is_six db code /\
  exists k before m after,
    (mail_requests s <= k)%nat /\ mail_requests s' = S k /\
    inbox_reply (inbox k) = InboxData (before ++ Mail m :: after) /\
    (forall x, In x before -> holds_no_code db x) /\
    code_of_mail db m code /\
    forall j, (mail_requests s <= j < k)%nat ->
      forall c, first_code db (messages_of (inbox_reply (inbox j)))
                <> Returns (Some c).
Proof.
  unfold wait_for_verification_code.
  rewrite (bind_ok _ _ s s s) by reflexivity. intros E.
  apply mail_wait_loop_spec in E. destruct E as (_ & _ & Hunset & Hlt & Hlast & Hearly).
  destruct (first_code_spec _ _ Hlast) as (before & m & after & Hmsgs & Hb & Hm & Hsix).
  split.
  { destruct (OpenAIRegister.truthy_opt (temp_mail_email s)); [reflexivity|].
    destruct (Hunset eq_refl) as [_ Hno]. exfalso. exact (Hno code eq_refl). }
  split; [exact Hsix|].
  exists (mail_requests s' - 1)%nat, before, m, after.
  split; [lia|]. split; [lia|]. split.
  - destruct (inbox_reply (inbox (mail_requests s' - 1))) as [e|st rs|msg|ms];
      cbn [messages_of] in Hmsgs;
      try (destruct before; discriminate Hmsgs).
    rewrite Hmsgs. reflexivity.
  - split; [exact Hb|]. split; [exact Hm | exact Hearly].
Qed.



End InboxFacts.

Section InboxExamples.
Import TempMailInbox.

Definition welcome_mail : mail :=
  {| subject := Str (Py.codes "Welcome"); from := Str (Py.codes "hello@example.com");
     body := Str (Py.codes "Thanks for joining.") |}.

(** The code stands in the subject; the body is an HTML part the
    provider left out ([null]). *)
Definition code_mail : mail :=
  {| subject := Str (Py.codes "Your code is 123456");
     from := Str (Py.codes "noreply@example.com");
     body := Falsy |}.

(** An inbox that is empty at first and then holds the mail with the
    code. *)
Definition code_mail_arrives (k : nat) : inbox_exchange :=
  match k with
  | O => {| inbox_latency := 200; inbox_reply := InboxData [] |}
  | _ => {| inbox_latency := 300;
            inbox_reply := InboxData [Mail welcome_mail; Mail code_mail] |}
  end.


Definition with_address : State :=
  set_temp_mail_email (Some "u@mail.com") (Sample.start SourceClass).

Lemma mail_wait_returns_first_code_witness :
  wait_for_verification_code ascii_only code_mail_arrives 30 120000 5000 with_address
    = (Ok (Py.codes "123456"),
       snd (wait_for_verification_code ascii_only code_mail_arrives 30 120000 5000
              with_address)) /\
  TempMailService.is_six ascii_only (Py.codes "123456") /\
  mail_requests
    (snd (wait_for_verification_code ascii_only code_mail_arrives 30 120000 5000
            with_address))
    = 2%nat.
Proof.
  assert (H : wait_for_verification_code ascii_only code_mail_arrives 30 120000 5000
                with_address
    = (Ok (Py.codes "123456"),
       snd (wait_for_verification_code ascii_only code_mail_arrives 30 120000 5000
              with_address)))
    by (vm_compute; reflexivity).
  split; [exact H|].
  destruct (mail_wait_returns_first_code ascii_only code_mail_arrives 30 120000 5000
              with_address _ (Py.codes "123456") H) as (_ & Hsix & _).
  split; [exact Hsix|]. vm_compute. reflexivity.
Defined.

(** A message whose body is a number makes the search raise: the loop
    gives up on that reply, the mail after it is not looked at in this
    turn. *)
Example unsearchable_body_abandons_the_reply (db : TempMailService.unicode) :
  first_code db
    [Mail {| subject := Str (Py.codes "hi"); from := Falsy;
             body := Unsearchable
                       (mkExn OtherError "expected string or bytes-like object") |};
     Mail code_mail]
  = Raises (mkExn OtherError "expected string or bytes-like object").
Proof. reflexivity. Qed.



End InboxExamples.

(** ** Birthdays, stored accounts, and where a code comes from *)

Section BirthdayFacts.
Import Random Birthday.

Lemma randint_run a b g :
  (a <= b)%nat ->
  exists r, randint a b g = (r, {| draws := draws g; pos := S (pos g) |}) /\
            (a <= r <= b)%nat.
Proof.
  intros Hab. unfold randint, bind, randbelow, ret.
  eexists. split; [reflexivity|].
  pose proof (Nat.mod_upper_bound (draws g (pos g)) (b - a + 1)). lia.
Qed.

(** X23. [_generate_birthday] gives a date that exists in every year:
    a month from 1 to 12 and a day from 1 to 28, in a year from 1985 to
    2007 (18 to 40 years before the fixed year 2025).  It makes three
    draws and its argument changes nothing. *)
Theorem generate_birthday_is_a_date (is_chinese_page : bool) (g : gen) :
  exists year month day g',
    _generate_birthday is_chinese_page g = ((year, month, day), g') /\
    (1985 <= year <= 2007)%nat /\ (1 <= month <= 12)%nat /\ (1 <= day <= 28)%nat /\
    pos g' = (pos g + 3)%nat /\ draws g' = draws g /\
    _generate_birthday (negb is_chinese_page) g = ((year, month, day), g').
Proof.
  unfold _generate_birthday.
  destruct (randint_run 18 40 g ltac:(lia)) as (age & E1 & H1).
  destruct (randint_run 1 12 {| draws := draws g; pos := S (pos g) |} ltac:(lia))
    as (month & E2 & H2).
  destruct (randint_run 1 28 {| draws := draws g; pos := S (S (pos g)) |} ltac:(lia))
    as (day & E3 & H3).
  cbn [draws pos] in E2, E3.
  exists (2025 - age)%nat, month, day,
         {| draws := draws g; pos := S (S (S (pos g))) |}.
  assert (E : bind (randint 18 40)
                (fun age0 => bind (randint 1 12)
                   (fun month0 => bind (randint 1 28)
                      (fun day0 => ret ((2025 - age0)%nat, month0, day0)))) g
              = (((2025 - age)%nat, month, day),
                 {| draws := draws g; pos := S (S (S (pos g))) |})).
  { unfold bind at 1. rewrite E1. unfold bind at 1. rewrite E2.
    unfold bind at 1. rewrite E3. reflexivity. }
  split; [exact E|]. split; [lia|]. split; [lia|]. split; [lia|].
  split; [cbn [pos]; lia|]. split; [reflexivity | exact E].
Qed.

End BirthdayFacts.

Section LatestAccounts.
Import AutoRegisterService.

Lemma insert_desc_perm x l : Permutation (x :: l) (insert_desc x l).
Proof.
  induction l as [|y l IH]; cbn [insert_desc]; [reflexivity|].
  destruct (sort_key x <? sort_key y)%nat; [|reflexivity].
  rewrite perm_swap. apply perm_skip, IH.
Qed.

Lemma sort_desc_perm l : Permutation l (sort_desc l).
Proof.
  induction l as [|x l IH]; cbn [sort_desc]; [reflexivity|].
  rewrite <- insert_desc_perm. apply perm_skip, IH.
Qed.

Lemma newest_first_insert x l :
  newest_first l -> newest_first (insert_desc x l).
Proof.
  induction l as [|y l IH]; cbn [insert_desc newest_first].
  - intros _. split; [intros y []|exact I].
  - intros [Hy Hl]. destruct (Nat.ltb_spec (sort_key x) (sort_key y)) as [Hlt|Hge].
    + cbn [newest_first]. split; [|exact (IH Hl)].
      intros z Hz.
      apply (Permutation_in _ (Permutation_sym (insert_desc_perm x l))) in Hz.
      destruct Hz as [<-|Hz]; [lia | exact (Hy z Hz)].
    + cbn [newest_first]. split; [|split; assumption].
      intros z [<-|Hz]; [exact Hge|]. specialize (Hy z Hz). lia.
Qed.

Lemma newest_first_sort l : newest_first (sort_desc l).
Proof.
  induction l as [|x l IH]; cbn [sort_desc]; [exact I|].
  apply newest_first_insert, IH.
Qed.

Lemma newest_first_app a b :
  newest_first (a ++ b) ->
  newest_first a /\
  forall x y, In x a -> In y b -> (sort_key y <= sort_key x)%nat.
Proof.
  induction a as [|z a IH]; cbn [app newest_first].
  - intros _. split; [exact I | intros x y []].
  - intros [Hz Hab]. destruct (IH Hab) as [Ha Hrest]. split.
    + split; [|exact Ha]. intros y Hy. apply Hz, in_or_app. left. exact Hy.
    + intros x y [<-|Hx] Hy.
      * apply Hz, in_or_app. right. exact Hy.
      * exact (Hrest x y Hx Hy).
Qed.

Lemma slice_to_firstn count l :
  exists n, slice_to count l = firstn n l /\
            ((0 <= count)%Z -> n = Z.to_nat count).
Proof.
  unfold slice_to. destruct (Z.ltb_spec count 0).
  - eexists. split; [reflexivity|]. lia.
  - eexists. split; [reflexivity|]. reflexivity.
Qed.

(** X24. [get_latest_accounts] never raises: a failure of the database
    gives the empty list.  Otherwise it returns the accounts of the
    newest tokens, newest first, a token without creation time counting
    as the oldest: the tokens left out are no newer than any returned
    one, and for [count >= 0] exactly [min count n] of the [n] tokens
    are returned. *)
Theorem get_latest_accounts_picks_the_newest
        (get_all_tokens : outcome (list stored_token)) (count : Z) (s : State) :
  match get_all_tokens with
  | Raises _ => get_latest_accounts get_all_tokens count s = (Ok [], s)
  | Returns tokens =>
      get_latest_accounts get_all_tokens count s
        = (Ok (map (fun t => RegisterFlowService.account_of (token t))
                   (latest_tokens count tokens)), s) /\
      newest_first (latest_tokens count tokens) /\
      (exists rest,
          Permutation tokens (latest_tokens count tokens ++ rest) /\
          forall x y, In x (latest_tokens count tokens) -> In y rest ->
                      (sort_key y <= sort_key x)%nat) /\
      ((0 <= count)%Z ->
       length (latest_tokens count tokens)
         = Nat.min (Z.to_nat count) (length tokens))
  end.
Proof.
  destruct get_all_tokens as [tokens|e]; [|reflexivity].
  split; [reflexivity|]. unfold latest_tokens.
  destruct (slice_to_firstn count (sort_desc tokens)) as (n & -> & Hn).
  pose proof (newest_first_sort tokens) as Hs.
  rewrite <- (firstn_skipn n (sort_desc tokens)) in Hs.
  apply newest_first_app in Hs. destruct Hs as [Hfirst Hrest].
  split; [exact Hfirst|]. split.
  - exists (skipn n (sort_desc tokens)). split; [|exact Hrest].
    rewrite firstn_skipn. apply sort_desc_perm.
  - intros Hc. rewrite length_firstn, (Hn Hc).
    rewrite <- (Permutation_length (sort_desc_perm tokens)). reflexivity.
Qed.

End LatestAccounts.

Section ExtractOccurs.
Import TempMailService.
Variable db : unicode.

Lemma star_suffix k cont prev s g :
  star db k cont prev s = Some g ->
  exists prev' pre s', s = (pre ++ s')%list /\ cont prev' s' = Some g.
Proof.
  revert prev. induction s as [|c s IH]; intros prev; cbn [star].
  - intros H. exists prev, [], []. auto.
  - destruct (in_class db k c).
    + destruct (star db k cont (Some c) s) as [g'|] eqn:Hs.
      * intros [= <-]. destruct (IH _ Hs) as (p' & pre & s' & -> & H).
        exists p', (c :: pre), s'. auto.
      * intros H. exists prev, [], (c :: s). auto.
    + intros H. exists prev, [], (c :: s). auto.
Qed.

(** The group a match returns is the one it was given or a run of the
    text. *)
Lemma match_here_infix p : forall cap prev s g,
  match_here db p cap prev s = Some g ->
  g = cap \/ exists pre post, s = (pre ++ g ++ post)%list.
Proof.
  induction p as [|i p IH]; intros cap prev s g; cbn [match_here].
  - intros [= <-]. left. reflexivity.
  - destruct i as [l|k|k| |].
    + destruct s as [|c s']; [discriminate|].
      destruct (lit_match l c); [|discriminate].
      intros H. destruct (IH _ _ _ _ H) as [->|(pre & post & ->)]; [left; reflexivity|].
      right. exists (c :: pre), post. reflexivity.
    + intros H. destruct (star_suffix _ _ _ _ _ H) as (p' & pre0 & s' & -> & H').
      destruct (IH _ _ _ _ H') as [->|(pre & post & ->)]; [left; reflexivity|].
      right. exists (pre0 ++ pre)%list, post. rewrite <- app_assoc. reflexivity.
    + destruct s as [|c s']; [discriminate|].
      destruct (in_class db k c); [|discriminate].
      intros H. destruct (star_suffix _ _ _ _ _ H) as (p' & pre0 & s2 & -> & H').
      destruct (IH _ _ _ _ H') as [->|(pre & post & ->)]; [left; reflexivity|].
      right. exists (c :: pre0 ++ pre)%list, post.
      cbn [app]. rewrite <- app_assoc. reflexivity.
    + destruct (six_digits db s) as [[g6 rest]|] eqn:H6; [|discriminate].
      apply six_digits_spec in H6. destruct H6 as [_ ->].
      intros H. destruct (IH _ _ _ _ H) as [->|(pre & post & ->)].
      * right. exists [], rest. reflexivity.
      * right. exists (g6 ++ pre)%list, post. rewrite <- app_assoc. reflexivity.
    + destruct (xorb (word_before db prev) (word_after db s)); [|discriminate].
      apply IH.
Qed.

Lemma search_from_infix p : forall prev s g,
  search_from db p prev s = Some g ->
  g = [] \/ exists pre post, s = (pre ++ g ++ post)%list.
Proof.
  intros prev s; revert prev. induction s as [|c s IH]; intros prev g;
    cbn [search_from].
  - destruct (match_here db p [] prev []) as [g'|] eqn:H; [|discriminate].
    intros [= <-]. exact (match_here_infix _ _ _ _ _ H).
  - destruct (match_here db p [] prev (c :: s)) as [g'|] eqn:H.
    + intros [= <-]. exact (match_here_infix _ _ _ _ _ H).
    + intros Hs. destruct (IH _ _ Hs) as [->|(pre & post & ->)]; [left; reflexivity|].
      right. exists (c :: pre), post. reflexivity.
Qed.

Lemma first_match_infix ps content x :
  forallb has_group ps = true ->
  first_match db ps content = Some x ->
  (exists pre post, content = (pre ++ x ++ post)%list) /\
  exists p, In p ps /\ (min_len p <= length content)%nat.
Proof.
  induction ps as [|p ps IH]; cbn [first_match forallb]; [discriminate|].
  intros Hg. apply andb_prop in Hg. destruct Hg as [Hp Hps].
  unfold re_search at 1.
  destruct (search_from db p None content) as [g|] eqn:H.
  - intros [= <-]. pose proof (search_from_spec db _ _ _ _ H) as [Hsix Hlen].
    specialize (Hsix Hp). split.
    + destruct (search_from_infix _ _ _ _ H) as [->|Hin]; [|exact Hin].
      destruct Hsix as [Hl _]. discriminate Hl.
    + exists p. split; [left; reflexivity | exact Hlen].
  - intros Hx. destruct (IH Hps Hx) as (Hc & q & Hq & Hlen).
    split; [exact Hc|]. exists q. split; [right; exact Hq | exact Hlen].
Qed.

(** X25. A code that [extract_code_from_content] returns is taken from
    the content: it stands there, six characters in a row; and a content
    of fewer than six characters holds no code.  This holds for every
    text, whatever the Unicode database says of its characters. *)
Theorem extract_code_occurs_in_content (content code : Py.text) :
  extract_code_from_content db content = Some code ->
  (exists pre post, content = (pre ++ code ++ post)%list) /\
  length code = 6%nat /\ (6 <= length content)%nat.
Proof.
  unfold extract_code_from_content.
  destruct (negb (Py.nonempty content)); [discriminate|].
  intros H. pose proof (first_match_six db code_patterns content code eq_refl H) as [Hsix _].
  apply first_match_infix in H; [|reflexivity].
  destruct H as (Hc & p & Hp & Hlen). split; [exact Hc|]. split; [exact Hsix|].
  assert (Hmin : forall q, In q code_patterns -> (6 <= min_len q)%nat).
  { intros q Hq. unfold code_patterns in Hq. cbn [In] in Hq.
    repeat (destruct Hq as [<-|Hq]; [vm_compute; lia|]). destruct Hq. }
  specialize (Hmin p Hp). lia.
Qed.

End ExtractOccurs.

Section ExtractOccursExamples.
Import TempMailService.

Lemma extract_code_occurs_in_content_witness :
  extract_code_from_content ascii_only (Py.codes "Hello, your code is 246810.")
    = Some (Py.codes "246810") /\
  exists pre post,
    Py.codes "Hello, your code is 246810." = (pre ++ Py.codes "246810" ++ post)%list.
Proof.
  assert (H : extract_code_from_content ascii_only
                (Py.codes "Hello, your code is 246810.") = Some (Py.codes "246810"))
    by (vm_compute; reflexivity).
  split; [exact H|].
  exact (proj1 (extract_code_occurs_in_content ascii_only _ _ H)).
Defined.

End ExtractOccursExamples.
